(** * Signaling server and lockstep engine of the netplay emulator

    A shallow embedding of the relay server (the [ws] message handler with
    its user, connection, room and invite registries) and of the two
    client-side lockstep loops (the NES loop of [App.tsx] and the
    [applyStates] loop of the SNES view), followed by the properties the
    specification states about them.  After these come the key handlers of
    both views, the input code of the NES emulator session, the loops that
    turn ROM bytes into a binary string and back, and the map of pending
    requests of the client, with properties of the code beyond the
    specification.

    Conventions of the embedding.
    - A JavaScript string is a [string]; a character is one code unit below
      256, so the model is exact on ASCII text (ids, room codes, friend
      codes, error messages).
    - [rooms] and [invites] are the server's [Map]s, as [gmap]s keyed by
      string; arrays ([members], [spectators], [readyByUserId], [chat],
      [users], [friends]) are lists in array order.
    - A handler mutates the room object it looked up; here it re-binds the
      updated record under the key it was looked up by.
    - [uuidv4()] and [new Date().toISOString()] are inputs ([Env]).
    - Every handler returns the messages it sends, in order: the response to
      the requesting socket and the events addressed to users.  The
      [presence:update] and [friends:list] events, which carry views derived
      from the registries and change none of them, are left out, as is the
      write of the user file.
    - The emulator is seen through the calls made to it; where a property
      speaks of the buttons it holds, [buttonDown] presses and [buttonUp]
      releases the button of a player, and nothing else moves it.
    - The bit operators of JavaScript work on 32-bit integers; the masks
      are [Z] with that wrap written out ([toInt32]). *)

From Stdlib Require Import ZArith Ascii String.
From stdpp Require Import gmap strings list fin_maps.

Local Open Scope string_scope.
Local Open Scope list_scope.

(** ** JavaScript string and array helpers *)

(** White space and line terminators removed by [String.prototype.trim]
    (those below 256: TAB, LF, VT, FF, CR, SP, NBSP). *)
Definition isWhiteSpace (c : ascii) : bool :=
  let n := nat_of_ascii c in
  (((9 <=? n) && (n <=? 13)) || (n =? 32) || (n =? 160))%nat.

Fixpoint trimStart (s : string) : string :=
  match s with
  | String c s' => if isWhiteSpace c then trimStart s' else s
  | EmptyString => EmptyString
  end.

Fixpoint trimEnd (s : string) : string :=
  match s with
  | String c s' =>
      match trimEnd s' with
      | EmptyString => if isWhiteSpace c then EmptyString else String c EmptyString
      | t => String c t
      end
  | EmptyString => EmptyString
  end.

Definition trim (s : string) : string := trimEnd (trimStart s).

(** [toUpperCase] on the letters a-z and on the Latin-1 letters whose upper
    case is again one code unit below 256; the three others (those of code
    181, 223 and 255) are left as they are. *)
Definition upperChar (c : ascii) : ascii :=
  let n := nat_of_ascii c in
  if (((97 <=? n) && (n <=? 122))
      || ((224 <=? n) && (n <=? 254) && negb (n =? 247)))%nat
  then ascii_of_nat (n - 32) else c.

Fixpoint toUpperCase (s : string) : string :=
  match s with
  | String c s' => String (upperChar c) (toUpperCase s')
  | EmptyString => EmptyString
  end.

(** The strings on which [toUpperCase] above is that of JavaScript: those
    without the three code units (181, 223, 255) whose upper case is not one
    code unit below 256. *)
Definition upperExact (s : string) : bool :=
  forallb (λ c, let n := nat_of_ascii c in
                negb ((n =? 181) || (n =? 223) || (n =? 255))%nat)
          (list_ascii_of_string s).

(** [toLowerCase], on the same letters as [toUpperCase]. *)
Definition lowerChar (c : ascii) : ascii :=
  let n := nat_of_ascii c in
  if (((65 <=? n) && (n <=? 90))
      || ((192 <=? n) && (n <=? 222) && negb (n =? 215)))%nat
  then ascii_of_nat (n + 32) else c.

Fixpoint toLowerCase (s : string) : string :=
  match s with
  | String c s' => String (lowerChar c) (toLowerCase s')
  | EmptyString => EmptyString
  end.

(** [s.slice(0, n)] *)
Fixpoint sliceTo (n : nat) (s : string) : string :=
  match n, s with
  | S n', String c s' => String c (sliceTo n' s')
  | _, _ => EmptyString
  end.

(** [s.startsWith(p)] *)
Fixpoint startsWith (p s : string) : bool :=
  match p, s with
  | EmptyString, _ => true
  | String a p', String b s' => bool_decide (a = b) && startsWith p' s'
  | String _ _, EmptyString => false
  end.

(** [arr.slice(-n)] for [n > 0]: the last [n] elements, all of them when the
    array is shorter. *)
Definition sliceLast {A} (n : nat) (l : list A) : list A :=
  drop (length l - n) l.

(** [!s] for a string *)
Definition falsy (s : string) : bool := bool_decide (s = "").

(** [arr.includes(x)] *)
Definition includes (x : string) (l : list string) : bool := bool_decide (x ∈ l).

(** [if (!arr.includes(x)) arr.push(x)] *)
Definition pushUnique (x : string) (l : list string) : list string :=
  if includes x l then l else l ++ [x].

(** [arr.filter((id) => id !== x)] *)
Definition without (x : string) (l : list string) : list string :=
  filter (λ id, id ≠ x) l.

(** ** Data model of the server *)

Record UserRecord := mkUser {
  userId : string;
  displayName : string;
  friendCode : string;
  friends : list string;
  avatarDataUrl : option string
}.

Record InviteRecord := mkInvite {
  inviteId : string;
  fromUserId : string;
  toUserId : string;
  inviteRoomId : string;
  inviteGameId : string;
  inviteCreatedAt : string
}.

Inductive Mode := lockstep | stream.

Record Session := mkSession {
  mode : Mode;
  sessionGameId : string;
  gameName : string;
  platform : string;
  emulatorId : option string;
  romHash : option string;
  protocolVersion : option string;
  coreVersion : option string;
  romBase64 : option string;
  startedAt : string
}.

Record ChatMessage := mkChatMessage {
  chatId : string;
  chatRoomId : string;
  chatFromUserId : string;
  fromDisplayName : string;
  text : string;
  chatCreatedAt : string
}.

Record RoomRecord := mkRoom {
  roomId : string;
  hostUserId : string;
  gameId : string;
  members : list string;
  spectators : list string;
  locked : bool;
  readyByUserId : list string;
  chat : list ChatMessage;
  session : option Session
}.

(** The registries: [users], [socketsByUserId], [socketUser], [rooms] and
    [invites].  A socket is a number. *)
Record Server := mkServer {
  users : list UserRecord;
  socketsByUserId : gmap string (gset nat);
  socketUser : gmap nat string;
  rooms : gmap string RoomRecord;
  invites : gmap string InviteRecord
}.

(** The registries when the process starts: the users read from the user
    file, nothing else. *)
Definition startServer (loaded : list UserRecord) : Server :=
  mkServer loaded ∅ ∅ ∅ ∅.

(** Field updates of a room object and of the registries. *)
Definition setMembers (l : list string) (r : RoomRecord) : RoomRecord :=
  mkRoom (roomId r) (hostUserId r) (gameId r) l (spectators r) (locked r)
         (readyByUserId r) (chat r) (session r).
Definition setSpectators (l : list string) (r : RoomRecord) : RoomRecord :=
  mkRoom (roomId r) (hostUserId r) (gameId r) (members r) l (locked r)
         (readyByUserId r) (chat r) (session r).
Definition setReadyByUserId (l : list string) (r : RoomRecord) : RoomRecord :=
  mkRoom (roomId r) (hostUserId r) (gameId r) (members r) (spectators r) (locked r)
         l (chat r) (session r).
Definition setLocked (b : bool) (r : RoomRecord) : RoomRecord :=
  mkRoom (roomId r) (hostUserId r) (gameId r) (members r) (spectators r) b
         (readyByUserId r) (chat r) (session r).
Definition setHostUserId (h : string) (r : RoomRecord) : RoomRecord :=
  mkRoom (roomId r) h (gameId r) (members r) (spectators r) (locked r)
         (readyByUserId r) (chat r) (session r).
Definition setChat (c : list ChatMessage) (r : RoomRecord) : RoomRecord :=
  mkRoom (roomId r) (hostUserId r) (gameId r) (members r) (spectators r) (locked r)
         (readyByUserId r) c (session r).
Definition setSession (s : Session) (r : RoomRecord) : RoomRecord :=
  mkRoom (roomId r) (hostUserId r) (gameId r) (members r) (spectators r) (locked r)
         (readyByUserId r) (chat r) (Some s).

Definition setUsers (us : list UserRecord) (st : Server) : Server :=
  mkServer us (socketsByUserId st) (socketUser st) (rooms st) (invites st).
Definition setSockets (by_user : gmap string (gset nat)) (by_socket : gmap nat string)
    (st : Server) : Server :=
  mkServer (users st) by_user by_socket (rooms st) (invites st).
Definition setRooms (rs : gmap string RoomRecord) (st : Server) : Server :=
  mkServer (users st) (socketsByUserId st) (socketUser st) rs (invites st).
Definition setInvites (inv : gmap string InviteRecord) (st : Server) : Server :=
  mkServer (users st) (socketsByUserId st) (socketUser st) (rooms st) inv.

(** ** Messages *)

(** The payload of a request, each field as the handler reads it:
    a string field is [String(payload.x || "")], a flag is
    [Boolean(payload.x)], a number is [Number(payload.x)] when finite (a
    whole number here),
    [signal] is present when it is a non-null object, [paused] when it is a
    boolean. *)
Record Payload := mkPayload {
  p_userId : string;
  p_displayName : string;
  p_friendCode : string;
  p_avatarDataUrl : string;
  p_gameId : string;
  p_roomId : string;
  p_spectator : bool;
  p_text : string;
  p_ready : bool;
  p_locked : bool;
  p_targetUserId : string;
  p_gameName : string;
  p_platform : string;
  p_emulatorId : string;
  p_romHash : string;
  p_protocolVersion : string;
  p_coreVersion : string;
  p_romBase64 : string;
  p_frame : option Z;
  p_state : option Z;
  p_signal : option string;
  p_paused : option bool;
  p_friendUserId : string;
  p_inviteId : string;
  p_accept : bool
}.

Record IncomingMessage := mkMessage {
  msgType : string;
  requestId : option string;
  payload : Payload
}.

(** What the environment supplies to one request: a fresh [uuidv4()] and the
    current time. *)
Record Env := mkEnv { uuid : string; now : string }.

(** [roomStatePayload] *)
Record RoomState := mkRoomState {
  rs_roomId : string;
  rs_gameId : string;
  rs_hostUserId : string;
  rs_members : list string;
  rs_spectators : list string;
  rs_locked : bool;
  rs_readyByUserId : list string
}.

Definition roomStatePayload (room : RoomRecord) : RoomState :=
  mkRoomState (roomId room) (gameId room) (hostUserId room) (members room)
              (spectators room) (locked room) (readyByUserId room).

Inductive ReplyPayload :=
| PUserId (u : string)
| PFriends
| PRoomState (p : RoomState)
| PChatHistory (h : list ChatMessage)
| PDelivered
| PStarted
| PClosed (closed : bool)
| PInviteId (i : string)
| PDeclined
| PRoomId (r : string).

(** [sendResponse(ws, requestId, ok, payload, error)] *)
Inductive Reply :=
| Ok (p : ReplyPayload)
| Fail (error : string).

Inductive Event :=
| RoomUpdate (p : RoomState)
| RoomChat (m : ChatMessage)
| RoomKicked (room byUserId : string)
| RoomClosed (room : string)
| NetplayStart (room : string) (s : Session) (host : string)
| StreamStart (room game name plat host : string)
| NetplayInput (room from : string) (frame state : Z)
| StreamSignal (room from signal : string)
| StreamInput (room from : string) (state : Z)
| RoomPause (room from : string) (paused : bool)
| InviteReceived (invite from fromName room game : string)
| InviteDeclined (invite byUserId : string)
| InviteAccepted (invite user room : string).

Inductive Out :=
| Response (r : Reply)
| EventTo (user : string) (e : Event).

Record Result := mkResult { outs : list Out; next : Server }.

Definition fail (st : Server) (error : string) : Result :=
  mkResult [Response (Fail error)] st.

(** [if (msg.requestId) sendResponse(...)] *)
Definition replyIfRequested (rid : option string) (r : Reply) : list Out :=
  match rid with
  | Some i => if falsy i then [] else [Response r]
  | None => []
  end.

(** ** Registry helpers *)

Definition getUserById (us : list UserRecord) (id : string) : option (nat * UserRecord) :=
  list_find (λ u, userId u = id) us.

Definition getUserByCode (us : list UserRecord) (code : string) : option (nat * UserRecord) :=
  list_find (λ u, toUpperCase (friendCode u) = toUpperCase code) us.

Definition areFriends (us : list UserRecord) (a b : string) : bool :=
  match getUserById us a with
  | Some (_, user) => includes b (friends user)
  | None => false
  end.

Definition isOnline (st : Server) (id : string) : bool :=
  match socketsByUserId st !! id with
  | Some sockets => bool_decide (0 < size sockets)
  | None => false
  end.

Definition setSocketUser (ws : nat) (id : string) (st : Server) : Server :=
  let sockets := default ∅ (socketsByUserId st !! id) in
  setSockets (<[id := {[ws]} ∪ sockets]> (socketsByUserId st))
             (<[ws := id]> (socketUser st)) st.

Definition dropSocketUser (ws : nat) (st : Server) : Server :=
  match socketUser st !! ws with
  | None => st
  | Some id =>
      if falsy id then st else
      let by_socket := delete ws (socketUser st) in
      match socketsByUserId st !! id with
      | None => setSockets (socketsByUserId st) by_socket st
      | Some sockets =>
          let sockets' := sockets ∖ {[ws]} in
          if bool_decide (size sockets' = 0)
          then setSockets (delete id (socketsByUserId st)) by_socket st
          else setSockets (<[id := sockets']> (socketsByUserId st)) by_socket st
      end
  end.

(** [excludeUserId && memberId === excludeUserId] *)
Definition skipped (exclude : option string) (memberId : string) : bool :=
  match exclude with
  | Some x => negb (falsy x) && bool_decide (memberId = x)
  | None => false
  end.

(** [sendEventToRoom(room, event, payload, excludeUserId)] *)
Definition sendEventToRoom (room : RoomRecord) (e : Event) (exclude : option string)
    : list Out :=
  (λ m, EventTo m e) <$> filter (λ m, skipped exclude m = false) (members room).

(** [emitRoomUpdate]: the [room:update] event to every member. *)
Definition emitRoomUpdate (room : RoomRecord) : list Out :=
  sendEventToRoom room (RoomUpdate (roomStatePayload room)) None.

(** What [removeUserFromRooms] does to one room: [None] when the room is
    deleted. *)
Definition removeUserFromRoom (id : string) (room : RoomRecord) : option RoomRecord :=
  if includes id (members room) then
    let room1 := setMembers (without id (members room)) room in
    let room2 := setSpectators (without id (spectators room1)) room1 in
    let room3 := setReadyByUserId
                   (filter (λ i, i ∈ members room2) (readyByUserId room2)) room2 in
    match members room3 with
    | [] => None
    | first :: _ =>
        Some (if decide (hostUserId room3 = id) then setHostUserId first room3 else room3)
    end
  else Some room.

Definition removeUserFromRooms (id : string) (st : Server) : Server :=
  setRooms (omap (removeUserFromRoom id) (rooms st)) st.

(** [s || d] *)
Definition orElse (s d : string) : string := if falsy s then d else s.

(** [room.session?.mode === "stream"] *)
Definition isStreamMode (room : RoomRecord) : bool :=
  match session room with
  | Some s => match mode s with stream => true | lockstep => false end
  | None => false
  end.

(** [room.members.filter((id) => !room.spectators.includes(id))] *)
Definition players (room : RoomRecord) : list string :=
  filter (λ id, id ∉ spectators room) (members room).

(** ** What the handlers do to a room object *)

(** [room:join], after its checks: the actor is pushed to [members] when
    absent, then pushed to or filtered out of [spectators]. *)
Definition joinAs (actorId : string) (joinAsSpectator : bool) (room : RoomRecord)
    : RoomRecord :=
  let room1 := setMembers (pushUnique actorId (members room)) room in
  if joinAsSpectator
  then setSpectators (pushUnique actorId (spectators room1)) room1
  else setSpectators (without actorId (spectators room1)) room1.

(** [room:chat:send]: push, then keep the last 200. *)
Definition appendChat (message : ChatMessage) (room : RoomRecord) : RoomRecord :=
  let pushed := chat room ++ [message] in
  setChat (if bool_decide (200 < length pushed) then sliceLast 200 pushed else pushed)
          room.

(** [room:ready]: the ready list is filtered against [members], then the
    actor is pushed or filtered out. *)
Definition toggleReady (actorId : string) (ready : bool) (room : RoomRecord)
    : RoomRecord :=
  let filtered := filter (λ i, i ∈ members room) (readyByUserId room) in
  setReadyByUserId (if ready then pushUnique actorId filtered
                    else without actorId filtered) room.

(** [room:kick] (of the target) and [room:close] by a member who is not the
    host (of the actor): the three filters. *)
Definition stripMember (id : string) (room : RoomRecord) : RoomRecord :=
  let room1 := setMembers (without id (members room)) room in
  let room2 := setSpectators (without id (spectators room1)) room1 in
  setReadyByUserId
    (filter (λ i, i ≠ id ∧ i ∈ members room2) (readyByUserId room2)) room2.

(** [invite:respond], accepting: the actor is pushed to [members] when
    absent. *)
Definition acceptInto (actorId : string) (room : RoomRecord) : RoomRecord :=
  setMembers (pushUnique actorId (members room)) room.

(** ** The handlers, one per request type *)

Definition avatarOf (avatar : string) : option string :=
  if startsWith "data:image/" avatar then Some avatar else None.

Definition on_auth (ws : nat) (p : Payload) (st : Server) : Result :=
  let id := trim (p_userId p) in
  let name := trim (p_displayName p) in
  let code := toUpperCase (trim (p_friendCode p)) in
  let avatar := trim (p_avatarDataUrl p) in
  if falsy id || falsy name || falsy code then fail st "Invalid auth payload"
  else
    let users' :=
      match getUserById (users st) id with
      | Some (i, _) =>
          alter (λ u, mkUser (userId u) name code (friends u) (avatarOf avatar))
                i (users st)
      | None => users st ++ [mkUser id name code [] (avatarOf avatar)]
      end in
    mkResult [Response (Ok (PUserId id))] (setSocketUser ws id (setUsers users' st)).

Definition friends_list (st : Server) : Result :=
  mkResult [Response (Ok PFriends)] st.

(** [if (!u.friends.includes(id)) u.friends.push(id)] *)
Definition addFriend (id : string) (u : UserRecord) : UserRecord :=
  mkUser (userId u) (displayName u) (friendCode u) (pushUnique id (friends u))
         (avatarDataUrl u).

Definition friends_add (actorId : string) (p : Payload) (st : Server) : Result :=
  let code := trim (p_friendCode p) in
  match getUserById (users st) actorId, getUserByCode (users st) code with
  | Some (i, actor), Some (j, friend) =>
      if decide (userId friend = userId actor) then fail st "Cannot add yourself"
      else
        let users1 := alter (addFriend (userId friend)) i (users st) in
        let users2 := alter (addFriend (userId actor)) j users1 in
        mkResult [Response (Ok PFriends)] (setUsers users2 st)
  | _, _ => fail st "Friend code not found"
  end.

Definition room_create (env : Env) (actorId : string) (p : Payload) (st : Server)
    : Result :=
  let game := trim (p_gameId p) in
  if falsy game then fail st "gameId is required"
  else
    let id := toUpperCase (sliceTo 8 (uuid env)) in
    let room := mkRoom id actorId game [actorId] [] false [] [] None in
    mkResult [Response (Ok (PRoomState (roomStatePayload room)))]
             (setRooms (<[id := room]> (rooms st)) st).

(** The session a joining member is sent. *)
Definition sessionEvents (actorId : string) (room : RoomRecord) : list Out :=
  match session room with
  | None => []
  | Some s =>
      match mode s with
      | lockstep =>
          match romBase64 s with
          | Some rom =>
              if falsy rom then []
              else [EventTo actorId (NetplayStart (roomId room) s (hostUserId room))]
          | None => []
          end
      | stream =>
          [EventTo actorId (StreamStart (roomId room) (sessionGameId s) (gameName s)
                                        (platform s) (hostUserId room))]
      end
  end.

Definition room_join (actorId : string) (p : Payload) (st : Server) : Result :=
  let id := toUpperCase (trim (p_roomId p)) in
  let joinAsSpectator := p_spectator p in
  match rooms st !! id with
  | None => fail st "Room not found"
  | Some room =>
      if locked room && negb (includes actorId (members room))
      then fail st "Room is locked"
      else if isStreamMode room && negb (includes actorId (members room))
              && negb joinAsSpectator
      then fail st "Streaming room is full"
      else
        let room2 := joinAs actorId joinAsSpectator room in
        mkResult (Response (Ok (PRoomState (roomStatePayload room2)))
                    :: emitRoomUpdate room2 ++ sessionEvents actorId room2)
                 (setRooms (<[id := room2]> (rooms st)) st)
  end.

Definition room_state (actorId : string) (p : Payload) (st : Server) : Result :=
  let id := toUpperCase (trim (p_roomId p)) in
  match rooms st !! id with
  | None => fail st "Room not found"
  | Some room =>
      if negb (includes actorId (members room)) then fail st "Not a room member"
      else mkResult [Response (Ok (PRoomState (roomStatePayload room)))] st
  end.

Definition room_chat_history (actorId : string) (p : Payload) (st : Server) : Result :=
  let id := toUpperCase (trim (p_roomId p)) in
  match rooms st !! id with
  | None => fail st "Room not found"
  | Some room =>
      if negb (includes actorId (members room)) then fail st "Not a room member"
      else mkResult [Response (Ok (PChatHistory (sliceLast 100 (chat room))))] st
  end.

(** [fromUser?.displayName || "Player"] *)
Definition senderName (us : list UserRecord) (actorId : string) : string :=
  match getUserById us actorId with
  | Some (_, u) => orElse (displayName u) "Player"
  | None => "Player"
  end.

Definition room_chat_send (env : Env) (actorId : string) (p : Payload) (st : Server)
    : Result :=
  let id := toUpperCase (trim (p_roomId p)) in
  let txt := trim (p_text p) in
  match rooms st !! id with
  | None => fail st "Room not found"
  | Some room =>
      if negb (includes actorId (members room)) then fail st "Not a room member"
      else if falsy txt then fail st "Message is empty"
      else
        let message :=
          mkChatMessage (uuid env) (roomId room) actorId (senderName (users st) actorId)
                        (sliceTo 400 txt) (now env) in
        let room' := appendChat message room in
        mkResult (sendEventToRoom room' (RoomChat message) None
                    ++ [Response (Ok PDelivered)])
                 (setRooms (<[id := room']> (rooms st)) st)
  end.

Definition room_ready (actorId : string) (p : Payload) (st : Server) : Result :=
  let id := toUpperCase (trim (p_roomId p)) in
  let ready := p_ready p in
  match rooms st !! id with
  | None => fail st "Room not found"
  | Some room =>
      if negb (includes actorId (members room)) then fail st "Not a room member"
      else if includes actorId (spectators room)
      then fail st "Spectator cannot toggle ready"
      else
        let room' := toggleReady actorId ready room in
        mkResult (emitRoomUpdate room' ++ [Response (Ok (PRoomState (roomStatePayload room')))])
                 (setRooms (<[id := room']> (rooms st)) st)
  end.

Definition room_lock (actorId : string) (p : Payload) (st : Server) : Result :=
  let id := toUpperCase (trim (p_roomId p)) in
  match rooms st !! id with
  | None => fail st "Room not found"
  | Some room =>
      if negb (bool_decide (hostUserId room = actorId))
      then fail st "Only host can change lock"
      else
        let room' := setLocked (p_locked p) room in
        mkResult (emitRoomUpdate room' ++ [Response (Ok (PRoomState (roomStatePayload room')))])
                 (setRooms (<[id := room']> (rooms st)) st)
  end.

Definition room_kick (actorId : string) (p : Payload) (st : Server) : Result :=
  let id := toUpperCase (trim (p_roomId p)) in
  let target := trim (p_targetUserId p) in
  match rooms st !! id with
  | None => fail st "Room not found"
  | Some room =>
      if negb (bool_decide (hostUserId room = actorId)) then fail st "Only host can kick"
      else if falsy target || bool_decide (target = actorId)
      then fail st "Invalid target user"
      else if negb (includes target (members room))
      then fail st "Target user is not in room"
      else
        let room3 := stripMember target room in
        mkResult (EventTo target (RoomKicked (roomId room3) actorId)
                    :: emitRoomUpdate room3
                    ++ [Response (Ok (PRoomState (roomStatePayload room3)))])
                 (setRooms (<[id := room3]> (rooms st)) st)
  end.

Definition room_transferHost (actorId : string) (p : Payload) (st : Server) : Result :=
  let id := toUpperCase (trim (p_roomId p)) in
  let target := trim (p_targetUserId p) in
  match rooms st !! id with
  | None => fail st "Room not found"
  | Some room =>
      if negb (bool_decide (hostUserId room = actorId))
      then fail st "Only host can transfer host"
      else if falsy target || negb (includes target (members room))
      then fail st "Target user is not in room"
      else if bool_decide (target = actorId)
      then mkResult [Response (Ok (PRoomState (roomStatePayload room)))] st
      else
        let room' := setHostUserId target room in
        mkResult (emitRoomUpdate room' ++ [Response (Ok (PRoomState (roomStatePayload room')))])
                 (setRooms (<[id := room']> (rooms st)) st)
  end.

Definition netplay_start (env : Env) (actorId : string) (p : Payload) (st : Server)
    : Result :=
  let id := toUpperCase (trim (p_roomId p)) in
  let game := trim (p_gameId p) in
  let name := orElse (trim (p_gameName p)) "Netplay" in
  let plat := orElse (trim (p_platform p)) "NES" in
  let emulator := toLowerCase (trim (p_emulatorId p)) in
  let hash := toLowerCase (trim (p_romHash p)) in
  let protocol := orElse (trim (p_protocolVersion p)) "1" in
  let core := orElse (trim (p_coreVersion p)) "unknown" in
  let rom := p_romBase64 p in
  match rooms st !! id with
  | None => fail st "Room not found"
  | Some room =>
      if negb (bool_decide (hostUserId room = actorId))
      then fail st "Only host can start netplay"
      else if negb (includes actorId (members room)) then fail st "Not a room member"
      else if falsy game || falsy rom || falsy emulator || falsy hash
      then fail st "gameId, romBase64, emulatorId and romHash are required"
      else
        let s := mkSession lockstep game name plat (Some emulator) (Some hash)
                           (Some protocol) (Some core) (Some rom) (now env) in
        let room' := setSession s room in
        mkResult (emitRoomUpdate room'
                    ++ sendEventToRoom room' (NetplayStart (roomId room') s (hostUserId room'))
                                       None
                    ++ [Response (Ok PStarted)])
                 (setRooms (<[id := room']> (rooms st)) st)
  end.

Definition stream_start (env : Env) (actorId : string) (p : Payload) (st : Server)
    : Result :=
  let id := toUpperCase (trim (p_roomId p)) in
  let game := trim (p_gameId p) in
  let name := orElse (trim (p_gameName p)) "Netplay" in
  let plat := orElse (trim (p_platform p)) "NES" in
  match rooms st !! id with
  | None => fail st "Room not found"
  | Some room =>
      if negb (bool_decide (hostUserId room = actorId))
      then fail st "Only host can start stream"
      else if negb (includes actorId (members room)) then fail st "Not a room member"
      else if falsy game then fail st "gameId is required"
      else if negb (bool_decide (length (players room) = 2))
      then fail st "Streaming mode requires exactly 2 members"
      else
        let s := mkSession stream game name plat None None None None None (now env) in
        let room' := setSession s room in
        mkResult (emitRoomUpdate room'
                    ++ sendEventToRoom room'
                         (StreamStart (roomId room') game name plat (hostUserId room')) None
                    ++ [Response (Ok PStarted)])
                 (setRooms (<[id := room']> (rooms st)) st)
  end.

Definition netplay_input (rid : option string) (actorId : string) (p : Payload)
    (st : Server) : Result :=
  let id := toUpperCase (trim (p_roomId p)) in
  match rooms st !! id with
  | None => fail st "Room not found"
  | Some room =>
      if negb (includes actorId (members room)) then fail st "Not a room member"
      else match session room with
      | None => fail st "Netplay not started"
      | Some s =>
          match mode s with
          | stream => fail st "Room is in streaming mode"
          | lockstep =>
              match p_frame p, p_state p with
              | Some frame, Some state =>
                  mkResult (sendEventToRoom room
                              (NetplayInput (roomId room) actorId frame state)
                              (Some actorId)
                            ++ replyIfRequested rid (Ok PDelivered)) st
              | _, _ => fail st "frame and state are required"
              end
          end
      end
  end.

Definition stream_signal (rid : option string) (actorId : string) (p : Payload)
    (st : Server) : Result :=
  let id := toUpperCase (trim (p_roomId p)) in
  let target := trim (p_targetUserId p) in
  match rooms st !! id with
  | None => fail st "Room not found"
  | Some room =>
      if negb (includes actorId (members room)) then fail st "Not a room member"
      else if falsy target || negb (includes target (members room))
      then fail st "Target is not in room"
      else match p_signal p with
      | None => fail st "signal payload is required"
      | Some signal =>
          mkResult (EventTo target (StreamSignal (roomId room) actorId signal)
                      :: replyIfRequested rid (Ok PDelivered)) st
      end
  end.

Definition stream_input (rid : option string) (actorId : string) (p : Payload)
    (st : Server) : Result :=
  let id := toUpperCase (trim (p_roomId p)) in
  match rooms st !! id with
  | None => fail st "Room not found"
  | Some room =>
      if negb (includes actorId (members room)) then fail st "Not a room member"
      else if bool_decide (actorId = hostUserId room)
      then fail st "Host should not send stream input"
      else match p_state p with
      | None => fail st "state is required"
      | Some state =>
          if negb (isStreamMode room) then fail st "Streaming mode is not active"
          else mkResult (EventTo (hostUserId room) (StreamInput (roomId room) actorId state)
                           :: replyIfRequested rid (Ok PDelivered)) st
      end
  end.

Definition room_pause (rid : option string) (actorId : string) (p : Payload)
    (st : Server) : Result :=
  let id := toUpperCase (trim (p_roomId p)) in
  match rooms st !! id with
  | None => fail st "Room not found"
  | Some room =>
      if negb (includes actorId (members room)) then fail st "Not a room member"
      else match session room with
      | None => fail st "Session is not active"
      | Some _ =>
          match p_paused p with
          | None => fail st "paused flag is required"
          | Some paused =>
              mkResult (sendEventToRoom room (RoomPause (roomId room) actorId paused)
                                        (Some actorId)
                        ++ replyIfRequested rid (Ok PDelivered)) st
          end
      end
  end.

Definition room_close (actorId : string) (p : Payload) (st : Server) : Result :=
  let id := toUpperCase (trim (p_roomId p)) in
  if falsy id then fail st "roomId is required"
  else match rooms st !! id with
  | None => mkResult [Response (Ok (PClosed false))] st
  | Some room =>
      if negb (includes actorId (members room)) then fail st "Not a room member"
      else if bool_decide (hostUserId room = actorId)
      then mkResult (((λ m, EventTo m (RoomClosed (roomId room))) <$>
                        filter (λ m, m ≠ actorId) (members room))
                     ++ [Response (Ok (PClosed true))])
                    (setRooms (delete (roomId room) (rooms st)) st)
      else
        let room3 := stripMember actorId room in
        mkResult (emitRoomUpdate room3 ++ [Response (Ok (PClosed true))])
                 (setRooms (<[id := room3]> (rooms st)) st)
  end.

Definition invite_send (env : Env) (actorId : string) (p : Payload) (st : Server)
    : Result :=
  let friendUserId := trim (p_friendUserId p) in
  let id := toUpperCase (trim (p_roomId p)) in
  let game := trim (p_gameId p) in
  if falsy friendUserId || falsy id || falsy game
  then fail st "friendUserId, roomId and gameId are required"
  else if negb (isOnline st friendUserId) then fail st "Friend is offline"
  else if negb (areFriends (users st) actorId friendUserId)
  then fail st "User is not in your friends list"
  else match rooms st !! id with
  | None => fail st "Room not found"
  | Some room =>
      if negb (bool_decide (hostUserId room = actorId))
      then fail st "Only host can send room invites"
      else if negb (includes actorId (members room)) then fail st "You are not in the room"
      else match getUserById (users st) actorId with
      | None => fail st "Sender not found"
      | Some (_, fromUser) =>
          let invite := mkInvite (uuid env) actorId friendUserId id game (now env) in
          mkResult [EventTo friendUserId
                      (InviteReceived (uuid env) actorId (displayName fromUser) id game);
                    Response (Ok (PInviteId (uuid env)))]
                   (setInvites (<[uuid env := invite]> (invites st)) st)
      end
  end.

Definition invite_respond (actorId : string) (p : Payload) (st : Server) : Result :=
  let id := trim (p_inviteId p) in
  let accept := p_accept p in
  match invites st !! id with
  | None => fail st "Invite not found"
  | Some invite =>
      if negb (bool_decide (toUserId invite = actorId))
      then fail st "Invite does not belong to user"
      else
        let st1 := setInvites (delete id (invites st)) st in
        if negb accept
        then mkResult [EventTo (fromUserId invite) (InviteDeclined id actorId);
                       Response (Ok PDeclined)] st1
        else match rooms st1 !! inviteRoomId invite with
        | None => fail st1 "Room no longer exists"
        | Some room =>
            if isStreamMode room && negb (includes actorId (members room))
               && bool_decide (2 <= length (members room))
            then fail st1 "Streaming room is full"
            else if locked room && negb (includes actorId (members room))
            then fail st1 "Room is locked"
            else
              let room' := acceptInto actorId room in
              mkResult (emitRoomUpdate room'
                          ++ [EventTo (fromUserId invite)
                                (InviteAccepted id actorId (roomId room'));
                              Response (Ok (PRoomId (roomId room')))])
                       (setRooms (<[inviteRoomId invite := room']> (rooms st1)) st1)
        end
  end.

(** ** The dispatcher *)

(** The body of [ws.on("message", ...)] after a successful [JSON.parse]. *)
Definition handle (env : Env) (ws : nat) (msg : IncomingMessage) (st : Server) : Result :=
  let p := payload msg in
  let type := msgType msg in
  if decide (type = "auth") then on_auth ws p st else
  match socketUser st !! ws with
  | None => fail st "Not authenticated"
  | Some actorId =>
      if falsy actorId then fail st "Not authenticated" else
      if decide (type = "friends:list") then friends_list st else
      if decide (type = "friends:add") then friends_add actorId p st else
      if decide (type = "room:create") then room_create env actorId p st else
      if decide (type = "room:join") then room_join actorId p st else
      if decide (type = "room:state") then room_state actorId p st else
      if decide (type = "room:chat:history") then room_chat_history actorId p st else
      if decide (type = "room:chat:send") then room_chat_send env actorId p st else
      if decide (type = "room:ready") then room_ready actorId p st else
      if decide (type = "room:lock") then room_lock actorId p st else
      if decide (type = "room:kick") then room_kick actorId p st else
      if decide (type = "room:transferHost") then room_transferHost actorId p st else
      if decide (type = "netplay:start") then netplay_start env actorId p st else
      if decide (type = "stream:start") then stream_start env actorId p st else
      if decide (type = "netplay:input") then netplay_input (requestId msg) actorId p st else
      if decide (type = "stream:signal") then stream_signal (requestId msg) actorId p st else
      if decide (type = "stream:input") then stream_input (requestId msg) actorId p st else
      if decide (type = "room:pause") then room_pause (requestId msg) actorId p st else
      if decide (type = "room:close") then room_close actorId p st else
      if decide (type = "invite:send") then invite_send env actorId p st else
      if decide (type = "invite:respond") then invite_respond actorId p st else
      fail st ("Unknown type: " +:+ type)
  end.

(** [ws.on("message", ...)]: [None] is a frame that [JSON.parse] rejects. *)
Definition on_message (env : Env) (ws : nat) (raw : option IncomingMessage) (st : Server)
    : Result :=
  match raw with
  | None => fail st "Malformed JSON"
  | Some msg => handle env ws msg st
  end.

(** [ws.on("close", ...)]: the registries after the socket is gone. *)
Definition on_close (ws : nat) (st : Server) : Server :=
  match socketUser st !! ws with
  | Some id =>
      let st' := dropSocketUser ws st in
      if falsy id then st' else removeUserFromRooms id st'
  | None => dropSocketUser ws st
  end.

(** One thing that happens to the server. *)
Inductive Input :=
| Received (env : Env) (ws : nat) (raw : option IncomingMessage)
| Closed (ws : nat).

Definition step (i : Input) (st : Server) : Server :=
  match i with
  | Received env ws raw => next (on_message env ws raw st)
  | Closed ws => on_close ws st
  end.

(** The states the server can be in: those a run from the start leads to. *)
Inductive reachable : Server → Prop :=
| reachable_start loaded : reachable (startServer loaded)
| reachable_step i st : reachable st → reachable (step i st).

(** ** The lockstep loop of the NES view ([App.tsx]) *)

Local Open Scope Z_scope.

Definition LOCKSTEP_INPUT_DELAY_FRAMES : Z := 3.

Module NesLoop.

(** [Controller.BUTTON_*] of jsnes *)
Inductive Button :=
| BUTTON_UP | BUTTON_DOWN | BUTTON_LEFT | BUTTON_RIGHT
| BUTTON_A | BUTTON_B | BUTTON_START | BUTTON_SELECT.

(** [bitToButton], with [INPUT_BIT_X = 1 << k] *)
Definition bitToButton : list (Z * Button) :=
  [(Z.shiftl 1 0, BUTTON_UP); (Z.shiftl 1 1, BUTTON_DOWN);
   (Z.shiftl 1 2, BUTTON_LEFT); (Z.shiftl 1 3, BUTTON_RIGHT);
   (Z.shiftl 1 4, BUTTON_A); (Z.shiftl 1 5, BUTTON_B);
   (Z.shiftl 1 6, BUTTON_START); (Z.shiftl 1 7, BUTTON_SELECT)].

(** The variables the effect closes over. *)
Record Engine := mkEngine {
  localPlayer : Z;
  localInputState : Z;
  previousLocalAppliedState : Z;
  previousRemoteAppliedState : Z;
  currentFrame : Z;
  plannedLocalFrame : Z;
  localStateByFrame : gmap Z Z;
  remoteStateByFrame : gmap Z Z;
  remoteStreamInputState : Z
}.

(** What the loop does to the emulator and to the network.  [Frame f] is a
    call of [nes.frame()] made while [currentFrame] is [f]. *)
Inductive Effect :=
| SendNetplayInput (frame state : Z)
| ButtonDown (player : Z) (button : Button)
| ButtonUp (player : Z) (button : Button)
| Frame (f : Z)
| RequestAnimationFrame.

Definition remotePlayer (isLockstepNetplay : bool) (e : Engine) : Z :=
  if isLockstepNetplay then (if decide (localPlayer e = 1) then 2 else 1) else 2.

(** The effects of [applyMaskToPlayer]; it returns [nextMask]. *)
Definition applyMaskToPlayer (player previousMask nextMask : Z) : list Effect :=
  flat_map (λ '(bit, button),
    let wasDown := negb (Z.land previousMask bit =? 0) in
    let isDown := negb (Z.land nextMask bit =? 0) in
    if Bool.eqb wasDown isDown then []
    else if isDown then [ButtonDown player button] else [ButtonUp player button])
    bitToButton.

(** The state when the effect has run its set-up for lockstep play: frames
    [0 .. DELAY-1] hold the empty mask and were sent. *)
Definition start (player : Z) : Engine :=
  mkEngine player 0 0 0 0 LOCKSTEP_INPUT_DELAY_FRAMES
           (<[2 := 0]> (<[1 := 0]> (<[0 := 0]> ∅))) ∅ 0.

(** The listener given to [onNetplayInput]. *)
Definition onNetplayInput (room localUserId : string)
    (payloadRoom payloadFrom : string) (frame state : Z) (e : Engine) : Engine :=
  if negb (bool_decide (payloadRoom = room)) then e
  else if bool_decide (payloadFrom = localUserId) then e
  else mkEngine (localPlayer e) (localInputState e) (previousLocalAppliedState e)
                (previousRemoteAppliedState e) (currentFrame e) (plannedLocalFrame e)
                (localStateByFrame e) (<[frame := state]> (remoteStateByFrame e))
                (remoteStreamInputState e).

(** [while (plannedLocalFrame <= currentFrame + DELAY) { ... }] *)
Fixpoint planLoop (fuel : nat) (e : Engine) : Engine * list Effect :=
  match fuel with
  | O => (e, [])
  | S k =>
      if plannedLocalFrame e <=? currentFrame e + LOCKSTEP_INPUT_DELAY_FRAMES then
        let e' := mkEngine (localPlayer e) (localInputState e)
                    (previousLocalAppliedState e) (previousRemoteAppliedState e)
                    (currentFrame e) (plannedLocalFrame e + 1)
                    (<[plannedLocalFrame e := localInputState e]> (localStateByFrame e))
                    (remoteStateByFrame e) (remoteStreamInputState e) in
        let '(e'', effects) := planLoop k e' in
        (e'', SendNetplayInput (plannedLocalFrame e) (localInputState e) :: effects)
      else (e, [])
  end.

(** The loop runs once per frame still to plan. *)
Definition plan (e : Engine) : Engine * list Effect :=
  planLoop (Z.to_nat (currentFrame e + LOCKSTEP_INPUT_DELAY_FRAMES + 1
                      - plannedLocalFrame e)) e.

(** [while (steps < 2) { ... }], [fuel] being [2 - steps] *)
Fixpoint advance (isLockstepNetplay : bool) (fuel : nat) (e : Engine)
    : Engine * list Effect :=
  match fuel with
  | O => (e, [])
  | S k =>
      match localStateByFrame e !! currentFrame e,
            remoteStateByFrame e !! currentFrame e with
      | Some localFrameState, Some remoteFrameState =>
          let e' := mkEngine (localPlayer e) (localInputState e)
                      localFrameState remoteFrameState
                      (currentFrame e + 1) (plannedLocalFrame e)
                      (localStateByFrame e) (remoteStateByFrame e)
                      (remoteStreamInputState e) in
          let '(e'', effects) := advance isLockstepNetplay k e' in
          (e'',
           applyMaskToPlayer (localPlayer e) (previousLocalAppliedState e)
                             localFrameState
           ++ applyMaskToPlayer (remotePlayer isLockstepNetplay e)
                                (previousRemoteAppliedState e) remoteFrameState
           ++ Frame (currentFrame e) :: effects)
      | _, _ => (e, [])
      end
  end.

(** [if (currentFrame % 120 === 0) { ... }] *)
Definition prune (e : Engine) : Engine :=
  if Z.rem (currentFrame e) 120 =? 0 then
    let minFrameToKeep := Z.max 0 (currentFrame e - 180) in
    let keep (m : gmap Z Z) := filter (λ kv, ¬ kv.1 < minFrameToKeep) m in
    mkEngine (localPlayer e) (localInputState e) (previousLocalAppliedState e)
             (previousRemoteAppliedState e) (currentFrame e) (plannedLocalFrame e)
             (keep (localStateByFrame e)) (keep (remoteStateByFrame e))
             (remoteStreamInputState e)
  else e.

(** The lockstep branch of [loop]. *)
Definition lockstepTick (e : Engine) : Engine * list Effect :=
  let '(e1, sent) := plan e in
  let '(e2, applied) := advance true 2 e1 in
  (prune e2, sent ++ applied).

(** [loop], one animation tick. *)
Definition loop (running paused isLockstepNetplay isStreamHost : bool) (e : Engine)
    : Engine * list Effect :=
  if negb running then (e, [])
  else if paused then (e, [RequestAnimationFrame])
  else if isLockstepNetplay then
    let '(e', effects) := lockstepTick e in (e', effects ++ [RequestAnimationFrame])
  else if isStreamHost then
    (mkEngine (localPlayer e) (localInputState e) (localInputState e)
              (remoteStreamInputState e) (currentFrame e) (plannedLocalFrame e)
              (localStateByFrame e) (remoteStateByFrame e) (remoteStreamInputState e),
     applyMaskToPlayer (localPlayer e) (previousLocalAppliedState e) (localInputState e)
     ++ applyMaskToPlayer (remotePlayer false e) (previousRemoteAppliedState e)
                          (remoteStreamInputState e)
     ++ [Frame (currentFrame e); RequestAnimationFrame])
  else (e, [Frame (currentFrame e); RequestAnimationFrame]).

End NesLoop.

(** ** The input loop of the SNES view ([applyStates]) *)

Module SnesView.

Record InputState := mkInput {
  up : bool; down : bool; left : bool; right : bool;
  a : bool; b : bool; start : bool; select : bool;
  x : bool; y : bool; l : bool; r : bool
}.

Definition createDefaultInput : InputState :=
  mkInput false false false false false false false false false false false false.

(** [(bits & (1 << k)) !== 0] *)
Definition hasBit (bits : Z) (k : Z) : bool := negb (Z.land bits (Z.shiftl 1 k) =? 0).

Definition bitsToInput (bits : Z) : InputState :=
  mkInput (hasBit bits 0) (hasBit bits 1) (hasBit bits 2) (hasBit bits 3)
          (hasBit bits 4) (hasBit bits 5) (hasBit bits 6) (hasBit bits 7)
          (hasBit bits 8) (hasBit bits 9) (hasBit bits 10) (hasBit bits 11).

Record Engine := mkEngine {
  localPlayer : Z;
  localInputState : Z;
  previousLocalAppliedState : Z;
  previousRemoteAppliedState : Z;
  currentFrame : Z;
  plannedLocalFrame : Z;
  localStateByFrame : gmap Z Z;
  remoteStateByFrame : gmap Z Z
}.

Inductive Effect :=
| SetInput (player1 player2 : InputState)
| RequestAnimationFrame.

(** The variables as the effect declares them. *)
Definition initial (player : Z) : Engine := mkEngine player 0 0 0 0 0 ∅ ∅.

(** [applyStates], one animation tick; [hasSession] is
    [sessionRef.current] being set. *)
Definition applyStates (hasSession paused isLockstep : bool) (e : Engine)
    : Engine * list Effect :=
  if negb hasSession then (e, [RequestAnimationFrame])
  else if paused then (e, [RequestAnimationFrame])
  else if isLockstep then
    let localStateForFrame :=
      match localStateByFrame e !! currentFrame e with
      | Some v => v
      | None => previousLocalAppliedState e
      end in
    let remoteStateForFrame :=
      match remoteStateByFrame e !! currentFrame e with
      | Some v => v
      | None => previousRemoteAppliedState e
      end in
    let player1State :=
      if decide (localPlayer e = 1) then localStateForFrame else remoteStateForFrame in
    let player2State :=
      if decide (localPlayer e = 1) then remoteStateForFrame else localStateForFrame in
    (mkEngine (localPlayer e) (localInputState e) localStateForFrame remoteStateForFrame
              (currentFrame e + 1) (plannedLocalFrame e)
              (localStateByFrame e) (remoteStateByFrame e),
     [SetInput (bitsToInput player1State) (bitsToInput player2State);
      RequestAnimationFrame])
  else (e, [SetInput (bitsToInput (localInputState e)) createDefaultInput;
            RequestAnimationFrame]).

End SnesView.

Local Close Scope Z_scope.

(** ** How the server changes a room *)

(** The change one input makes to one room object, with what the handler
    has checked before making it. *)
Inductive roomStep : RoomRecord → RoomRecord → Prop :=
| step_join actorId asSpectator room :
    roomStep room (joinAs actorId asSpectator room)
| step_chat message room :
    roomStep room (appendChat message room)
| step_ready actorId ready room :
    actorId ∈ members room → actorId ∉ spectators room →
    roomStep room (toggleReady actorId ready room)
| step_lock flag room :
    roomStep room (setLocked flag room)
| step_strip id room :
    hostUserId room ≠ id → id ∈ members room →
    roomStep room (stripMember id room)
| step_host target room :
    target ∈ members room →
    roomStep room (setHostUserId target room)
| step_session s room :
    roomStep room (setSession s room)
| step_accept actorId room :
    roomStep room (acceptInto actorId room)
| step_remove id room room' :
    removeUserFromRoom id room = Some room' →
    roomStep room room'.

(** The room object [room:create] builds. *)
Definition created (room : RoomRecord) : Prop :=
  ∃ id host game, room = mkRoom id host game [host] [] false [] [] None.

(** What one input may do to the room registry: every room found afterwards
    was there unchanged, or is the result of a [roomStep], or was created
    under its id. *)
Definition roomChange (before after : gmap string RoomRecord) : Prop :=
  ∀ k room', after !! k = Some room' →
    before !! k = Some room'
    ∨ (∃ room, before !! k = Some room ∧ roomStep room room')
    ∨ (created room' ∧ roomId room' = k).

(** A run of the server. *)
Definition run (inputs : list Input) (st : Server) : Server :=
  foldl (λ s i, step i s) st inputs.

(** The responses among the messages a handler sends, and the first of
    them. *)
Definition responses (l : list Out) : list Reply :=
  omap (λ o, match o with Response x => Some x | EventTo _ _ => None end) l.

Definition reply (r : Result) : option Reply := head (responses (outs r)).

Definition isEvent (o : Out) : Prop :=
  match o with EventTo _ _ => True | Response _ => False end.

(** The invariants of the room table. *)
Definition hostIsMember (st : Server) : Prop :=
  map_Forall (λ _ room, hostUserId room ∈ members room) (rooms st).

Definition readyAreMembers (st : Server) : Prop :=
  map_Forall (λ _ room, readyByUserId room ⊆ members room) (rooms st).

Definition noReadySpectator (st : Server) : Prop :=
  map_Forall (λ _ room, ∀ id, id ∈ spectators room → id ∉ readyByUserId room)
             (rooms st).

Definition chatBounded (st : Server) : Prop :=
  map_Forall (λ _ room, (length (chat room) ≤ 200)%nat) (rooms st).

Definition userIds (st : Server) : list string := userId <$> users st.

(** The directory is in order: ids are distinct and every socket is bound
    to a user of the directory. *)
Definition directoryOk (st : Server) : Prop :=
  NoDup (userIds st)
  ∧ ∀ ws id, socketUser st !! ws = Some id → id ∈ userIds st.

(** What one request may do to the ids of the directory and to the socket
    table. *)
Definition directoryChange (st st' : Server) : Prop :=
  (userIds st' = userIds st
   ∨ ∃ id, (id ∉ userIds st) ∧ userIds st' = userIds st ++ [id])
  ∧ ∀ ws id, socketUser st' !! ws = Some id →
             socketUser st !! ws = Some id ∨ id ∈ userIds st'.


(** ** Requests and runs used in the examples *)

Definition request (type : string) (p : Payload) : option IncomingMessage :=
  Some (mkMessage type (Some "r") p).

Definition auth (id name code : string) : option IncomingMessage :=
  request "auth"
    (mkPayload id name code "" "" "" false "" false false "" "" "" "" "" "" "" ""
               None None None None "" "" false).

(** A payload that names a room, with the flags and texts the room
    requests read. *)
Definition onRoom (room : string) (spectator ready : bool) (game text : string)
    : Payload :=
  mkPayload "" "" "" "" game room spectator text ready false "" "" "" "" "" "" "" ""
            None None None None "" "" false.

Definition friendsAdd (code : string) : Payload :=
  mkPayload "" "" code "" "" "" false "" false false "" "" "" "" "" "" "" ""
            None None None None "" "" false.

Definition inviteSend (friend room game : string) : Payload :=
  mkPayload "" "" "" "" game room false "" false false "" "" "" "" "" "" "" ""
            None None None None friend "" false.

Definition inviteRespond (invite : string) (accept : bool) : Payload :=
  mkPayload "" "" "" "" "" "" false "" false false "" "" "" "" "" "" "" ""
            None None None None "" invite accept.

Definition env1 : Env :=
  mkEnv "abcd1234-5678-4abc-8def-000000000001" "2024-01-01T00:00:00.000Z".
Definition env2 : Env :=
  mkEnv "ffff0000-5678-4abc-8def-000000000002" "2024-01-01T00:00:01.000Z".

(** Two users authenticate, the first creates a room, the second joins it
    and reports ready. *)
Definition lobby : list Input :=
  [Received env1 1 (auth "u1" "Ann" "AAAA1111");
   Received env1 2 (auth "u2" "Bob" "BBBB2222");
   Received env1 1 (request "room:create" (onRoom "" false false "smb" ""));
   Received env1 2 (request "room:join" (onRoom "abcd1234" false false "" ""));
   Received env1 2 (request "room:ready" (onRoom "abcd1234" false true "" ""))].

Definition lobbyState : Server := run lobby (startServer []).

(** The room of [lobbyState]. *)
Definition lobbyRoom : RoomRecord :=
  mkRoom "ABCD1234" "u1" "smb" ["u1"; "u2"] [] false ["u2"] [] None.

(** A chat message of 450 characters, sent with two leading spaces. *)
Definition longText : string := String.concat "" (replicate 45 "0123456789").
Definition chatting : Payload := onRoom "abcd1234" false false "" ("  " +:+ longText).

(** The second user, a ready member, asks to join again as a spectator. *)
Definition rejoinAsSpectator : Input :=
  Received env1 2 (request "room:join" (onRoom "abcd1234" true false "" "")).

(** The first three users; the host befriends the third and starts a
    stream with the second, who then leaves; the host invites the third. *)
Definition streamRun : list Input :=
  lobby ++
  [Received env1 3 (auth "u3" "Cyd" "CCCC3333");
   Received env1 1 (request "friends:add" (friendsAdd "cccc3333"));
   Received env1 1 (request "stream:start" (onRoom "abcd1234" false false "smb" ""));
   Received env1 2 (request "room:close" (onRoom "abcd1234" false false "" ""));
   Received env2 1 (request "invite:send" (inviteSend "u3" "abcd1234" "smb"))].

Definition streamState : Server := run streamRun (startServer []).

(** The room of [streamState]: a stream session and the host alone. *)
Definition streamRoom : RoomRecord :=
  mkRoom "ABCD1234" "u1" "smb" ["u1"] [] false [] []
         (Some (mkSession stream "smb" "Netplay" "NES" None None None None None
                          "2024-01-01T00:00:00.000Z")).

(** The same without the stream: three users, the host invites the third
    into the room the first two are in. *)
Definition inviteRun : list Input :=
  lobby ++
  [Received env1 3 (auth "u3" "Cyd" "CCCC3333");
   Received env1 1 (request "friends:add" (friendsAdd "cccc3333"));
   Received env2 1 (request "invite:send" (inviteSend "u3" "abcd1234" "smb"))].

Definition inviteState : Server := run inviteRun (startServer []).

(** The third user asks to join as a player, and accepts the invite. *)
Definition joinAsPlayer : Payload := onRoom "abcd1234" false false "" "".
Definition acceptInvite : Payload := inviteRespond (uuid env2) true.

(** ** Notions the statements use *)

(** The request types, other than [room:close], whose handler looks the
    room up under [payload.roomId] before anything else. *)
Definition roomRequests : list string :=
  ["room:join"; "room:state"; "room:chat:history"; "room:chat:send"; "room:ready";
   "room:lock"; "room:kick"; "room:transferHost"; "room:pause";
   "netplay:start"; "stream:start"; "netplay:input"; "stream:signal"; "stream:input"].

(** The error a handler answers with, [None] when it answers [ok]. *)
Definition refusal (r : Result) : option string :=
  match reply r with
  | Some (Fail error) => Some error
  | _ => None
  end.

(** ** More notions about rooms *)

(** The lists of a room are in order: each names a user once, and the
    spectators are members. *)
Definition listsInOrder (room : RoomRecord) : Prop :=
  NoDup (members room) ∧ NoDup (spectators room) ∧ NoDup (readyByUserId room)
  ∧ spectators room ⊆ members room.

(** The events among [l] that are addressed to [user]. *)
Definition eventsTo (user : string) (l : list Out) : list Event :=
  omap (λ o, match o with
             | EventTo u e => if decide (u = user) then Some e else None
             | Response _ => None
             end) l.

(** A payload that names a room and a target user. *)
Definition targeting (room target : string) : Payload :=
  mkPayload "" "" "" "" "" room false "" false false target "" "" "" "" "" "" ""
            None None None None "" "" false.

(** A payload that names a room and carries the [locked] flag. *)
Definition locking (room : string) (flag : bool) : Payload :=
  mkPayload "" "" "" "" "" room false "" false flag "" "" "" "" "" "" "" ""
            None None None None "" "" false.

(** The two socket tables agree: a socket bound to a user is in the set of
    that user, and no set is kept empty. *)
Definition socketsInOrder (st : Server) : Prop :=
  (∀ ws id, socketUser st !! ws = Some id →
            ∃ sockets, socketsByUserId st !! id = Some sockets ∧ ws ∈ sockets)
  ∧ (∀ id sockets, socketsByUserId st !! id = Some sockets → sockets ≠ ∅).

(** A payload for [netplay:start]. *)
Definition startingNetplay (room game rom emulator hash : string) : Payload :=
  mkPayload "" "" "" "" game room false "" false false "" "" "" emulator hash "" "" rom
            None None None None "" "" false.

(** The request types whose handler only answers or relays. *)
Definition relayRequests : list string :=
  ["friends:list"; "room:state"; "room:chat:history";
   "netplay:input"; "stream:signal"; "stream:input"; "room:pause"].

(** A payload for [netplay:input] and [stream:input]. *)
Definition inputOf (room : string) (frame state : Z) : Payload :=
  mkPayload "" "" "" "" "" room false "" false false "" "" "" "" "" "" "" ""
            (Some frame) (Some state) None None "" "" false.

(** A payload for [room:pause]. *)
Definition pausing (room : string) (paused : bool) : Payload :=
  mkPayload "" "" "" "" "" room false "" false false "" "" "" "" "" "" "" ""
            None None None (Some paused) "" "" false.

(** ** The NES view outside [loop]: controllers, keys and runs *)

Local Open Scope Z_scope.

#[global] Instance Button_eq_dec : EqDecision NesLoop.Button.
Proof. solve_decision. Defined.

Module NesPad.

(** What the emulator holds for the buttons of each player: [nes.buttonDown]
    presses a button, [nes.buttonUp] releases it, nothing else touches it. *)
Definition Pad := Z → NesLoop.Button → bool.

Definition released : Pad := λ _ _, false.

Definition perform (pad : Pad) (e : NesLoop.Effect) : Pad :=
  match e with
  | NesLoop.ButtonDown p b => λ q c, if decide (q = p ∧ c = b) then true else pad q c
  | NesLoop.ButtonUp p b => λ q c, if decide (q = p ∧ c = b) then false else pad q c
  | _ => pad
  end.

Definition performAll (pad : Pad) (effects : list NesLoop.Effect) : Pad :=
  foldl perform pad effects.

(** The pad of [player] holds exactly the buttons of [mask]. *)
Definition shows (pad : Pad) (player mask : Z) : Prop :=
  ∀ bit button, (bit, button) ∈ NesLoop.bitToButton →
    pad player button = negb (Z.land mask bit =? 0).

(** What one entry of [bitToButton] makes [applyMaskToPlayer] call. *)
Definition change (player previous nextMask : Z)
    : Z * NesLoop.Button → list NesLoop.Effect :=
  λ '(bit, button),
    let wasDown := negb (Z.land previous bit =? 0) in
    let isDown := negb (Z.land nextMask bit =? 0) in
    if Bool.eqb wasDown isDown then []
    else if isDown then [NesLoop.ButtonDown player button]
         else [NesLoop.ButtonUp player button].

End NesPad.

(** [x | 0]: a number as the bit operators of JS see it. *)
Definition toInt32 (z : Z) : Z := (z + 2 ^ 31) mod 2 ^ 32 - 2 ^ 31.

Module NesKeys.

(** [props.controls]: the key code bound to each button. *)
Record Controls := mkControls {
  c_up : string; c_down : string; c_left : string; c_right : string;
  c_a : string; c_b : string; c_start : string; c_select : string
}.

(** The entries of the object literal [keyToBit], in the order written. *)
Definition keyToBitEntries (c : Controls) : list (string * Z) :=
  [(c_up c, Z.shiftl 1 0); (c_down c, Z.shiftl 1 1); (c_left c, Z.shiftl 1 2);
   (c_right c, Z.shiftl 1 3); (c_a c, Z.shiftl 1 4); (c_b c, Z.shiftl 1 5);
   (c_start c, Z.shiftl 1 6); (c_select c, Z.shiftl 1 7)].

(** [keyToBit[code]]: of two entries with one key the later one stays. *)
Definition keyToBit (c : Controls) (code : string) : option Z :=
  snd <$> (snd <$> list_find (λ kv, kv.1 = code) (reverse (keyToBitEntries c))).

Definition setLocalInputState (v : Z) (e : NesLoop.Engine) : NesLoop.Engine :=
  NesLoop.mkEngine (NesLoop.localPlayer e) v (NesLoop.previousLocalAppliedState e)
    (NesLoop.previousRemoteAppliedState e) (NesLoop.currentFrame e)
    (NesLoop.plannedLocalFrame e) (NesLoop.localStateByFrame e)
    (NesLoop.remoteStateByFrame e) (NesLoop.remoteStreamInputState e).

(** [down] in lockstep play or as stream host.  [claimed] stands for the
    keys taken before the menu check (Escape, the save and load keys),
    [hotkey] for the replay hotkey. *)
Definition down (paused claimed menuOpen hotkey : bool) (c : Controls) (code : string)
    (e : NesLoop.Engine) : NesLoop.Engine :=
  if paused then e
  else if claimed then e
  else if menuOpen then e
  else if hotkey then e
  else match keyToBit c code with
  | Some bit => setLocalInputState (toInt32 (Z.lor (NesLoop.localInputState e) bit)) e
  | None => e
  end.

(** [up] in lockstep play or as stream host. *)
Definition up (paused : bool) (c : Controls) (code : string) (e : NesLoop.Engine)
    : NesLoop.Engine :=
  if paused then e
  else match keyToBit c code with
  | Some bit =>
      setLocalInputState (toInt32 (Z.land (NesLoop.localInputState e)
                                          (toInt32 (Z.lnot bit)))) e
  | None => e
  end.

End NesKeys.

Module NesRun.

(** What happens to the view during lockstep play. *)
Inductive Event :=
| KeyDown (paused claimed menuOpen hotkey : bool) (code : string)
| KeyUp (paused : bool) (code : string)
| Tick (paused : bool)
| NetplayInput (payloadRoom payloadFrom : string) (frame state : Z).

(** The calls the set-up makes before the first tick. *)
Definition setup : list NesLoop.Effect :=
  [NesLoop.SendNetplayInput 0 0; NesLoop.SendNetplayInput 1 0;
   NesLoop.SendNetplayInput 2 0].

Section Run.
Variable controls : NesKeys.Controls.
Variables room localUserId : string.

Definition step (ev : Event) (e : NesLoop.Engine) : NesLoop.Engine * list NesLoop.Effect :=
  match ev with
  | KeyDown paused claimed menuOpen hotkey code =>
      (NesKeys.down paused claimed menuOpen hotkey controls code e, [])
  | KeyUp paused code => (NesKeys.up paused controls code e, [])
  | Tick paused => NesLoop.loop true paused true false e
  | NetplayInput payloadRoom payloadFrom frame state =>
      (NesLoop.onNetplayInput room localUserId payloadRoom payloadFrom frame state e, [])
  end.

Fixpoint run (evs : list Event) (e : NesLoop.Engine)
    : NesLoop.Engine * list NesLoop.Effect :=
  match evs with
  | [] => (e, [])
  | ev :: rest =>
      let '(e1, effects1) := step ev e in
      let '(e2, effects2) := run rest e1 in
      (e2, effects1 ++ effects2)
  end.

End Run.

(** The frames sent and the frames stepped, in the order of the calls. *)
Definition sentFrames (effects : list NesLoop.Effect) : list Z :=
  omap (λ x, match x with NesLoop.SendNetplayInput f _ => Some f | _ => None end) effects.

Definition steppedFrames (effects : list NesLoop.Effect) : list Z :=
  omap (λ x, match x with NesLoop.Frame f => Some f | _ => None end) effects.

(** The buffers are in order for the frame counter: the planned frame is
    two to four frames ahead, and every frame from the current one up to
    the planned one has its local mask. *)
Definition inOrder (e : NesLoop.Engine) : Prop :=
  0 ≤ NesLoop.currentFrame e
  ∧ NesLoop.currentFrame e + 2 ≤ NesLoop.plannedLocalFrame e ≤ NesLoop.currentFrame e + 4
  ∧ ∀ f, NesLoop.currentFrame e ≤ f < NesLoop.plannedLocalFrame e →
         is_Some (NesLoop.localStateByFrame e !! f).

(** The emulator's pads hold what the loop last applied for each player. *)
Definition padShows (pad : NesPad.Pad) (e : NesLoop.Engine) : Prop :=
  NesPad.shows pad (NesLoop.localPlayer e) (NesLoop.previousLocalAppliedState e)
  ∧ NesPad.shows pad (NesLoop.remotePlayer true e) (NesLoop.previousRemoteAppliedState e).

End NesRun.

Local Close Scope Z_scope.

(** ** The SNES view outside [applyStates]: keys and inputs from the network *)

Local Open Scope Z_scope.

Module SnesKeys.

(** The entries of [keyToBit]. *)
Definition keyToBitEntries : list (string * Z) :=
  [("ArrowUp", Z.shiftl 1 0); ("KeyW", Z.shiftl 1 0);
   ("ArrowDown", Z.shiftl 1 1); ("KeyS", Z.shiftl 1 1);
   ("ArrowLeft", Z.shiftl 1 2); ("KeyA", Z.shiftl 1 2);
   ("ArrowRight", Z.shiftl 1 3); ("KeyD", Z.shiftl 1 3);
   ("KeyK", Z.shiftl 1 4); ("KeyJ", Z.shiftl 1 5);
   ("Enter", Z.shiftl 1 6); ("ShiftRight", Z.shiftl 1 7); ("Tab", Z.shiftl 1 7);
   ("KeyI", Z.shiftl 1 8); ("KeyU", Z.shiftl 1 9);
   ("KeyQ", Z.shiftl 1 10); ("KeyE", Z.shiftl 1 11)].

Definition keyToBit (code : string) : option Z :=
  snd <$> (snd <$> list_find (λ kv, kv.1 = code) keyToBitEntries).

(** The end of both key handlers, once the mask has changed to [v]: in
    lockstep play the mask is stored under a frame and sent.  The second
    component is the call of [sendNetplayInput], if any. *)
Definition record (isLockstep : bool) (v : Z) (e : SnesView.Engine)
    : SnesView.Engine * option (Z * Z) :=
  if isLockstep then
    let planned := Z.max (SnesView.plannedLocalFrame e)
                         (SnesView.currentFrame e + LOCKSTEP_INPUT_DELAY_FRAMES) in
    (SnesView.mkEngine (SnesView.localPlayer e) v (SnesView.previousLocalAppliedState e)
       (SnesView.previousRemoteAppliedState e) (SnesView.currentFrame e) planned
       (<[planned := v]> (SnesView.localStateByFrame e)) (SnesView.remoteStateByFrame e),
     Some (planned, v))
  else
    (SnesView.mkEngine (SnesView.localPlayer e) v (SnesView.previousLocalAppliedState e)
       (SnesView.previousRemoteAppliedState e) (SnesView.currentFrame e)
       (SnesView.plannedLocalFrame e) (SnesView.localStateByFrame e)
       (SnesView.remoteStateByFrame e),
     None).

(** [onKeyDown]; [claimed] stands for Escape, F5 and F9. *)
Definition onKeyDown (paused claimed menuOpen isLockstep : bool) (code : string)
    (e : SnesView.Engine) : SnesView.Engine * option (Z * Z) :=
  if paused then (e, None)
  else if claimed then (e, None)
  else if menuOpen then (e, None)
  else match keyToBit code with
  | None => (e, None)
  | Some bit =>
      if negb (Z.land (SnesView.localInputState e) bit =? 0) then (e, None)
      else record isLockstep (toInt32 (Z.lor (SnesView.localInputState e) bit)) e
  end.

(** [onKeyUp] *)
Definition onKeyUp (paused isLockstep : bool) (code : string) (e : SnesView.Engine)
    : SnesView.Engine * option (Z * Z) :=
  if paused then (e, None)
  else match keyToBit code with
  | None => (e, None)
  | Some bit =>
      if Z.land (SnesView.localInputState e) bit =? 0 then (e, None)
      else record isLockstep
             (toInt32 (Z.land (SnesView.localInputState e) (toInt32 (Z.lnot bit)))) e
  end.

(** [onBlur] *)
Definition onBlur (e : SnesView.Engine) : SnesView.Engine :=
  SnesView.mkEngine (SnesView.localPlayer e) 0 (SnesView.previousLocalAppliedState e)
    (SnesView.previousRemoteAppliedState e) (SnesView.currentFrame e)
    (SnesView.plannedLocalFrame e) (SnesView.localStateByFrame e)
    (SnesView.remoteStateByFrame e).

End SnesKeys.

Local Close Scope Z_scope.

(** ** The NES session of the emulator registry ([NesEmulatorSession]) *)

Module NesSession.

(** The keys of the session's [inputState] and [previousApplied]. *)
Inductive Key := K_up | K_down | K_left | K_right | K_a | K_b | K_start | K_select.

#[global] Instance Key_eq_dec : EqDecision Key.
Proof. solve_decision. Defined.

Record Keys := mkKeys {
  k_up : bool; k_down : bool; k_left : bool; k_right : bool;
  k_a : bool; k_b : bool; k_start : bool; k_select : bool
}.

(** [state[key]] and [state[key] = v] *)
Definition get (k : Key) (s : Keys) : bool :=
  match k with
  | K_up => k_up s | K_down => k_down s | K_left => k_left s | K_right => k_right s
  | K_a => k_a s | K_b => k_b s | K_start => k_start s | K_select => k_select s
  end.

Definition set (k : Key) (v : bool) (s : Keys) : Keys :=
  match k with
  | K_up => mkKeys v (k_down s) (k_left s) (k_right s) (k_a s) (k_b s) (k_start s) (k_select s)
  | K_down => mkKeys (k_up s) v (k_left s) (k_right s) (k_a s) (k_b s) (k_start s) (k_select s)
  | K_left => mkKeys (k_up s) (k_down s) v (k_right s) (k_a s) (k_b s) (k_start s) (k_select s)
  | K_right => mkKeys (k_up s) (k_down s) (k_left s) v (k_a s) (k_b s) (k_start s) (k_select s)
  | K_a => mkKeys (k_up s) (k_down s) (k_left s) (k_right s) v (k_b s) (k_start s) (k_select s)
  | K_b => mkKeys (k_up s) (k_down s) (k_left s) (k_right s) (k_a s) v (k_start s) (k_select s)
  | K_start => mkKeys (k_up s) (k_down s) (k_left s) (k_right s) (k_a s) (k_b s) v (k_select s)
  | K_select => mkKeys (k_up s) (k_down s) (k_left s) (k_right s) (k_a s) (k_b s) (k_start s) v
  end.

Definition buttonOrder : list (Key * NesLoop.Button) :=
  [(K_up, NesLoop.BUTTON_UP); (K_down, NesLoop.BUTTON_DOWN);
   (K_left, NesLoop.BUTTON_LEFT); (K_right, NesLoop.BUTTON_RIGHT);
   (K_a, NesLoop.BUTTON_A); (K_b, NesLoop.BUTTON_B);
   (K_start, NesLoop.BUTTON_START); (K_select, NesLoop.BUTTON_SELECT)].

(** The fields of the session the input code uses; [mounted] is [this.nes]
    being set. *)
Record Session := mkSession {
  mounted : bool;
  inputState : Keys;
  previousApplied : Keys
}.

(** A session as constructed. *)
Definition fresh : Session :=
  mkSession false (mkKeys false false false false false false false false)
            (mkKeys false false false false false false false false).

(** [setInput(p1)] *)
Definition setInput (p1 : SnesView.InputState) (s : Session) : Session :=
  mkSession (mounted s)
    (mkKeys (SnesView.up p1) (SnesView.down p1) (SnesView.left p1) (SnesView.right p1)
            (SnesView.a p1) (SnesView.b p1) (SnesView.start p1) (SnesView.select p1))
    (previousApplied s).

(** One round of the loop of [applyInput]. *)
Definition applyMapping (input : Keys) (acc : Keys * list NesLoop.Effect)
    (mapping : Key * NesLoop.Button) : Keys * list NesLoop.Effect :=
  let nextPressed := get mapping.1 input in
  let prevPressed := get mapping.1 acc.1 in
  if Bool.eqb nextPressed prevPressed then acc
  else (set mapping.1 nextPressed acc.1,
        acc.2 ++ [if nextPressed then NesLoop.ButtonDown 1 mapping.2
                  else NesLoop.ButtonUp 1 mapping.2]).

(** [applyInput()] *)
Definition applyInput (s : Session) : Session * list NesLoop.Effect :=
  if negb (mounted s) then (s, [])
  else
    let r := foldl (applyMapping (inputState s)) (previousApplied s, []) buttonOrder in
    (mkSession (mounted s) (inputState s) r.1, r.2).

(** The pad of player 1 holds exactly the keys of [keys]. *)
Definition shows (pad : NesPad.Pad) (keys : Keys) : Prop :=
  ∀ key button, (key, button) ∈ buttonOrder → pad 1%Z button = get key keys.

End NesSession.

(** ** ROM bytes and binary strings ([bytesToBinaryString], [b64ToBytes]) *)

Module Buffer.

(** The size of the slices [bytesToBinaryString] takes. *)
Definition CHUNK : nat := Z.to_nat 0x8000.

(** The [for] loop of [bytesToBinaryString]: [i] is its counter, [out] the
    string so far; [String.fromCharCode(...slice)] has one character for
    each byte of the slice.  [fuel] bounds the number of rounds. *)
Fixpoint bytesLoop (fuel i : nat) (bytes : list Byte.byte) (out : string) : string :=
  match fuel with
  | O => out
  | S k =>
      if (i <? length bytes)%nat
      then bytesLoop k (i + CHUNK) bytes
             (out +:+ string_of_list_byte (take CHUNK (drop i bytes)))
      else out
  end.

(** Every round moves the counter on, so as many rounds as bytes are
    enough. *)
Definition bytesToBinaryString (bytes : list Byte.byte) : string :=
  bytesLoop (length bytes) 0 bytes "".

(** [binary.charCodeAt(i)], for a string of char codes below 256 *)
Definition charCodeAt (binary : string) (i : nat) : option Byte.byte :=
  byte_of_ascii <$> String.get i binary.

(** The [for] loop of [b64ToBytes] and [fromBase64], after [atob]:
    [bytes[i] = binary.charCodeAt(i)]. *)
Fixpoint fillLoop (fuel i : nat) (binary : string) (bytes : list Byte.byte)
    : list Byte.byte :=
  match fuel with
  | O => bytes
  | S k =>
      if (i <? String.length binary)%nat
      then fillLoop k (i + 1) binary
             (<[i := default Byte.x00 (charCodeAt binary i)]> bytes)
      else bytes
  end.

(** [new Uint8Array(binary.length)], then the loop *)
Definition binaryToBytes (binary : string) : list Byte.byte :=
  fillLoop (String.length binary) 0 binary (replicate (String.length binary) Byte.x00).

End Buffer.

(** ** The pending requests of the client ([SocialClient]) *)

Module SocialPending.

(** How the promise of a request ends. *)
Inductive Outcome :=
| Resolved
| Rejected (error : string).

(** What touches the map [pending]: a call of [request] (after [connect]),
    a response read by [onmessage], the timer of a request, the socket
    closing, and [close()]. *)
Inductive Event :=
| Request (requestId : string)
| Response (requestId : string) (ok : bool) (error : string)
| Timeout (requestId : string)
| SocketClosed
| Close.

(** [const entry = pending.get(id); if (entry) { pending.delete(id); ... }]:
    the keys of the map in insertion order, and the callback called. *)
Definition settle (requestId : string) (outcome : Outcome) (pending : list string)
    : list string * list (string * Outcome) :=
  if includes requestId pending
  then (without requestId pending, [(requestId, outcome)])
  else (pending, []).

(** [rejectAllPending(error)] *)
Definition rejectAllPending (error : string) (pending : list string)
    : list string * list (string * Outcome) :=
  ([], (λ requestId, (requestId, Rejected error)) <$> pending).

Definition step (ev : Event) (pending : list string)
    : list string * list (string * Outcome) :=
  match ev with
  | Request requestId => (pushUnique requestId pending, [])
  | Response requestId ok error =>
      settle requestId (if ok then Resolved else Rejected (orElse error "Request failed"))
             pending
  | Timeout requestId => settle requestId (Rejected "Signaling timeout") pending
  | SocketClosed => rejectAllPending "Signaling connection closed" pending
  | Close => rejectAllPending "Connection closed" pending
  end.

(** The map and the callbacks called, after a sequence of events on a new
    client. *)
Definition run (evs : list Event) : list string * list (string * Outcome) :=
  foldl (λ acc ev, let r := step ev acc.1 in (r.1, acc.2 ++ r.2)) ([], []) evs.

(** The request ids a sequence of events issues. *)
Definition requested (evs : list Event) : list string :=
  omap (λ ev, match ev with Request requestId => Some requestId | _ => None end) evs.

End SocialPending.

(** ** Notions and runs of the revised statements *)

(** The capacity rule of [stream:start] in the words of the specification:
    the room has exactly two members that are not spectators. *)
Definition twoActivePlayers (room : RoomRecord) : Prop :=
  ∃ a b, a ≠ b ∧ ∀ x, (x ∈ members room ∧ x ∉ spectators room) ↔ (x = a ∨ x = b).

(** [push]: what [if (!arr.includes(x)) arr.push(x)] leaves in the array. *)
Definition withFriend (x : string) (l : list string) : list string :=
  if decide (x ∈ l) then l else l ++ [x].

(** A payload for [auth]. *)
Definition authenticating (id name code avatar : string) : Payload :=
  mkPayload id name code avatar "" "" false "" false false "" "" "" "" "" "" "" ""
            None None None None "" "" false.

(** The lobby with a third user watching: the third user authenticates and
    joins the room as a spectator. *)
Definition watchedLobby : list Input :=
  lobby ++
  [Received env1 3 (auth "u3" "Cyd" "CCCC3333");
   Received env1 3 (request "room:join" (onRoom "abcd1234" true false "" ""))].

Definition watchedState : Server := run watchedLobby (startServer []).

Definition watchedRoom : RoomRecord :=
  mkRoom "ABCD1234" "u1" "smb" ["u1"; "u2"; "u3"] ["u3"] false ["u2"] [] None.

(** ** Lists and strings *)

Lemma includes_true x l : includes x l = true ↔ x ∈ l.
Proof. unfold includes. apply bool_decide_eq_true. Qed.

Lemma includes_false x l : includes x l = false ↔ x ∉ l.
Proof. unfold includes. apply bool_decide_eq_false. Qed.

Lemma elem_of_pushUnique y x l : y ∈ pushUnique x l ↔ y = x ∨ y ∈ l.
Proof.
  unfold pushUnique. destruct (includes x l) eqn:E.
  - apply includes_true in E. split; [tauto | intros [-> | ?]; done].
  - rewrite elem_of_app, list_elem_of_singleton. tauto.
Qed.

Lemma elem_of_without y x l : y ∈ without x l ↔ y ≠ x ∧ y ∈ l.
Proof. unfold without. by rewrite list_elem_of_filter. Qed.

Lemma length_sliceLast {A} n (l : list A) : (length (sliceLast n l) ≤ n)%nat.
Proof. unfold sliceLast. rewrite length_drop. lia. Qed.

Lemma length_sliceTo n s : String.length (sliceTo n s) = min n (String.length s).
Proof.
  revert s. induction n as [| n IH]; intros [| c s]; simpl; try done.
  by rewrite IH.
Qed.

Lemma sliceTo_short n s : (String.length s ≤ n)%nat → sliceTo n s = s.
Proof.
  revert s. induction n as [| n IH]; intros [| c s]; simpl; try done; try lia.
  intros H. rewrite IH; [done | lia].
Qed.

(** [sliceTo n s] is the beginning of [s]. *)
Lemma sliceTo_prefix n s : String.prefix (sliceTo n s) s = true.
Proof.
  revert s. induction n as [| n IH]; intros [| c s]; simpl; try done.
  destruct (Ascii.ascii_dec c c); [apply IH | done].
Qed.

(** ** The shape of a step *)

Ltac unbool :=
  repeat match goal with
  | H : negb _ = false |- _ => apply negb_false_iff in H
  | H : negb _ = true |- _ => apply negb_true_iff in H
  | H : _ || _ = false |- _ => apply orb_false_iff in H as [? ?]
  | H : _ && _ = true |- _ => apply andb_true_iff in H as [? ?]
  | H : bool_decide _ = true |- _ => apply bool_decide_eq_true in H
  | H : bool_decide _ = false |- _ => apply bool_decide_eq_false in H
  | H : includes _ _ = true |- _ => apply includes_true in H
  | H : includes _ _ = false |- _ => apply includes_false in H
  end.

Lemma roomChange_refl m : roomChange m m.
Proof. intros k room' H. by left. Qed.

Lemma roomChange_insert m i room room' :
  m !! i = Some room → roomStep room room' → roomChange m (<[i := room']> m).
Proof.
  intros Hi Hstep k r' H. destruct (decide (i = k)) as [<- | Hne].
  - rewrite lookup_insert_eq in H. injection H as <-. right; left. eauto.
  - rewrite lookup_insert_ne in H by done. by left.
Qed.

Lemma roomChange_create m i room' :
  created room' → roomId room' = i → roomChange m (<[i := room']> m).
Proof.
  intros Hc Hid k r' H. destruct (decide (i = k)) as [<- | Hne].
  - rewrite lookup_insert_eq in H. injection H as <-. by right; right.
  - rewrite lookup_insert_ne in H by done. by left.
Qed.

Lemma roomChange_delete m i : roomChange m (delete i m).
Proof. intros k r' H. apply lookup_delete_Some in H as [_ H]. by left. Qed.

Lemma roomChange_remove m id : roomChange m (omap (removeUserFromRoom id) m).
Proof.
  intros k r' H. rewrite lookup_omap in H.
  destruct (m !! k) as [room |] eqn:E; simpl in H; [| done].
  right; left. exists room. split; [done |]. by eapply step_remove.
Qed.

Ltac room_change :=
  simpl;
  first
    [ apply roomChange_refl
    | apply roomChange_delete
    | apply roomChange_create; [by eexists _, _, _ | done]
    | eapply roomChange_insert; [eassumption |]; unbool; subst;
      constructor; (done || congruence) ].

Lemma rooms_dropSocketUser ws st : rooms (dropSocketUser ws st) = rooms st.
Proof. unfold dropSocketUser. repeat case_match; done. Qed.

Lemma handle_roomChange env ws msg st :
  roomChange (rooms st) (rooms (next (handle env ws msg st))).
Proof.
  unfold handle, on_auth, friends_list, friends_add, room_create, room_join,
    room_state, room_chat_history, room_chat_send, room_ready, room_lock,
    room_kick, room_transferHost, netplay_start, stream_start, netplay_input,
    stream_signal, stream_input, room_pause, room_close, invite_send,
    invite_respond, fail.
  repeat case_match; room_change.
Qed.

Lemma on_close_roomChange ws st : roomChange (rooms st) (rooms (on_close ws st)).
Proof.
  unfold on_close, removeUserFromRooms.
  repeat case_match; simpl; rewrite ?rooms_dropSocketUser;
    first [apply roomChange_refl | apply roomChange_remove].
Qed.

Lemma step_roomChange i st : roomChange (rooms st) (rooms (step i st)).
Proof.
  destruct i as [env ws [msg |] | ws]; simpl.
  - apply handle_roomChange.
  - apply roomChange_refl.
  - apply on_close_roomChange.
Qed.

(** A property of room objects that creation establishes and every
    [roomStep] preserves holds of the rooms after a step, and so of the
    rooms of every reachable state. *)
Section RoomInvariant.
Variable P : RoomRecord → Prop.
Hypothesis P_created : ∀ room, created room → P room.
Hypothesis P_step : ∀ room room', roomStep room room' → P room → P room'.

Lemma room_invariant_step i st :
  map_Forall (λ _, P) (rooms st) → map_Forall (λ _, P) (rooms (step i st)).
Proof.
  intros Hinv k room' Hk.
  destruct (step_roomChange i st k room' Hk) as [H | [(room & H & Hs) | [H _]]].
  - by eapply Hinv.
  - eapply P_step; [done |]. by eapply Hinv.
  - by apply P_created.
Qed.

Lemma room_invariant_reachable st :
  reachable st → map_Forall (λ _, P) (rooms st).
Proof.
  induction 1 as [loaded | i st _ IH].
  - simpl. apply map_Forall_empty.
  - by apply room_invariant_step.
Qed.
End RoomInvariant.

Lemma reachable_run inputs st : reachable st → reachable (run inputs st).
Proof.
  revert st. induction inputs as [| i inputs IH]; intros st H; simpl; [done |].
  apply IH. by constructor.
Qed.

(** ** Invariants of the room table *)

Lemma removeUserFromRoom_Some id room room' :
  removeUserFromRoom id room = Some room' →
  ((id ∉ members room) ∧ room' = room)
  ∨ ((id ∈ members room)
     ∧ members room' = without id (members room)
     ∧ spectators room' = without id (spectators room)
     ∧ readyByUserId room'
       = filter (λ i, i ∈ without id (members room)) (readyByUserId room)
     ∧ chat room' = chat room
     ∧ ∃ first rest, without id (members room) = first :: rest
         ∧ hostUserId room'
           = if decide (hostUserId room = id) then first else hostUserId room).
Proof.
  unfold removeUserFromRoom. intros H.
  destruct (includes id (members room)) eqn:E.
  - apply includes_true in E. right. simpl in H.
    destruct (without id (members room)) as [| first rest] eqn:Em; [done |].
    injection H as <-. split; [done |].
    case_decide; simpl; rewrite ?Em; eauto 10.
  - apply includes_false in E. injection H as <-. by left.
Qed.

Lemma hostIsMember_created room : created room → hostUserId room ∈ members room.
Proof. intros (id & host & game & ->). simpl. by left. Qed.

Lemma hostIsMember_roomStep room room' :
  roomStep room room' → hostUserId room ∈ members room →
  hostUserId room' ∈ members room'.
Proof.
  intros Hs Hin. destruct Hs as
    [actorId [] room | message room | actorId ready room Hm Hns | flag room
    | id room Hne Hm | target room Hm | s room | actorId room
    | id room room' Hr]; simpl; try done.
  - apply elem_of_pushUnique. by right.
  - apply elem_of_pushUnique. by right.
  - by apply elem_of_without.
  - apply elem_of_pushUnique. by right.
  - apply removeUserFromRoom_Some in Hr
      as [[_ ->] | (Hid & Hmem & _ & _ & _ & first & rest & Hw & Hhost)]; [done |].
    rewrite Hhost, Hmem. case_decide.
    + rewrite Hw. by left.
    + by apply elem_of_without.
Qed.

Lemma hostIsMember_step i st : hostIsMember st → hostIsMember (step i st).
Proof.
  apply room_invariant_step;
    [apply hostIsMember_created | apply hostIsMember_roomStep].
Qed.

Lemma hostIsMember_reachable st : reachable st → hostIsMember st.
Proof.
  apply room_invariant_reachable;
    [apply hostIsMember_created | apply hostIsMember_roomStep].
Qed.

Lemma readyAreMembers_roomStep room room' :
  roomStep room room' → readyByUserId room ⊆ members room →
  readyByUserId room' ⊆ members room'.
Proof.
  intros Hs Hin. destruct Hs as
    [actorId [] room | message room | actorId ready room Hm Hns | flag room
    | id room Hne Hm | target room Hm | s room | actorId room
    | id room room' Hr]; simpl; try done.
  - intros i Hi. apply elem_of_pushUnique. right. by apply Hin.
  - intros i Hi. apply elem_of_pushUnique. right. by apply Hin.
  - intros i Hi. destruct ready.
    + apply elem_of_pushUnique in Hi as [-> | Hi]; [done |].
      by apply list_elem_of_filter in Hi as [? _].
    + apply elem_of_without in Hi as [_ Hi].
      by apply list_elem_of_filter in Hi as [? _].
  - intros i Hi. by apply list_elem_of_filter in Hi as [[_ ?] _].
  - intros i Hi. apply elem_of_pushUnique. right. by apply Hin.
  - apply removeUserFromRoom_Some in Hr
      as [[_ ->] | (Hid & Hmem & _ & Hready & _)]; [done |].
    rewrite Hready, Hmem. intros i Hi. by apply list_elem_of_filter in Hi as [? _].
Qed.

Lemma readyAreMembers_reachable st : reachable st → readyAreMembers st.
Proof.
  apply room_invariant_reachable; [| apply readyAreMembers_roomStep].
  intros room (id & host & game & ->). simpl. intros i Hi. by apply elem_of_nil in Hi.
Qed.

Lemma readyAreMembers_step i st : readyAreMembers st → readyAreMembers (step i st).
Proof.
  apply room_invariant_step; [| apply readyAreMembers_roomStep].
  intros room (id & host & game & ->). simpl. intros x Hx. by apply elem_of_nil in Hx.
Qed.

(** Every change to a room other than a join as spectator keeps spectators
    out of the ready list. *)
Lemma noReadySpectator_roomStep room room' :
  roomStep room room' →
  (∀ id, id ∈ spectators room → id ∉ readyByUserId room) →
  (∀ id, id ∈ spectators room' → id ∉ readyByUserId room')
  ∨ ∃ actorId, room' = joinAs actorId true room.
Proof.
  intros Hs Hin. destruct Hs as
    [actorId [] room | message room | actorId ready room Hm Hns | flag room
    | id room Hne Hm | target room Hm | s room | actorId room
    | id room room' Hr]; simpl; eauto; left; simpl.
  - intros i Hi. apply elem_of_without in Hi as [_ Hi]. by apply Hin.
  - intros i Hi Hr. destruct ready.
    + apply elem_of_pushUnique in Hr as [-> | Hr]; [done |].
      apply list_elem_of_filter in Hr as [_ Hr]. by eapply Hin.
    + apply elem_of_without in Hr as [_ Hr].
      apply list_elem_of_filter in Hr as [_ Hr]. by eapply Hin.
  - intros i Hi Hr. apply elem_of_without in Hi as [_ Hi].
    apply list_elem_of_filter in Hr as [_ Hr]. by eapply Hin.
  - apply removeUserFromRoom_Some in Hr
      as [[_ ->] | (Hid & _ & Hspec & Hready & _)]; [done |].
    rewrite Hspec, Hready. intros i Hi Hr. apply elem_of_without in Hi as [_ Hi].
    apply list_elem_of_filter in Hr as [_ Hr]. by eapply Hin.
Qed.

Lemma sliceLast_snoc {A} n (l : list A) x :
  (0 < n)%nat → last (sliceLast n (l ++ [x])) = Some x.
Proof.
  intros Hn. unfold sliceLast. rewrite length_app. simpl.
  rewrite drop_app_le by lia. apply last_snoc.
Qed.

Lemma sliceLast_short {A} n (l : list A) : (length l ≤ n)%nat → sliceLast n l = l.
Proof. intros H. unfold sliceLast. by replace (length l - n)%nat with 0%nat by lia. Qed.

Lemma sliceLast_suffix {A} n (l : list A) : sliceLast n l `suffix_of` l.
Proof. apply suffix_drop. Qed.

Lemma chat_appendChat message room :
  chat (appendChat message room) = sliceLast 200 (chat room ++ [message]).
Proof.
  unfold appendChat. simpl. case_bool_decide; [done |].
  by rewrite sliceLast_short by lia.
Qed.

Lemma chatBounded_roomStep room room' :
  roomStep room room' → (length (chat room) ≤ 200)%nat → (length (chat room') ≤ 200)%nat.
Proof.
  intros Hs Hin. destruct Hs as
    [actorId [] room | message room | actorId ready room Hm Hns | flag room
    | id room Hne Hm | target room Hm | s room | actorId room
    | id room room' Hr]; try (simpl; done).
  - rewrite chat_appendChat. apply length_sliceLast.
  - apply removeUserFromRoom_Some in Hr
      as [[_ ->] | (_ & _ & _ & _ & -> & _)]; done.
Qed.

Lemma chatBounded_reachable st : reachable st → chatBounded st.
Proof.
  apply room_invariant_reachable; [| apply chatBounded_roomStep].
  intros room (id & host & game & ->). simpl. lia.
Qed.

(** ** Rooms are stored under their id, and list a member once *)

Lemma roomStep_roomId room room' : roomStep room room' → roomId room' = roomId room.
Proof.
  intros Hs. destruct Hs as
    [actorId [] room | message room | actorId ready room Hm Hns | flag room
    | id room Hne Hm | target room Hm | s room | actorId room
    | id room room' Hr]; try done.
  unfold removeUserFromRoom in Hr. repeat case_match; simplify_eq; done.
Qed.

Lemma roomId_is_key st :
  reachable st → map_Forall (λ k room, roomId room = k) (rooms st).
Proof.
  induction 1 as [loaded | i st _ IH]; [apply map_Forall_empty |].
  intros k room' Hk.
  destruct (step_roomChange i st k room' Hk) as [H | [(room & H & Hs) | [_ H]]].
  - by eapply IH.
  - rewrite (roomStep_roomId _ _ Hs). by eapply IH.
  - done.
Qed.

Lemma NoDup_pushUnique x l : NoDup l → NoDup (pushUnique x l).
Proof.
  intros H. unfold pushUnique. destruct (includes x l) eqn:E; [done |].
  apply includes_false in E. apply NoDup_app. split_and!; [done | | apply NoDup_singleton].
  intros y Hy Hy'. by apply list_elem_of_singleton in Hy' as ->.
Qed.

Lemma membersDistinct_roomStep room room' :
  roomStep room room' → NoDup (members room) → NoDup (members room').
Proof.
  intros Hs Hnd. destruct Hs as
    [actorId [] room | message room | actorId ready room Hm Hns | flag room
    | id room Hne Hm | target room Hm | s room | actorId room
    | id room room' Hr]; simpl; try done;
    try (by apply NoDup_pushUnique); try (by apply NoDup_filter).
  apply removeUserFromRoom_Some in Hr as [[_ ->] | (_ & -> & _)]; [done |].
  by apply NoDup_filter.
Qed.

Lemma membersDistinct_reachable st :
  reachable st → map_Forall (λ _ room, NoDup (members room)) (rooms st).
Proof.
  apply room_invariant_reachable; [| apply membersDistinct_roomStep].
  intros room (id & host & game & ->). simpl. apply NoDup_singleton.
Qed.

(** ** The user directory *)

Lemma fmap_alter_same {A B} (g : A → B) (f : A → A) i (l : list A) :
  (∀ x, g (f x) = g x) → g <$> alter f i l = g <$> l.
Proof.
  intros Hg. revert i. induction l as [| x l IH]; intros [| i]; simpl; try done.
  - by rewrite Hg.
  - f_equal. apply IH.
Qed.

Lemma getUserById_None us id : getUserById us id = None → id ∉ userId <$> us.
Proof.
  intros H Hin. apply list_find_None in H.
  apply list_elem_of_fmap in Hin as (u & -> & Hu).
  by apply (proj1 (Forall_forall _ _) H u Hu).
Qed.

Lemma getUserById_registered us id : id ∈ userId <$> us → is_Some (getUserById us id).
Proof.
  intros Hin. apply list_elem_of_fmap in Hin as (u & -> & Hu).
  destruct (list_find_elem_of (λ x, userId x = userId u) us u Hu eq_refl) as [[i y] H].
  by eexists.
Qed.

Lemma directoryChange_same st st' :
  users st' = users st → socketUser st' = socketUser st → directoryChange st st'.
Proof.
  intros Hu Hs. unfold directoryChange, userIds. rewrite Hu, Hs. split; [by left | by left].
Qed.

Lemma on_auth_directoryChange ws p st : directoryChange st (next (on_auth ws p st)).
Proof.
  unfold on_auth. case_match; [by apply directoryChange_same |].
  unfold directoryChange, userIds. cbn [next users socketUser setSocketUser setSockets setUsers].
  destruct (getUserById (users st) (trim (p_userId p))) as [[i u] |] eqn:E.
  - rewrite fmap_alter_same by done. split; [by left |].
    intros w id Hw. destruct (decide (ws = w)) as [<- | Hne].
    + rewrite lookup_insert_eq in Hw. injection Hw as <-. right.
      apply list_find_Some in E as (Hi & <- & _).
      apply list_elem_of_fmap. exists u. split; [done |].
      by eapply list_elem_of_lookup_2.
    + rewrite lookup_insert_ne in Hw by done. by left.
  - rewrite fmap_app. simpl. split.
    + right. eexists. split; [by apply getUserById_None | done].
    + intros w id Hw. destruct (decide (ws = w)) as [<- | Hne].
      * rewrite lookup_insert_eq in Hw. injection Hw as <-. right.
        apply elem_of_app. right. by left.
      * rewrite lookup_insert_ne in Hw by done. by left.
Qed.

Lemma friends_add_directoryChange actorId p st :
  directoryChange st (next (friends_add actorId p st)).
Proof.
  unfold friends_add. repeat case_match; try by apply directoryChange_same.
  unfold directoryChange, userIds. cbn [next users socketUser setUsers].
  rewrite !fmap_alter_same by done. split; [by left | by left].
Qed.

Lemma handle_directoryChange env ws msg st :
  directoryChange st (next (handle env ws msg st)).
Proof.
  unfold handle.
  case_decide; [apply on_auth_directoryChange |].
  destruct (socketUser st !! ws) as [actorId |]; [| by apply directoryChange_same].
  destruct (falsy actorId); [by apply directoryChange_same |].
  case_decide; [by apply directoryChange_same |].
  case_decide; [apply friends_add_directoryChange |].
  unfold room_create, room_join,
    room_state, room_chat_history, room_chat_send, room_ready, room_lock,
    room_kick, room_transferHost, netplay_start, stream_start, netplay_input,
    stream_signal, stream_input, room_pause, room_close, invite_send,
    invite_respond, fail.
  repeat case_match; by apply directoryChange_same.
Qed.

Lemma dropSocketUser_directoryChange ws st : directoryChange st (dropSocketUser ws st).
Proof.
  unfold dropSocketUser, directoryChange, userIds.
  repeat case_match; cbn [users socketUser setSockets];
    (split; [by left |]); intros w id Hw; try (by left);
    apply lookup_delete_Some in Hw as [_ Hw]; by left.
Qed.

Lemma step_directoryChange i st : directoryChange st (step i st).
Proof.
  destruct i as [env ws [msg |] | ws]; simpl.
  - apply handle_directoryChange.
  - by apply directoryChange_same.
  - unfold on_close, removeUserFromRooms.
    repeat case_match; apply dropSocketUser_directoryChange.
Qed.

Lemma directoryOk_step i st : directoryOk st → directoryOk (step i st).
Proof.
  intros [Hnd Hreg]. destruct (step_directoryChange i st) as [Hids Hsock].
  assert (∀ id, id ∈ userIds st → id ∈ userIds (step i st)) as Hmono.
  { intros id Hid. destruct Hids as [-> | (new & _ & ->)]; [done |].
    apply elem_of_app. by left. }
  split.
  - destruct Hids as [-> | (new & Hnew & ->)]; [done |].
    apply NoDup_app. split_and!; [done | | apply NoDup_singleton].
    intros x Hx Hx'. apply list_elem_of_singleton in Hx' as ->. done.
  - intros ws id Hws. destruct (Hsock ws id Hws) as [H | H]; [| done].
    apply Hmono. by eapply Hreg.
Qed.

Lemma directoryOk_start loaded :
  NoDup (userId <$> loaded) → directoryOk (startServer loaded).
Proof. intros H. split; [done |]. intros ws id Hw. simpl in Hw. by rewrite lookup_empty in Hw. Qed.

Lemma directoryOk_run inputs st : directoryOk st → directoryOk (run inputs st).
Proof.
  revert st. induction inputs as [| i inputs IH]; intros st H; simpl; [done |].
  by apply IH, directoryOk_step.
Qed.

(** In a run from a directory with distinct ids, the actor of a request
    from an authenticated socket is in the directory, and ids stay
    distinct. *)
Lemma authenticated_actor_registered st ws actorId :
  directoryOk st → socketUser st !! ws = Some actorId →
  NoDup (userId <$> users st) ∧ is_Some (getUserById (users st) actorId).
Proof.
  intros [Hnd Hreg] Hws. split; [done |]. by eapply getUserById_registered, Hreg.
Qed.

(** ** What a handler sends *)

Lemma sendEventToRoom_all room e :
  sendEventToRoom room e None = (λ m, EventTo m e) <$> members room.
Proof.
  unfold sendEventToRoom. f_equal. induction (members room) as [| m l IH]; [done |].
  rewrite filter_cons. case_decide; [by f_equal | done].
Qed.

Lemma sendEventToRoom_events room e x : Forall isEvent (sendEventToRoom room e x).
Proof. unfold sendEventToRoom. apply Forall_fmap, Forall_forall. by intros m _. Qed.

Lemma responses_events l : Forall isEvent l → responses l = [].
Proof. induction 1 as [| [] l Ho Hl IH]; simpl; done. Qed.

Lemma reply_after_events events r rest st :
  Forall isEvent events → reply (mkResult (events ++ Response r :: rest) st) = Some r.
Proof.
  intros H. unfold reply, responses. simpl. rewrite omap_app.
  fold (responses events). by rewrite responses_events.
Qed.

Lemma reply_skip_events events rest st :
  Forall isEvent events →
  reply (mkResult (events ++ rest) st) = reply (mkResult rest st).
Proof.
  intros H. unfold reply, responses. simpl. rewrite omap_app.
  fold (responses events). by rewrite responses_events.
Qed.

(** C6. In every state the server reaches, the host of every room is one of
    its members, and every input (any request, or a socket closing) keeps it
    so: creation, join, kick, host transfer, close, leaving with the host
    role passing to the first remaining member, and the deletion of a room
    left empty. *)
Theorem host_in_members :
  (∀ st, reachable st → hostIsMember st)
  ∧ (∀ i st, hostIsMember st → hostIsMember (step i st)).
Proof. split; [apply hostIsMember_reachable | apply hostIsMember_step]. Qed.

Lemma host_in_members_witness :
  hostIsMember lobbyState
  ∧ rooms lobbyState !! "ABCD1234" = Some lobbyRoom.
Proof.
  split.
  - apply (proj1 host_in_members). apply reachable_run. constructor.
  - vm_compute. reflexivity.
Defined.

(** C2. The claim fails on the code: in a state the server reaches, where
    no spectator is ready, a ready member who sends [room:join] with the
    spectator flag is pushed to [spectators] and stays in [readyByUserId]. *)
Theorem ready_spectator_after_rejoin :
  reachable lobbyState
  ∧ noReadySpectator lobbyState
  ∧ rooms (step rejoinAsSpectator lobbyState) !! "ABCD1234"
    = Some (mkRoom "ABCD1234" "u1" "smb" ["u1"; "u2"] ["u2"] false ["u2"] [] None)
  ∧ ¬ noReadySpectator (step rejoinAsSpectator lobbyState).
Proof.
  assert (rooms (step rejoinAsSpectator lobbyState) !! "ABCD1234"
    = Some (mkRoom "ABCD1234" "u1" "smb" ["u1"; "u2"] ["u2"] false ["u2"] [] None))
    as Hafter by (vm_compute; reflexivity).
  split_and!.
  - apply reachable_run. constructor.
  - assert (rooms lobbyState
            = {["ABCD1234" := mkRoom "ABCD1234" "u1" "smb" ["u1"; "u2"] [] false
                                     ["u2"] [] None]})
      as Hr by (vm_compute; reflexivity).
    unfold noReadySpectator. rewrite Hr. apply map_Forall_singleton. simpl.
    intros id Hid. by apply elem_of_nil in Hid.
  - done.
  - intros Hinv. apply (Hinv _ _ Hafter "u2"); simpl; by left.
Qed.

(** ** Starting a stream session *)

Lemma two_in_filter (P : string → Prop) `{!∀ x, Decision (P x)} (l : list string) :
  NoDup l →
  length (filter P l) = 2%nat
  ↔ ∃ a b, a ≠ b ∧ ∀ x, (x ∈ l ∧ P x) ↔ (x = a ∨ x = b).
Proof.
  intros Hnd. pose proof (NoDup_filter P l Hnd) as Hf.
  assert (∀ x, x ∈ l ∧ P x ↔ x ∈ filter P l) as Hin
    by (intros x; rewrite list_elem_of_filter; tauto).
  split.
  - intros Hlen. destruct (filter P l) as [| a [| b [| c rest]]] eqn:E; try done.
    exists a, b. split.
    + apply NoDup_cons in Hf as [Ha _]. intros ->. apply Ha. by left.
    + intros x. rewrite Hin, elem_of_cons, list_elem_of_singleton. tauto.
  - intros (a & b & Hab & Hall).
    assert (filter P l ≡ₚ [a; b]) as Hperm.
    { apply NoDup_Permutation; [done | |].
      - apply NoDup_cons. split; [| apply NoDup_singleton].
        by intros ?%list_elem_of_singleton.
      - intros x. rewrite <- Hin, Hall, elem_of_cons, list_elem_of_singleton. tauto. }
    by rewrite Hperm.
Qed.

(** C5. In a state the server reaches, when the host of a room sends
    [stream:start] with a game id that is not empty, the request succeeds
    exactly when the room has two members that are not spectators, however
    many spectators it has.  Otherwise it fails with the capacity message
    and changes nothing.  When it succeeds, the room is stored with a
    session in stream mode (trimmed game id, "Netplay" and "NES" for an
    empty name and platform, no rom) and is otherwise as it was, and no
    other room, user or invite changes. *)
Theorem stream_start_iff env st actorId p room :
  reachable st →
  rooms st !! toUpperCase (trim (p_roomId p)) = Some room →
  hostUserId room = actorId →
  trim (p_gameId p) ≠ "" →
  let key := toUpperCase (trim (p_roomId p)) in
  let result := stream_start env actorId p st in
  let s := mkSession stream (trim (p_gameId p))
             (orElse (trim (p_gameName p)) "Netplay")
             (orElse (trim (p_platform p)) "NES")
             None None None None None (now env) in
  (reply result = Some (Ok PStarted) ↔ twoActivePlayers room)
  ∧ (¬ twoActivePlayers room →
     result = fail st "Streaming mode requires exactly 2 members")
  ∧ (twoActivePlayers room →
     ∃ room', rooms (next result) !! key = Some room'
       ∧ session room' = Some s ∧ mode s = stream ∧ isStreamMode room' = true
       ∧ roomId room' = roomId room ∧ hostUserId room' = hostUserId room
       ∧ gameId room' = gameId room ∧ members room' = members room
       ∧ spectators room' = spectators room ∧ locked room' = locked room
       ∧ readyByUserId room' = readyByUserId room ∧ chat room' = chat room
       ∧ (∀ k, k ≠ key → rooms (next result) !! k = rooms st !! k)
       ∧ users (next result) = users st ∧ invites (next result) = invites st).
Proof.
  intros Hreach Hroom Hhost Hgame key result s.
  pose proof (hostIsMember_reachable st Hreach _ _ Hroom) as Hmem. simpl in Hmem.
  rewrite Hhost in Hmem.
  pose proof (membersDistinct_reachable st Hreach _ _ Hroom) as Hnd. simpl in Hnd.
  assert (length (players room) = 2%nat ↔ twoActivePlayers room) as Htwo
    by apply (two_in_filter (λ id, id ∉ spectators room) (members room) Hnd).
  unfold result, key, stream_start. rewrite Hroom.
  rewrite (bool_decide_eq_true_2 _ Hhost). cbn [negb].
  rewrite (proj2 (includes_true _ _) Hmem). cbn [negb].
  unfold falsy. rewrite (bool_decide_eq_false_2 _ Hgame).
  case_bool_decide as Hlen; cbn [negb].
  - apply Htwo in Hlen. split_and!; [| by intros Hnot |].
    + split; [done | intros _].
      rewrite app_assoc. apply reply_after_events.
      apply Forall_app; split; apply sendEventToRoom_events.
    + intros _. eexists. cbn [next rooms setRooms users invites].
      split; [apply lookup_insert_eq |]. split_and!; try done.
      intros k Hk. by rewrite lookup_insert_ne.
  - assert (¬ twoActivePlayers room) as Hnot by (by rewrite <- Htwo).
    split_and!; [| done | done].
    split; [| done]. unfold reply; simpl. intros [=].
Qed.

Lemma stream_start_iff_witness :
  reply (stream_start env2 "u1" (onRoom "abcd1234" false false "smb" "") watchedState)
  = Some (Ok PStarted).
Proof.
  refine (proj2 (proj1 (stream_start_iff env2 watchedState "u1"
                          (onRoom "abcd1234" false false "smb" "") watchedRoom
                          _ _ _ _)) _).
  - apply reachable_run. constructor.
  - vm_compute. reflexivity.
  - reflexivity.
  - vm_compute. discriminate.
  - exists "u1", "u2". split; [discriminate |]. intros x.
    change (members watchedRoom) with ["u1"; "u2"; "u3"].
    change (spectators watchedRoom) with ["u3"].
    rewrite !elem_of_cons. split.
    + intros [[-> | [-> | [-> | Hx]]] Hns];
        [by left | by right | destruct Hns; by left | by apply elem_of_nil in Hx].
    + intros [-> | ->]; (split; [tauto |]); intros [Hx | Hx];
        first [discriminate Hx | by apply elem_of_nil in Hx].
Defined.

(** ** Room chat *)

Lemma room_chat_send_ok env st actorId p room :
  rooms st !! toUpperCase (trim (p_roomId p)) = Some room →
  actorId ∈ members room →
  trim (p_text p) ≠ "" →
  let message :=
    mkChatMessage (uuid env) (roomId room) actorId (senderName (users st) actorId)
                  (sliceTo 400 (trim (p_text p))) (now env) in
  room_chat_send env actorId p st
  = mkResult (((λ m, EventTo m (RoomChat message)) <$> members room)
              ++ [Response (Ok PDelivered)])
             (setRooms (<[toUpperCase (trim (p_roomId p)) := appendChat message room]>
                          (rooms st)) st).
Proof.
  intros Hroom Hmem Htext message. unfold room_chat_send.
  rewrite Hroom, (proj2 (includes_true _ _) Hmem).
  unfold falsy. rewrite (bool_decide_eq_false_2 _ Htext).
  cbn [negb]. by rewrite sendEventToRoom_all.
Qed.

(** C7. In a room of a reachable state and for a member of it: the chat log
    holds at most 200 entries; a [room:chat:send] whose text is not empty
    after trimming stores and sends to every member one message whose text is
    the first 400 characters of the trimmed text (all of it when shorter),
    appended to the log, of which the last 200 entries are kept; and
    [room:chat:history] answers with the last 100 entries of the log. *)
Theorem chat_bounds env st actorId p room :
  reachable st →
  rooms st !! toUpperCase (trim (p_roomId p)) = Some room →
  actorId ∈ members room →
  (length (chat room) ≤ 200)%nat
  ∧ (trim (p_text p) ≠ "" →
     let message :=
       mkChatMessage (uuid env) (roomId room) actorId (senderName (users st) actorId)
                     (sliceTo 400 (trim (p_text p))) (now env) in
     let result := room_chat_send env actorId p st in
     (String.length (text message) ≤ 400)%nat
     ∧ String.length (text message) = min 400 (String.length (trim (p_text p)))
     ∧ String.prefix (text message) (trim (p_text p)) = true
     ∧ outs result
       = ((λ m, EventTo m (RoomChat message)) <$> members room)
         ++ [Response (Ok PDelivered)]
     ∧ ∃ room', rooms (next result) !! toUpperCase (trim (p_roomId p)) = Some room'
         ∧ chat room' = sliceLast 200 (chat room ++ [message])
         ∧ last (chat room') = Some message
         ∧ (length (chat room') ≤ 200)%nat)
  ∧ (let history := sliceLast 100 (chat room) in
     room_chat_history actorId p st = mkResult [Response (Ok (PChatHistory history))] st
     ∧ (length history ≤ 100)%nat
     ∧ history `suffix_of` chat room).
Proof.
  intros Hreach Hroom Hmem. split_and!.
  - by apply (chatBounded_reachable st Hreach _ _ Hroom).
  - intros Htext message result. unfold message at 1 2 3. cbn [text].
    rewrite length_sliceTo. unfold result.
    rewrite (room_chat_send_ok env st actorId p room Hroom Hmem Htext).
    fold message. cbn [outs next rooms setRooms].
    split_and!; [lia | done | apply sliceTo_prefix | done |].
    exists (appendChat message room).
    rewrite lookup_insert_eq, chat_appendChat.
    split_and!; [done | done | apply sliceLast_snoc; lia | apply length_sliceLast].
  - intros history. unfold room_chat_history.
    rewrite Hroom, (proj2 (includes_true _ _) Hmem). simpl.
    split_and!; [done | apply length_sliceLast | apply sliceLast_suffix].
Qed.

Lemma chat_bounds_witness :
  ∃ room',
    rooms (next (room_chat_send env2 "u2" chatting lobbyState)) !! "ABCD1234"
    = Some room'
    ∧ text <$> last (chat room') = Some (sliceTo 400 longText)
    ∧ String.length (sliceTo 400 longText) = 400%nat.
Proof.
  destruct (chat_bounds env2 lobbyState "u2" chatting lobbyRoom)
    as (_ & Hsend & _).
  - apply reachable_run. constructor.
  - vm_compute. reflexivity.
  - simpl. apply list_elem_of_further, list_elem_of_here.
  - destruct Hsend as (_ & _ & _ & _ & room' & Hroom & _ & Hlast & _).
    { vm_compute. discriminate. }
    exists room'. split; [exact Hroom |]. rewrite Hlast. split; vm_compute; reflexivity.
Defined.

(** ** The friend graph *)

Section FindAlter.
Context {A : Type} (P : A → Prop) `{∀ x, Decision (P x)} (f : A → A).
Hypothesis P_f : ∀ x, P (f x) ↔ P x.

Lemma list_find_alter k (l : list A) :
  list_find P (alter f k l)
  = (λ '(n, x), (n, if decide (n = k) then f x else x)) <$> list_find P l.
Proof.
  revert k. induction l as [| x l IH]; intros k; [done |].
  destruct k as [| k]; simpl.
  - destruct (decide (P (f x))) as [Hfx | Hfx], (decide (P x)) as [Hx | Hx];
      [done | by destruct Hx; apply P_f | by destruct Hfx; apply P_f |].
    destruct (list_find P l) as [[n y] |]; simpl; [| done].
    repeat case_decide; (done || lia).
  - destruct (decide (P x)) as [Hx | Hx]; simpl.
    + repeat case_decide; (done || lia).
    + change (list_alter f k l) with (alter f k l).
      rewrite IH. destruct (list_find P l) as [[n y] |]; simpl; [| done].
      do 2 f_equal. repeat case_decide; (done || lia).
Qed.
End FindAlter.

Lemma alter_fixed {A} (f : A → A) k (l : list A) x :
  l !! k = Some x → f x = x → alter f k l = l.
Proof.
  revert k. induction l as [| y l IH]; intros [| k] Hk Hf; simpl in *; try done.
  - injection Hk as ->. by rewrite Hf.
  - f_equal. by apply IH.
Qed.

Lemma getUserById_unique us j u :
  NoDup (userId <$> us) → us !! j = Some u → getUserById us (userId u) = Some (j, u).
Proof.
  intros Hnd Hj. unfold getUserById. apply list_find_Some. split_and!; [done | done |].
  intros k y Hk Hlt Heq.
  assert ((userId <$> us) !! k = Some (userId y)) as H1 by (by rewrite list_lookup_fmap, Hk).
  assert ((userId <$> us) !! j = Some (userId u)) as H2 by (by rewrite list_lookup_fmap, Hj).
  rewrite <- Heq in H2. pose proof (NoDup_lookup _ _ _ _ Hnd H1 H2). lia.
Qed.

Lemma addFriend_fixed id u : id ∈ friends u → addFriend id u = u.
Proof.
  intros Hin. destruct u as [a b c fr e]. unfold addFriend, pushUnique. simpl in *.
  by rewrite (proj2 (includes_true _ _) Hin).
Qed.

Lemma friend_addFriend id u : id ∈ friends (addFriend id u).
Proof. simpl. apply elem_of_pushUnique. by left. Qed.

Lemma pushUnique_withFriend x l : pushUnique x l = withFriend x l.
Proof.
  unfold pushUnique, withFriend, includes.
  destruct (decide (x ∈ l)) as [H | H];
    [by rewrite bool_decide_eq_true_2 | by rewrite bool_decide_eq_false_2].
Qed.

Lemma userId_at us k u k' u' :
  NoDup (userId <$> us) → us !! k = Some u → us !! k' = Some u' →
  userId u = userId u' → k = k'.
Proof.
  intros Hnd Hk Hk' Heq.
  apply (NoDup_lookup _ _ _ (userId u) Hnd); rewrite list_lookup_fmap.
  - by rewrite Hk.
  - by rewrite Hk', Heq.
Qed.

(** What [friends:add] does, by the user its search finds. *)
Lemma friends_add_cases st actorId p i actor :
  getUserById (users st) actorId = Some (i, actor) →
  NoDup (userId <$> users st) →
  let result := friends_add actorId p st in
  match getUserByCode (users st) (trim (p_friendCode p)) with
  | None => result = fail st "Friend code not found"
  | Some (j, friend) =>
      if decide (userId friend = actorId)
      then result = fail st "Cannot add yourself"
      else outs result = [Response (Ok PFriends)]
           ∧ areFriends (users (next result)) actorId (userId friend) = true
           ∧ areFriends (users (next result)) (userId friend) actorId = true
           ∧ friends_add actorId p (next result) = result
           ∧ next result = setUsers (users (next result)) st
           ∧ length (users (next result)) = length (users st)
           ∧ (∀ k u, users st !! k = Some u →
                users (next result) !! k
                = Some (mkUser (userId u) (displayName u) (friendCode u)
                          (if decide (userId u = actorId)
                           then withFriend (userId friend) (friends u)
                           else if decide (userId u = userId friend)
                                then withFriend actorId (friends u)
                                else friends u)
                          (avatarDataUrl u)))
           ∧ (userId friend ∈ friends actor → actorId ∈ friends friend →
              next result = st)
  end.
Proof.
  intros Hactor Hnd result. unfold result, friends_add. rewrite Hactor.
  pose proof Hactor as Ha. apply list_find_Some in Ha as (Hi & Hid & _).
  destruct (getUserByCode (users st) (trim (p_friendCode p))) as [[j friend] |] eqn:Hcode;
    [| done].
  pose proof Hcode as Hc. apply list_find_Some in Hc as (Hj & Hcd & _).
  rewrite Hid. case_decide as Hne; [done |].
  assert (i ≠ j) as Hij by (intros ->; congruence).
  set (users2 := alter (addFriend actorId) j (alter (addFriend (userId friend)) i (users st))).
  assert (getUserById users2 actorId = Some (i, addFriend (userId friend) actor)) as Hfind_a.
  { unfold users2, getUserById. rewrite !list_find_alter by done.
    fold (getUserById (users st) actorId). rewrite Hactor. simpl.
    repeat case_decide; done. }
  assert (getUserById users2 (userId friend) = Some (j, addFriend actorId friend)) as Hfind_f.
  { unfold users2, getUserById. rewrite !list_find_alter by done.
    fold (getUserById (users st) (userId friend)).
    rewrite (getUserById_unique _ _ _ Hnd Hj). simpl.
    repeat case_decide; done. }
  assert (getUserByCode users2 (trim (p_friendCode p)) = Some (j, addFriend actorId friend))
    as Hfind_c.
  { unfold users2, getUserByCode. rewrite !list_find_alter by done.
    fold (getUserByCode (users st) (trim (p_friendCode p))). rewrite Hcode. simpl.
    repeat case_decide; done. }
  cbn [outs next users setUsers]. fold users2.
  split; [done |].
  split; [unfold areFriends; rewrite Hfind_a; apply includes_true, friend_addFriend |].
  split; [unfold areFriends; rewrite Hfind_f; apply includes_true, friend_addFriend |].
  split.
  { rewrite Hfind_a, Hfind_c. cbn [userId addFriend]. rewrite Hid.
    rewrite decide_False by done.
    assert (users2 !! i = Some (addFriend (userId friend) actor)) as Hi2
      by (by apply list_find_Some in Hfind_a as (? & _)).
    assert (users2 !! j = Some (addFriend actorId friend)) as Hj2
      by (by apply list_find_Some in Hfind_f as (? & _)).
    rewrite (alter_fixed _ i users2 _ Hi2)
      by (apply addFriend_fixed, friend_addFriend).
    rewrite (alter_fixed _ j users2 _ Hj2)
      by (apply addFriend_fixed, friend_addFriend).
    by destruct st. }
  split; [done |].
  split; [unfold users2; by rewrite !length_alter |].
  split.
  - intros k u Hk. unfold users2.
    destruct (decide (k = j)) as [-> | Hkj].
    + rewrite list_lookup_alter_eq, list_lookup_alter_ne, Hj by done.
      rewrite Hj in Hk. injection Hk as <-. cbn [fmap option_fmap option_map].
      rewrite decide_False by done. rewrite decide_True by done.
      unfold addFriend. by rewrite pushUnique_withFriend.
    + rewrite list_lookup_alter_ne by done.
      destruct (decide (k = i)) as [-> | Hki].
      * rewrite list_lookup_alter_eq, Hi. rewrite Hi in Hk. injection Hk as <-.
        cbn [fmap option_fmap option_map]. rewrite decide_True by done.
        unfold addFriend. by rewrite pushUnique_withFriend.
      * rewrite list_lookup_alter_ne, Hk by done.
        rewrite decide_False; [rewrite decide_False; [by destruct u |] |].
        -- intros Heq. apply Hkj. by eapply userId_at.
        -- intros Heq. apply Hki. eapply userId_at; [done | done | done |].
           by rewrite Hid.
  - intros Hfa Haf. unfold users2.
    rewrite (alter_fixed _ i (users st) actor Hi) by (by apply addFriend_fixed).
    rewrite (alter_fixed _ j (users st) friend Hj) by (by apply addFriend_fixed).
    by destruct st.
Qed.

(** C8. For an actor in the user list, whose ids are distinct, and friend
    codes on which upper case is exact: [friends:add] fails with "Friend
    code not found" when no user has the code (compared without regard to
    case); otherwise it takes the first user who has it, fails with "Cannot
    add yourself" when that user is the actor, and else answers [ok] with
    each of the two users in the other's friend list.  It inserts: the
    friend list of each of the two is the list of before, with the other's
    id added at the end when it was not in it; every other user, every
    other field and everything but the user list are as before.  So a
    request between two users who are friends already changes nothing, and
    sending a request again changes nothing. *)
Theorem addFriendship st actorId p i actor :
  getUserById (users st) actorId = Some (i, actor) →
  NoDup (userId <$> users st) →
  upperExact (trim (p_friendCode p)) = true →
  forallb (λ u, upperExact (friendCode u)) (users st) = true →
  let result := friends_add actorId p st in
  let hasCode u := toUpperCase (friendCode u) = toUpperCase (trim (p_friendCode p)) in
  ((∀ u, u ∈ users st → ¬ hasCode u) → result = fail st "Friend code not found")
  ∧ (∀ j friend,
       users st !! j = Some friend → hasCode friend →
       (∀ k u, users st !! k = Some u → hasCode u → (j ≤ k)%nat) →
       if decide (userId friend = actorId)
       then result = fail st "Cannot add yourself"
       else outs result = [Response (Ok PFriends)]
            ∧ areFriends (users (next result)) actorId (userId friend) = true
            ∧ areFriends (users (next result)) (userId friend) actorId = true
            ∧ friends_add actorId p (next result) = result
            ∧ next result = setUsers (users (next result)) st
            ∧ length (users (next result)) = length (users st)
            ∧ (∀ k u, users st !! k = Some u →
                 users (next result) !! k
                 = Some (mkUser (userId u) (displayName u) (friendCode u)
                           (if decide (userId u = actorId)
                            then withFriend (userId friend) (friends u)
                            else if decide (userId u = userId friend)
                                 then withFriend actorId (friends u)
                                 else friends u)
                           (avatarDataUrl u)))
            ∧ (userId friend ∈ friends actor → actorId ∈ friends friend →
               next result = st)).
Proof.
  intros Hactor Hnd _ _ result hasCode.
  pose proof (friends_add_cases st actorId p i actor Hactor Hnd) as Hcases.
  cbv zeta in Hcases. fold result in Hcases. split.
  - intros Hnone.
    assert (getUserByCode (users st) (trim (p_friendCode p)) = None) as E.
    { apply list_find_None, Forall_forall. intros u Hu. by apply Hnone. }
    by rewrite E in Hcases.
  - intros j friend Hj Hcode Hfirst.
    assert (getUserByCode (users st) (trim (p_friendCode p)) = Some (j, friend)) as E.
    { apply list_find_Some. split_and!; [done | done |].
      intros k u Hk Hlt Hu. specialize (Hfirst k u Hk Hu). lia. }
    by rewrite E in Hcases.
Qed.

Lemma addFriendship_witness :
  users (next (friends_add "u1" (friendsAdd " bbbb2222 ") inviteState)) !! 0%nat
  = Some (mkUser "u1" "Ann" "AAAA1111" ["u3"; "u2"] None).
Proof.
  pose proof (proj2 (addFriendship inviteState "u1" (friendsAdd " bbbb2222 ") 0
                       (mkUser "u1" "Ann" "AAAA1111" ["u3"] None)
                       ltac:(vm_compute; reflexivity)
                       ltac:(apply (bool_decide_unpack _); vm_compute; exact I)
                       ltac:(vm_compute; reflexivity)
                       ltac:(vm_compute; reflexivity))
                1%nat (mkUser "u2" "Bob" "BBBB2222" [] None)) as H.
  cbn [userId] in H.
  destruct (decide ("u2" = "u1")) as [Heq | _]; [discriminate Heq |].
  destruct H as (_ & _ & _ & _ & _ & _ & Hkept & _).
  - vm_compute. reflexivity.
  - vm_compute. reflexivity.
  - intros k u Hk Hu. destruct k as [| k]; [| lia].
    vm_compute in Hk. injection Hk as <-. vm_compute in Hu. discriminate Hu.
  - pose proof (Hkept 0%nat (mkUser "u1" "Ann" "AAAA1111" ["u3"] None)
                  ltac:(vm_compute; reflexivity)) as R.
    vm_compute in R. vm_compute. exact R.
Defined.

(** ** Requests that name a missing room *)

(** C9. From an authenticated socket, a [room:close] whose room id is not
    empty and names no room is answered [ok] with [closed: false] and
    changes nothing, while every other request that names a room
    ([roomRequests]) is answered "Room not found". *)
Theorem close_of_missing_room env ws actorId msg st :
  socketUser st !! ws = Some actorId →
  actorId ≠ "" →
  toUpperCase (trim (p_roomId (payload msg))) ≠ "" →
  rooms st !! toUpperCase (trim (p_roomId (payload msg))) = None →
  (msgType msg = "room:close" →
   handle env ws msg st = mkResult [Response (Ok (PClosed false))] st)
  ∧ (msgType msg ∈ roomRequests →
     handle env ws msg st = fail st "Room not found").
Proof.
  intros Hws Hactor Hid Hroom.
  assert (falsy actorId = false) as Hf by (by apply bool_decide_eq_false_2).
  split.
  - intros Htype. unfold handle. rewrite Htype, Hws, Hf.
    repeat (case_decide; [discriminate |]). case_decide; [| done].
    unfold room_close. unfold falsy. rewrite (bool_decide_eq_false_2 _ Hid), Hroom. done.
  - intros Htype. unfold roomRequests in Htype.
    repeat (apply elem_of_cons in Htype as [Htype | Htype]);
      [.. | by apply elem_of_nil in Htype];
      unfold handle; rewrite Htype, Hws, Hf;
      repeat (case_decide; [discriminate |]); (case_decide; [| done]).
    all: unfold room_join, room_state, room_chat_history, room_chat_send, room_ready,
           room_lock, room_kick, room_transferHost, room_pause, netplay_start,
           stream_start, netplay_input, stream_signal, stream_input;
         by rewrite Hroom.
Qed.


Lemma close_of_missing_room_witness :
  handle env1 2 (mkMessage "room:close" (Some "r") (onRoom "zzzz" false false "" ""))
         lobbyState
  = mkResult [Response (Ok (PClosed false))] lobbyState.
Proof.
  apply (proj1 (close_of_missing_room env1 2 "u2"
                  (mkMessage "room:close" (Some "r") (onRoom "zzzz" false false "" ""))
                  lobbyState ltac:(vm_compute; reflexivity) ltac:(discriminate)
                  ltac:(vm_compute; discriminate) ltac:(vm_compute; reflexivity))).
  reflexivity.
Defined.

(** ** Invites *)

(** What the addressee of an invite gets back. *)
Lemma invite_respond_addressee st actorId p invite :
  invites st !! trim (p_inviteId p) = Some invite →
  toUserId invite = actorId →
  let result := invite_respond actorId p st in
  invites (next result) = delete (trim (p_inviteId p)) (invites st)
  ∧ (reply result = Some (Ok PDeclined)
     ∨ reply result = Some (Fail "Room no longer exists")
     ∨ reply result = Some (Fail "Streaming room is full")
     ∨ reply result = Some (Fail "Room is locked")
     ∨ ∃ room, reply result = Some (Ok (PRoomId room))).
Proof.
  intros Hinv Hto result. unfold result, invite_respond.
  rewrite Hinv, (bool_decide_eq_true_2 _ Hto). cbn [negb].
  destruct (p_accept p); cbn [negb].
  - destruct (rooms _ !! _) as [room |]; [| split; [done | right; by left]].
    repeat case_match; (split; [done |]).
    + right; right; by left.
    + right; right; right; by left.
    + right; right; right; right. eexists.
      by rewrite reply_skip_events by apply sendEventToRoom_events.
  - split; [done | by left].
Qed.

(** C10. An [invite:respond] from a user the invite is not addressed to fails
    with "Invite does not belong to user" and changes nothing.  The
    addressee's response that follows is then taken (it is answered neither
    "Invite not found" nor "Invite does not belong to user") and removes the
    invite, and every response after it, from anyone, is answered "Invite
    not found". *)
Theorem stray_invite_response st actorId target p invite :
  invites st !! trim (p_inviteId p) = Some invite →
  toUserId invite = target →
  actorId ≠ target →
  invite_respond actorId p st = fail st "Invite does not belong to user"
  ∧ (∀ q, trim (p_inviteId q) = trim (p_inviteId p) →
       let first := invite_respond target q (next (invite_respond actorId p st)) in
       reply first ≠ Some (Fail "Invite not found")
       ∧ reply first ≠ Some (Fail "Invite does not belong to user")
       ∧ invites (next first) = delete (trim (p_inviteId p)) (invites st)
       ∧ ∀ anyone q', trim (p_inviteId q') = trim (p_inviteId p) →
           invite_respond anyone q' (next first) = fail (next first) "Invite not found").
Proof.
  intros Hinv Hto Hne.
  assert (invite_respond actorId p st = fail st "Invite does not belong to user") as Hstray.
  { unfold invite_respond. rewrite Hinv.
    rewrite bool_decide_eq_false_2 by congruence. done. }
  split; [done |]. intros q Hq first. unfold first. rewrite Hstray. cbn [next fail].
  rewrite <- Hq in Hinv.
  destruct (invite_respond_addressee st target q invite Hinv Hto) as [Hgone Hreply].
  rewrite Hq in Hgone.
  split_and!.
  - destruct Hreply as [-> | [-> | [-> | [-> | [room ->]]]]]; discriminate.
  - destruct Hreply as [-> | [-> | [-> | [-> | [room ->]]]]]; discriminate.
  - done.
  - intros anyone q' Hq'. unfold invite_respond at 1.
    by rewrite Hq', Hgone, lookup_delete_eq.
Qed.

Lemma stray_invite_response_witness :
  invite_respond "u2" acceptInvite streamState
  = fail streamState "Invite does not belong to user".
Proof.
  apply (proj1 (stray_invite_response streamState "u2" "u3" acceptInvite
                  (mkInvite (uuid env2) "u1" "u3" "ABCD1234" "smb" (now env2))
                  ltac:(vm_compute; reflexivity) ltac:(reflexivity)
                  ltac:(discriminate))).
Defined.

(** ** Joining a room and accepting an invite *)

Lemma refusal_fail st error : refusal (fail st error) = Some error.
Proof. done. Qed.

(** What [room:join] answers, case by case. *)
Lemma room_join_cases actorId p st room :
  rooms st !! toUpperCase (trim (p_roomId p)) = Some room →
  let result := room_join actorId p st in
  if locked room && negb (includes actorId (members room))
  then result = fail st "Room is locked"
  else if isStreamMode room && negb (includes actorId (members room))
          && negb (p_spectator p)
  then result = fail st "Streaming room is full"
  else refusal result = None
       ∧ rooms (next result) !! toUpperCase (trim (p_roomId p))
         = Some (joinAs actorId (p_spectator p) room).
Proof.
  intros Hroom result. unfold result, room_join. rewrite Hroom.
  repeat case_match; try done.
  split; [| apply lookup_insert_eq]. done.
Qed.

(** What accepting an invite answers, case by case. *)
Lemma invite_accept_cases actorId p st invite room :
  invites st !! trim (p_inviteId p) = Some invite →
  toUserId invite = actorId →
  p_accept p = true →
  rooms st !! inviteRoomId invite = Some room →
  let result := invite_respond actorId p st in
  let st1 := setInvites (delete (trim (p_inviteId p)) (invites st)) st in
  if isStreamMode room && negb (includes actorId (members room))
     && bool_decide (2 ≤ length (members room))%nat
  then result = fail st1 "Streaming room is full"
  else if locked room && negb (includes actorId (members room))
  then result = fail st1 "Room is locked"
  else refusal result = None
       ∧ rooms (next result) !! inviteRoomId invite = Some (acceptInto actorId room).
Proof.
  intros Hinv Hto Hacc Hroom result st1. unfold result, invite_respond.
  rewrite Hinv, (bool_decide_eq_true_2 _ Hto), Hacc. cbn [negb].
  cbn [rooms setInvites]. rewrite Hroom.
  repeat case_match; try done.
  split; [| apply lookup_insert_eq].
  unfold refusal. by rewrite reply_skip_events by apply sendEventToRoom_events.
Qed.

(** Where the two ways into a room agree.  For an invite addressed to the
    actor whose room still exists: when that room has no session in stream
    mode or the actor is a member already, accepting the invite answers as
    [room:join] answers the same actor joining as a player (both refuse with
    "Room is locked" when the room is locked and the actor is not a member,
    both succeed otherwise, and on success both leave the actor in
    [members]); when the room is in stream mode with two members or more and
    the actor is not one of them, both refuse, the invite with "Streaming
    room is full" and [room:join] with "Room is locked" if the room is
    locked and with "Streaming room is full" if not. *)
Lemma invite_accept_as_join st actorId pj pi invite room :
  invites st !! trim (p_inviteId pi) = Some invite →
  toUserId invite = actorId →
  p_accept pi = true →
  toUpperCase (trim (p_roomId pj)) = inviteRoomId invite →
  p_spectator pj = false →
  rooms st !! inviteRoomId invite = Some room →
  let accepted := invite_respond actorId pi st in
  let joined := room_join actorId pj st in
  (isStreamMode room = false ∨ actorId ∈ members room →
   refusal accepted = refusal joined
   ∧ (refusal joined = Some "Room is locked"
      ↔ locked room = true ∧ actorId ∉ members room)
   ∧ (refusal joined = None
      ↔ ¬ (locked room = true ∧ actorId ∉ members room))
   ∧ (refusal joined = None →
      ∃ a j, rooms (next accepted) !! inviteRoomId invite = Some a
             ∧ rooms (next joined) !! inviteRoomId invite = Some j
             ∧ members a = pushUnique actorId (members room)
             ∧ members j = pushUnique actorId (members room)))
  ∧ (isStreamMode room = true → actorId ∉ members room →
     (2 ≤ length (members room))%nat →
     refusal accepted = Some "Streaming room is full"
     ∧ refusal joined
       = Some (if locked room then "Room is locked" else "Streaming room is full")).
Proof.
  intros Hinv Hto Hacc Hkey Hspec Hroom accepted joined.
  pose proof (invite_accept_cases actorId pi st invite room Hinv Hto Hacc Hroom) as Ha.
  rewrite <- Hkey in Hroom.
  pose proof (room_join_cases actorId pj st room Hroom) as Hj.
  cbv zeta in Ha, Hj. fold accepted in Ha. fold joined in Hj.
  rewrite Hspec in Hj. rewrite Hkey in Hj. split.
  - intros Hcase.
    assert (isStreamMode room && negb (includes actorId (members room)) = false) as Hs.
    { destruct Hcase as [-> | Hm]; [done |].
      rewrite (proj2 (includes_true _ _) Hm). by rewrite andb_false_r. }
    rewrite Hs in Ha, Hj. cbn [andb negb] in Ha, Hj.
    destruct (locked room) eqn:Hl; cbn [andb] in Ha, Hj.
    + destruct (includes actorId (members room)) eqn:Hin; cbn [negb] in Ha, Hj.
      * apply includes_true in Hin. destruct Ha as [Ha1 Ha2], Hj as [Hj1 Hj2].
        rewrite Ha1, Hj1. split_and!; [done | | | by eauto 10].
        -- split; [done | by intros [_ ?]].
        -- split; [by intros _ [_ ?] | done].
      * apply includes_false in Hin. rewrite Ha, Hj, !refusal_fail.
        split_and!; [done | done | | done].
        split; [done | intros H; by destruct H].
    + destruct Ha as [Ha1 Ha2], Hj as [Hj1 Hj2].
      rewrite Ha1, Hj1. split_and!; [done | | | by eauto 10].
      * split; [done | by intros [? _]].
      * split; [by intros _ [? _] | done].
  - intros Hs Hm Hlen.
    rewrite Hs, (proj2 (includes_false _ _) Hm), (bool_decide_eq_true_2 _ Hlen) in Ha.
    rewrite Hs, (proj2 (includes_false _ _) Hm) in Hj.
    cbn [andb negb] in Ha, Hj. rewrite Ha, refusal_fail. split; [done |].
    destruct (locked room); cbn [andb] in Hj; by rewrite Hj, refusal_fail.
Qed.

(** C3. The claim fails on the code: in a state the server reaches, the
    room of the invite is in stream mode with the host alone and is not
    locked.  The invited user, who is not a member, is refused by
    [room:join] as a player ("Streaming room is full"), and is let in by
    accepting the invite: the user becomes a member and the sender is told,
    with the room id.  So the invite path does not apply the capacity rule
    as the join path does. *)
Theorem invite_accept_not_as_join :
  reachable streamState
  ∧ rooms streamState !! "ABCD1234" = Some streamRoom
  ∧ invites streamState !! uuid env2
    = Some (mkInvite (uuid env2) "u1" "u3" "ABCD1234" "smb" (now env2))
  ∧ isStreamMode streamRoom = true ∧ locked streamRoom = false
  ∧ members streamRoom = ["u1"]
  ∧ room_join "u3" joinAsPlayer streamState = fail streamState "Streaming room is full"
  ∧ reply (invite_respond "u3" acceptInvite streamState) = Some (Ok (PRoomId "ABCD1234"))
  ∧ members <$> rooms (next (invite_respond "u3" acceptInvite streamState)) !! "ABCD1234"
    = Some ["u1"; "u3"]
  ∧ EventTo "u1" (InviteAccepted (uuid env2) "u3" "ABCD1234")
    ∈ outs (invite_respond "u3" acceptInvite streamState).
Proof.
  split; [apply reachable_run; constructor |].
  split; [vm_compute; reflexivity |].
  split; [vm_compute; reflexivity |].
  split; [reflexivity |]. split; [reflexivity |]. split; [reflexivity |].
  split; [vm_compute; reflexivity |].
  split; [vm_compute; reflexivity |].
  split; [vm_compute; reflexivity |].
  apply list_elem_of_In. vm_compute. tauto.
Qed.

(** A player who is not in a room in stream mode is never let in by
    [room:join], however many players the room has. *)
Lemma stream_join_refused actorId p st room :
  rooms st !! toUpperCase (trim (p_roomId p)) = Some room →
  isStreamMode room = true → actorId ∉ members room → p_spectator p = false →
  room_join actorId p st
  = fail st (if locked room then "Room is locked" else "Streaming room is full").
Proof.
  intros Hroom Hs Hm Hsp. pose proof (room_join_cases actorId p st room Hroom) as H.
  cbv zeta in H. rewrite Hs, Hsp, (proj2 (includes_false _ _) Hm) in H.
  by destruct (locked room).
Qed.

(** C4. The claim fails on the code: in a state the server reaches, the room
    is in stream mode with one player, the host; a user who is not a member
    asks to join as a player and is refused with "Streaming room is full". *)
Theorem stream_join_below_capacity :
  reachable streamState
  ∧ rooms streamState !! "ABCD1234" = Some streamRoom
  ∧ isStreamMode streamRoom = true
  ∧ players streamRoom = ["u1"]
  ∧ ("u3" ∉ members streamRoom)
  ∧ room_join "u3" joinAsPlayer streamState = fail streamState "Streaming room is full".
Proof.
  split_and!.
  - apply reachable_run. constructor.
  - vm_compute. reflexivity.
  - reflexivity.
  - vm_compute. reflexivity.
  - apply (bool_decide_unpack _). vm_compute. exact I.
  - vm_compute. reflexivity.
Qed.

(** ** The lockstep loops *)

Lemma applyMaskToPlayer_no_frame player previous nextMask f :
  NesLoop.Frame f ∉ NesLoop.applyMaskToPlayer player previous nextMask.
Proof.
  unfold NesLoop.applyMaskToPlayer. intros Hin.
  apply list_elem_of_In, in_flat_map in Hin.
  destruct Hin as ([bit button] & _ & Hin). apply list_elem_of_In in Hin.
  destruct (Bool.eqb _ _); [by apply elem_of_nil in Hin |].
  destruct (negb _); apply list_elem_of_singleton in Hin; discriminate.
Qed.

(** The planning loop leaves the frame counter and the remote buffer alone
    and steps no frame. *)
Lemma planLoop_spec fuel e :
  NesLoop.currentFrame (NesLoop.planLoop fuel e).1 = NesLoop.currentFrame e
  ∧ NesLoop.remoteStateByFrame (NesLoop.planLoop fuel e).1 = NesLoop.remoteStateByFrame e
  ∧ ∀ f, NesLoop.Frame f ∉ (NesLoop.planLoop fuel e).2.
Proof.
  revert e. induction fuel as [| k IH]; intros e; simpl.
  - split_and!; [done | done | intros f Hf; by apply elem_of_nil in Hf].
  - destruct (_ <=? _)%Z; simpl;
      [| split_and!; [done | done | intros f Hf; by apply elem_of_nil in Hf]].
    match goal with |- context [NesLoop.planLoop k ?x] =>
      specialize (IH x); destruct (NesLoop.planLoop k x) as [e' effects] end.
    simpl in *. destruct IH as (H1 & H2 & H3). split_and!; [done | done |].
    intros f Hf. apply elem_of_cons in Hf as [Hf | Hf]; [done | by apply (H3 f)].
Qed.

(** The loop has fuel for every frame still to plan: when it stops, the
    local input is planned beyond the delay. *)
Lemma planLoop_done fuel e :
  (Z.to_nat (NesLoop.currentFrame e + LOCKSTEP_INPUT_DELAY_FRAMES + 1
             - NesLoop.plannedLocalFrame e) ≤ fuel)%nat →
  (NesLoop.currentFrame e + LOCKSTEP_INPUT_DELAY_FRAMES
   < NesLoop.plannedLocalFrame (NesLoop.planLoop fuel e).1)%Z.
Proof.
  revert e. induction fuel as [| k IH]; intros e Hfuel; simpl.
  - lia.
  - destruct (_ <=? _)%Z eqn:Hle; simpl; [| apply Z.leb_gt in Hle; lia].
    apply Z.leb_le in Hle.
    match goal with |- context [NesLoop.planLoop k ?x] =>
      specialize (IH x); destruct (NesLoop.planLoop k x) as [e' effects] eqn:E end.
    simpl in *. apply IH. lia.
Qed.

(** The stepping loop: the buffers stay as they are, and the frames it
    steps are those from the frame counter before to the one after; each
    had both masks. *)
Lemma advance_spec b fuel e :
  let e' := (NesLoop.advance b fuel e).1 in
  let effects := (NesLoop.advance b fuel e).2 in
  NesLoop.localStateByFrame e' = NesLoop.localStateByFrame e
  ∧ NesLoop.remoteStateByFrame e' = NesLoop.remoteStateByFrame e
  ∧ (NesLoop.currentFrame e ≤ NesLoop.currentFrame e' ≤ NesLoop.currentFrame e + Z.of_nat fuel)%Z
  ∧ (∀ f, NesLoop.Frame f ∈ effects
          ↔ (NesLoop.currentFrame e ≤ f < NesLoop.currentFrame e')%Z)
  ∧ (∀ f, (NesLoop.currentFrame e ≤ f < NesLoop.currentFrame e')%Z →
          is_Some (NesLoop.localStateByFrame e !! f)
          ∧ is_Some (NesLoop.remoteStateByFrame e !! f))
  ∧ (fuel ≠ 0%nat →
     is_Some (NesLoop.localStateByFrame e !! NesLoop.currentFrame e) →
     is_Some (NesLoop.remoteStateByFrame e !! NesLoop.currentFrame e) →
     (NesLoop.currentFrame e < NesLoop.currentFrame e')%Z).
Proof.
  revert e. induction fuel as [| k IH]; intros e; cbn [NesLoop.advance].
  - simpl. split_and!; try done; try lia.
    intros f. split; [intros Hf; by apply elem_of_nil in Hf | lia].
  - destruct (NesLoop.localStateByFrame e !! NesLoop.currentFrame e) as [lm |] eqn:Hl;
      [destruct (NesLoop.remoteStateByFrame e !! NesLoop.currentFrame e) as [rm |] eqn:Hr |].
    2,3: simpl; (split_and!; try done; try lia);
         try (intros _ [? Hx] [? Hy]; congruence);
         intros f; (split; [intros Hf; by apply elem_of_nil in Hf | lia]).
    match goal with |- context [NesLoop.advance b k ?x] =>
      specialize (IH x); destruct (NesLoop.advance b k x) as [e' effects] eqn:E end.
    cbv zeta in IH. cbn [fst snd] in *.
    cbn [NesLoop.localStateByFrame NesLoop.remoteStateByFrame NesLoop.currentFrame] in IH.
    destruct IH as (H1 & H2 & H3 & H4 & H5 & _).
    split_and!; try done; try lia.
    + intros f. rewrite !elem_of_app, elem_of_cons, H4. split.
      * intros [Hf | [Hf | [[= ->] | Hf]]]; try lia;
          by apply applyMaskToPlayer_no_frame in Hf.
      * intros Hf. destruct (decide (f = NesLoop.currentFrame e)) as [-> | Hne].
        -- right; right; by left.
        -- right; right; right. lia.
    + intros f Hf. destruct (decide (f = NesLoop.currentFrame e)) as [-> | Hne].
      * by rewrite Hl, Hr.
      * apply H5. lia.
Qed.

Lemma currentFrame_prune e :
  NesLoop.currentFrame (NesLoop.prune e) = NesLoop.currentFrame e.
Proof. unfold NesLoop.prune. by case_match. Qed.

(** C1, as amended. One tick of the NES loop in lockstep play, running and
    not paused: a frame is stepped only with both its local and its remote
    mask in the buffers (the local one as planned in this tick); when either
    mask of the current frame is missing the tick steps no frame and leaves
    the frame counter; the frames stepped are those from the counter before
    to the counter after, two at most, and the current one is stepped when
    both its masks are there.  One tick of the SNES view in lockstep play,
    with a session and not paused, has no such gate: it always adds one to
    its frame counter, taking each mask from the buffer when it is there and
    the mask applied before when it is not. *)
Theorem lockstep_gate (e : NesLoop.Engine) (isStreamHost : bool) (s : SnesView.Engine) :
  let planned := (NesLoop.plan e).1 in
  let e' := (NesLoop.loop true false true isStreamHost e).1 in
  let effects := (NesLoop.loop true false true isStreamHost e).2 in
  (∀ f, NesLoop.Frame f ∈ effects →
        is_Some (NesLoop.localStateByFrame planned !! f)
        ∧ is_Some (NesLoop.remoteStateByFrame e !! f))
  ∧ (NesLoop.localStateByFrame planned !! NesLoop.currentFrame e = None
     ∨ NesLoop.remoteStateByFrame e !! NesLoop.currentFrame e = None →
     NesLoop.currentFrame e' = NesLoop.currentFrame e
     ∧ ∀ f, NesLoop.Frame f ∉ effects)
  ∧ (∀ f, NesLoop.Frame f ∈ effects
          ↔ (NesLoop.currentFrame e ≤ f < NesLoop.currentFrame e')%Z)
  ∧ (NesLoop.currentFrame e' ≤ NesLoop.currentFrame e + 2)%Z
  ∧ (is_Some (NesLoop.localStateByFrame planned !! NesLoop.currentFrame e) →
     is_Some (NesLoop.remoteStateByFrame e !! NesLoop.currentFrame e) →
     NesLoop.Frame (NesLoop.currentFrame e) ∈ effects)
  ∧ (let s' := (SnesView.applyStates true false true s).1 in
     SnesView.currentFrame s' = (SnesView.currentFrame s + 1)%Z
     ∧ SnesView.previousLocalAppliedState s'
       = default (SnesView.previousLocalAppliedState s)
                 (SnesView.localStateByFrame s !! SnesView.currentFrame s)
     ∧ SnesView.previousRemoteAppliedState s'
       = default (SnesView.previousRemoteAppliedState s)
                 (SnesView.remoteStateByFrame s !! SnesView.currentFrame s)).
Proof.
  intros planned e' effects.
  assert (e' = NesLoop.prune (NesLoop.advance true 2 planned).1
          ∧ effects = (NesLoop.plan e).2 ++ (NesLoop.advance true 2 planned).2
                      ++ [NesLoop.RequestAnimationFrame]) as [He' Heff].
  { unfold e', effects, planned, NesLoop.loop, NesLoop.lockstepTick. cbn [negb].
    destruct (NesLoop.plan e) as [e1 sent]. cbn [fst snd].
    destruct (NesLoop.advance true 2 e1) as [e2 applied]. cbn [fst snd].
    by rewrite <- app_assoc. }
  destruct (planLoop_spec
              (Z.to_nat (NesLoop.currentFrame e + LOCKSTEP_INPUT_DELAY_FRAMES + 1
                         - NesLoop.plannedLocalFrame e)) e) as (Hcur & Hrem & Hsent).
  fold (NesLoop.plan e) in Hcur, Hrem, Hsent. fold planned in Hcur, Hrem.
  destruct (advance_spec true 2 planned)
    as (Hl & Hr & Hrange & Hframes & Hboth & Hprogress).
  assert (∀ f, NesLoop.Frame f ∈ effects
               ↔ (NesLoop.currentFrame e ≤ f < NesLoop.currentFrame e')%Z) as Hiff.
  { intros f. rewrite Heff, He', currentFrame_prune, !elem_of_app, Hframes, Hcur.
    split; [| by auto]. intros [H | [H | H]]; [by apply Hsent in H | done |].
    apply list_elem_of_singleton in H. discriminate. }
  split_and!.
  - intros f Hf. apply Hiff in Hf. rewrite <- Hrem. apply Hboth.
    rewrite He', currentFrame_prune in Hf. by rewrite Hcur.
  - intros Hmissing.
    assert (NesLoop.currentFrame e' = NesLoop.currentFrame e) as Hsame.
    { rewrite He', currentFrame_prune.
      destruct (decide (NesLoop.currentFrame (NesLoop.advance true 2 planned).1
                        = NesLoop.currentFrame e)) as [| Hne]; [done |].
      destruct (Hboth (NesLoop.currentFrame e)) as [[? Hx] [? Hy]]; [lia |].
      rewrite Hrem in Hy. destruct Hmissing; congruence. }
    split; [done |]. intros f Hf. apply Hiff in Hf. lia.
  - done.
  - rewrite He', currentFrame_prune. lia.
  - intros Hx Hy. apply Hiff. rewrite He', currentFrame_prune.
    rewrite <- Hcur in Hx. rewrite <- Hrem, <- Hcur in Hy.
    specialize (Hprogress ltac:(done) Hx Hy). lia.
  - unfold SnesView.applyStates. cbn [negb fst].
    cbn [SnesView.currentFrame SnesView.previousLocalAppliedState
         SnesView.previousRemoteAppliedState].
    split_and!; [done | by destruct (_ !! _) | by destruct (_ !! _)].
Qed.

Lemma lockstep_gate_witness :
  NesLoop.currentFrame (NesLoop.loop true false true false (NesLoop.start 1)).1
  = NesLoop.currentFrame (NesLoop.start 1).
Proof.
  apply (proj1 (proj2 (lockstep_gate (NesLoop.start 1) false (SnesView.initial 1)))).
  right. reflexivity.
Defined.

(** Counterexample to C1 as stated, on the SNES view: at its first tick,
    with both buffers empty, [applyStates] moves on to frame 1. *)
Lemma snes_tick_without_input :
  SnesView.localStateByFrame (SnesView.initial 1)
    !! SnesView.currentFrame (SnesView.initial 1) = None
  ∧ SnesView.remoteStateByFrame (SnesView.initial 1)
      !! SnesView.currentFrame (SnesView.initial 1) = None
  ∧ SnesView.applyStates true false true (SnesView.initial 1)
    = (SnesView.mkEngine 1 0 0 0 1 0 ∅ ∅,
       [SnesView.SetInput SnesView.createDefaultInput SnesView.createDefaultInput;
        SnesView.RequestAnimationFrame]).
Proof. split_and!; reflexivity. Qed.

(** ** More invariants of the room table *)

Lemma listsInOrder_roomStep room room' :
  roomStep room room' → listsInOrder room → listsInOrder room'.
Proof.
  intros Hs (Hm & Hsp & Hr & Hsub). destruct Hs as
    [actorId [] room | message room | actorId ready room Hin Hns | flag room
    | id room Hne Hin | target room Hin | s room | actorId room
    | id room room' Hrem]; try done.
  - split_and!; simpl; try done; try by apply NoDup_pushUnique.
    intros x Hx. apply elem_of_pushUnique in Hx as [-> | Hx];
      apply elem_of_pushUnique; [by left | right; by apply Hsub].
  - split_and!; simpl; try done;
      [by apply NoDup_pushUnique | by apply NoDup_filter |].
    intros x Hx. apply elem_of_without in Hx as [_ Hx].
    apply elem_of_pushUnique. right. by apply Hsub.
  - split_and!; simpl; try done.
    destruct ready; [apply NoDup_pushUnique |]; by repeat apply NoDup_filter.
  - split_and!; simpl; try done; try by apply NoDup_filter.
    intros x Hx. apply elem_of_without in Hx as [Hne' Hx].
    apply elem_of_without. split; [done | by apply Hsub].
  - split_and!; simpl; try done; [by apply NoDup_pushUnique |].
    intros x Hx. apply elem_of_pushUnique. right. by apply Hsub.
  - apply removeUserFromRoom_Some in Hrem
      as [[_ ->] | (_ & Hmem & Hspec & Hready & _)]; [done |].
    unfold listsInOrder. rewrite Hmem, Hspec, Hready.
    split_and!; try by apply NoDup_filter.
    intros x Hx. apply elem_of_without in Hx as [Hne' Hx].
    apply elem_of_without. split; [done | by apply Hsub].
Qed.

Lemma listsInOrder_created room : created room → listsInOrder room.
Proof.
  intros (id & host & game & ->). unfold listsInOrder. simpl.
  split_and!; [apply NoDup_singleton | apply NoDup_nil_2 | apply NoDup_nil_2 |].
  intros x Hx. by apply elem_of_nil in Hx.
Qed.

Lemma listsInOrder_reachable st :
  reachable st → map_Forall (λ _, listsInOrder) (rooms st).
Proof.
  apply room_invariant_reachable; [apply listsInOrder_created | apply listsInOrder_roomStep].
Qed.

(** X1. In every state the server reaches, a room is found under its own
    id and has at least one member; it lists a user at most once in
    [members], in [spectators] and in [readyByUserId]; and its spectators
    and its ready users are members. *)
Theorem room_lists_in_order st k room :
  reachable st → rooms st !! k = Some room →
  roomId room = k
  ∧ members room ≠ []
  ∧ NoDup (members room) ∧ NoDup (spectators room) ∧ NoDup (readyByUserId room)
  ∧ spectators room ⊆ members room
  ∧ readyByUserId room ⊆ members room.
Proof.
  intros Hreach Hk.
  destruct (listsInOrder_reachable st Hreach k room Hk) as (H1 & H2 & H3 & H4).
  split_and!; try done.
  - by apply (roomId_is_key st Hreach k room).
  - pose proof (hostIsMember_reachable st Hreach k room Hk) as Hhost. simpl in Hhost.
    intros Hnil. rewrite Hnil in Hhost. by apply elem_of_nil in Hhost.
  - by apply (readyAreMembers_reachable st Hreach k room).
Qed.

Lemma room_lists_in_order_witness :
  roomId lobbyRoom = "ABCD1234" ∧ NoDup (readyByUserId lobbyRoom).
Proof.
  destruct (room_lists_in_order lobbyState "ABCD1234" lobbyRoom)
    as (H1 & _ & _ & _ & H2 & _).
  - apply reachable_run. constructor.
  - vm_compute. reflexivity.
  - by split.
Defined.

(** ** Kicking, closing and leaving *)

Lemma eventsTo_app user l1 l2 :
  eventsTo user (l1 ++ l2) = eventsTo user l1 ++ eventsTo user l2.
Proof. apply omap_app. Qed.

Lemma eventsTo_event user v e l :
  eventsTo user (EventTo v e :: l)
  = if decide (v = user) then e :: eventsTo user l else eventsTo user l.
Proof. unfold eventsTo. simpl. by destruct (decide (v = user)). Qed.

Lemma eventsTo_response user r l : eventsTo user (Response r :: l) = eventsTo user l.
Proof. done. Qed.

Lemma eventsTo_absent user e (l : list string) :
  user ∉ l → eventsTo user ((λ m, EventTo m e) <$> l) = [].
Proof.
  induction l as [| m l IH]; intros Hnin; [done |].
  apply not_elem_of_cons in Hnin as [Hne Hnin]. rewrite fmap_cons, eventsTo_event.
  rewrite decide_False by done. by apply IH.
Qed.

Lemma eventsTo_once user e (l : list string) :
  NoDup l → user ∈ l → eventsTo user ((λ m, EventTo m e) <$> l) = [e].
Proof.
  induction l as [| m l IH]; intros Hnd Hin; [by apply elem_of_nil in Hin |].
  apply NoDup_cons in Hnd as [Hm Hnd]. rewrite fmap_cons, eventsTo_event.
  destruct (decide (m = user)) as [-> | Hne].
  - f_equal. by apply eventsTo_absent.
  - apply elem_of_cons in Hin as [-> | Hin]; [done |]. by apply IH.
Qed.

Lemma eventsTo_room_absent user room e exclude :
  user ∉ members room → eventsTo user (sendEventToRoom room e exclude) = [].
Proof.
  intros Hnin. unfold sendEventToRoom. apply eventsTo_absent.
  intros Hin. by apply list_elem_of_filter in Hin as [_ ?].
Qed.

Lemma eventsTo_room_once user room e :
  NoDup (members room) → user ∈ members room →
  eventsTo user (sendEventToRoom room e None) = [e].
Proof. intros Hnd Hin. rewrite sendEventToRoom_all. by apply eventsTo_once. Qed.

Lemma members_stripMember id room : members (stripMember id room) = without id (members room).
Proof. done. Qed.

(** What [stripMember] leaves: the user is in none of the three lists, and
    for everybody else membership and spectator status are as before. *)
Lemma stripMember_spec id room :
  let room' := stripMember id room in
  members room' = without id (members room)
  ∧ spectators room' = without id (spectators room)
  ∧ (id ∉ members room') ∧ (id ∉ spectators room') ∧ (id ∉ readyByUserId room')
  ∧ hostUserId room' = hostUserId room
  ∧ locked room' = locked room ∧ session room' = session room
  ∧ chat room' = chat room ∧ roomId room' = roomId room
  ∧ ∀ x, x ∈ readyByUserId room'
         ↔ x ≠ id ∧ x ∈ members room ∧ x ∈ readyByUserId room.
Proof.
  simpl. split_and!; try done.
  - intros H. by apply elem_of_without in H as [? _].
  - intros H. by apply elem_of_without in H as [? _].
  - intros H. by apply list_elem_of_filter in H as [[? _] _].
  - intros x. rewrite list_elem_of_filter, elem_of_without. tauto.
Qed.

(** X2. [room:kick] in a room that exists: only the host may kick, the
    target must be named, must not be the host and must be a member.  A
    kick removes the target from [members], [spectators] and
    [readyByUserId], keeps the host, everybody else and the other rooms,
    and addresses to the target one [room:kicked] event and no other of the
    events modelled. *)
Theorem kick_removes_target actorId p st room :
  rooms st !! toUpperCase (trim (p_roomId p)) = Some room →
  let key := toUpperCase (trim (p_roomId p)) in
  let target := trim (p_targetUserId p) in
  let result := room_kick actorId p st in
  let room' := stripMember target room in
  (hostUserId room ≠ actorId → result = fail st "Only host can kick")
  ∧ (hostUserId room = actorId → target = "" ∨ target = actorId →
     result = fail st "Invalid target user")
  ∧ (hostUserId room = actorId → target ≠ "" → target ≠ actorId →
     target ∉ members room →
     result = fail st "Target user is not in room")
  ∧ (hostUserId room = actorId → target ≠ "" → target ≠ actorId →
     target ∈ members room →
     rooms (next result) = <[key := room']> (rooms st)
     ∧ users (next result) = users st ∧ invites (next result) = invites st
     ∧ (target ∉ members room')
     ∧ (target ∉ spectators room')
     ∧ (target ∉ readyByUserId room')
     ∧ hostUserId room' = actorId
     ∧ (∀ x, x ≠ target →
             (x ∈ members room' ↔ x ∈ members room)
             ∧ (x ∈ spectators room' ↔ x ∈ spectators room))
     ∧ eventsTo target (outs result) = [RoomKicked (roomId room) actorId]
     ∧ reply result = Some (Ok (PRoomState (roomStatePayload room')))).
Proof.
  intros Hroom key target result room'. unfold result, room_kick. rewrite Hroom.
  fold target. split_and!.
  - intros Hne. by rewrite bool_decide_eq_false_2.
  - intros Hhost Hbad. rewrite (bool_decide_eq_true_2 _ Hhost). cbn [negb].
    destruct Hbad as [-> | ->]; [done |].
    rewrite (bool_decide_eq_true_2 (actorId = actorId)) by done. by rewrite orb_true_r.
  - intros Hhost Hne1 Hne2 Hnin. rewrite (bool_decide_eq_true_2 _ Hhost). cbn [negb].
    unfold falsy. rewrite !bool_decide_eq_false_2 by done. cbn [orb].
    by rewrite (proj2 (includes_false _ _) Hnin).
  - intros Hhost Hne1 Hne2 Hin. rewrite (bool_decide_eq_true_2 _ Hhost). cbn [negb].
    unfold falsy. rewrite !bool_decide_eq_false_2 by done. cbn [orb].
    rewrite (proj2 (includes_true _ _) Hin).
    cbn [negb outs next rooms users invites setRooms]. fold room'.
    destruct (stripMember_spec target room)
      as (Hm & Hs & H1 & H2 & H3 & Hh & _ & _ & _ & Hid & _).
    fold room' in Hm, Hs, H1, H2, H3, Hh, Hid.
    split; [done |]. split; [done |]. split; [done |].
    split; [done |]. split; [done |]. split; [done |].
    split; [by rewrite Hh |]. split; [| split].
    + intros x Hx. rewrite Hm, Hs, !elem_of_without. tauto.
    + rewrite eventsTo_event, decide_True by done.
      rewrite eventsTo_app, Hid. unfold emitRoomUpdate.
      by rewrite (eventsTo_room_absent _ _ _ _ H1).
    + change (EventTo target (RoomKicked (roomId room') actorId) :: emitRoomUpdate room'
                ++ [Response (Ok (PRoomState (roomStatePayload room')))])
        with ((EventTo target (RoomKicked (roomId room') actorId) :: emitRoomUpdate room')
                ++ [Response (Ok (PRoomState (roomStatePayload room')))]).
      apply reply_after_events. constructor; [done | apply sendEventToRoom_events].
Qed.

Lemma kick_removes_target_witness :
  eventsTo "u2" (outs (room_kick "u1" (targeting "abcd1234" "u2") lobbyState))
  = [RoomKicked "ABCD1234" "u1"].
Proof.
  destruct (kick_removes_target "u1" (targeting "abcd1234" "u2") lobbyState lobbyRoom)
    as (_ & _ & _ & Hkick).
  - vm_compute. reflexivity.
  - destruct Hkick as (_ & _ & _ & _ & _ & _ & _ & _ & Hevents & _).
    + reflexivity.
    + vm_compute. discriminate.
    + vm_compute. discriminate.
    + apply (bool_decide_unpack _). vm_compute. exact I.
    + exact Hevents.
Defined.

(** X3. [room:close] by a member of a room that exists under an id that is
    not empty, in a state the server reaches.  From the host it deletes the
    room, so that the id names no room afterwards; of the events modelled,
    one [room:closed] and nothing else is addressed to every other member,
    and nothing to the host.  From another member it removes that member
    only: the room stays under its id with its host and the other members,
    and no [room:closed] is sent. *)
Theorem close_by_member actorId p st room :
  reachable st →
  toUpperCase (trim (p_roomId p)) ≠ "" →
  rooms st !! toUpperCase (trim (p_roomId p)) = Some room →
  actorId ∈ members room →
  let key := toUpperCase (trim (p_roomId p)) in
  let result := room_close actorId p st in
  reply result = Some (Ok (PClosed true))
  ∧ (hostUserId room = actorId →
     rooms (next result) = delete key (rooms st)
     ∧ (∀ anyone q, toUpperCase (trim (p_roomId q)) = key →
          room_state anyone q (next result) = fail (next result) "Room not found")
     ∧ (∀ m, m ∈ members room → m ≠ actorId →
          eventsTo m (outs result) = [RoomClosed key])
     ∧ eventsTo actorId (outs result) = [])
  ∧ (hostUserId room ≠ actorId →
     rooms (next result) = <[key := stripMember actorId room]> (rooms st)
     ∧ members (stripMember actorId room) = without actorId (members room)
     ∧ hostUserId (stripMember actorId room) = hostUserId room
     ∧ hostUserId room ∈ members (stripMember actorId room)
     ∧ (∀ m, RoomClosed key ∉ eventsTo m (outs result))).
Proof.
  intros Hreach Hkey Hroom Hin key result.
  pose proof (roomId_is_key st Hreach _ _ Hroom) as Hid. simpl in Hid.
  pose proof (hostIsMember_reachable st Hreach _ _ Hroom) as Hhost. simpl in Hhost.
  pose proof (membersDistinct_reachable st Hreach _ _ Hroom) as Hnd. simpl in Hnd.
  unfold result, room_close, key. unfold falsy.
  rewrite (bool_decide_eq_false_2 _ Hkey), Hroom, (proj2 (includes_true _ _) Hin).
  cbn [negb]. split_and!.
  - case_bool_decide; cbn [outs].
    + apply reply_after_events. apply Forall_fmap, Forall_forall. by intros m _.
    + apply reply_after_events, sendEventToRoom_events.
  - intros Hh. rewrite (bool_decide_eq_true_2 _ Hh). cbn [outs next rooms setRooms].
    rewrite Hid. split_and!; [done | | |].
    + intros anyone q Hq. unfold room_state. rewrite Hq. cbn [rooms setRooms].
      by rewrite lookup_delete_eq.
    + intros m Hm Hne. rewrite eventsTo_app, app_nil_r. apply eventsTo_once.
      * by apply NoDup_filter.
      * apply list_elem_of_filter. done.
    + rewrite eventsTo_app, app_nil_r. apply eventsTo_absent.
      intros H. by apply list_elem_of_filter in H as [? _].
  - intros Hh. rewrite (bool_decide_eq_false_2 _ Hh). cbn [outs next rooms setRooms].
    split_and!; [done | done | done | |].
    + apply elem_of_without. split; [done | done].
    + intros m Hm. rewrite eventsTo_app, app_nil_r in Hm. unfold emitRoomUpdate in Hm.
      unfold sendEventToRoom, eventsTo in Hm. apply list_elem_of_omap in Hm as (o & Ho & Hm).
      apply list_elem_of_fmap in Ho as (x & -> & _). by case_decide.
Qed.

Lemma close_by_member_witness :
  rooms (next (room_close "u1" (onRoom "abcd1234" false false "" "") lobbyState))
  = delete "ABCD1234" (rooms lobbyState).
Proof.
  destruct (close_by_member "u1" (onRoom "abcd1234" false false "" "") lobbyState lobbyRoom)
    as (_ & Hhost & _).
  - apply reachable_run. constructor.
  - vm_compute. discriminate.
  - vm_compute. reflexivity.
  - simpl. apply list_elem_of_here.
  - apply Hhost. reflexivity.
Defined.

Lemma without_absent x l : x ∉ l → without x l = l.
Proof.
  induction l as [| y l IH]; intros H; [done |].
  apply not_elem_of_cons in H as [Hne Hnin]. unfold without in *.
  rewrite filter_cons, decide_True by done. f_equal. by apply IH.
Qed.

(** X4. When the socket of a user closes, the user is in no room any more:
    every room that remains comes from a room that was there, without the
    user among its members and spectators, with the other members in their
    order; its host is the host as before, or, when the user was the host,
    the first member that remains; a room the user was alone in is gone; and
    the socket is bound to nobody. *)
Theorem leave_on_disconnect ws id st :
  socketUser st !! ws = Some id → id ≠ "" →
  let st' := on_close ws st in
  socketUser st' !! ws = None
  ∧ (∀ k room', rooms st' !! k = Some room' →
       (id ∉ members room')
       ∧ ∃ room, rooms st !! k = Some room
           ∧ members room' = without id (members room)
           ∧ (id ∈ members room → spectators room' = without id (spectators room))
           ∧ hostUserId room'
             = (if decide (hostUserId room = id ∧ id ∈ members room)
                then default id (head (without id (members room)))
                else hostUserId room))
  ∧ (∀ k room, rooms st !! k = Some room →
       (rooms st' !! k = None ↔ id ∈ members room ∧ without id (members room) = [])).
Proof.
  intros Hws Hid st'.
  assert (rooms st' = omap (removeUserFromRoom id) (rooms st)
          ∧ socketUser st' = delete ws (socketUser st)) as [Hrooms Hsock].
  { unfold st', on_close. rewrite Hws. unfold falsy.
    rewrite (bool_decide_eq_false_2 _ Hid). unfold removeUserFromRooms.
    cbn [rooms setRooms socketUser]. rewrite rooms_dropSocketUser.
    split; [done |]. unfold dropSocketUser. rewrite Hws. unfold falsy.
    rewrite (bool_decide_eq_false_2 _ Hid). by repeat case_match. }
  split_and!.
  - rewrite Hsock. apply lookup_delete_eq.
  - intros k room' Hk. rewrite Hrooms, lookup_omap in Hk.
    destruct (rooms st !! k) as [room |] eqn:E; [| done]. simpl in Hk.
    apply removeUserFromRoom_Some in Hk
      as [[Hnin ->] | (Hin & Hm & Hs & _ & _ & first & rest & Hw & Hh)].
    + split; [done |]. exists room. split_and!; [done | | done |].
      * by rewrite without_absent.
      * rewrite decide_False; [done | by intros [_ ?]].
    + split.
      * rewrite Hm. intros H. by apply elem_of_without in H as [? _].
      * exists room. split_and!; [done | done | done |].
        rewrite Hh, Hw. simpl. by repeat case_decide; try tauto.
  - intros k room Hk. rewrite Hrooms, lookup_omap, Hk. simpl.
    unfold removeUserFromRoom. destruct (includes id (members room)) eqn:E.
    + apply includes_true in E. simpl.
      destruct (without id (members room)) as [| first rest]; split; try done.
      by intros [_ ?].
    + apply includes_false in E. split; [done | by intros [? _]].
Qed.

Lemma leave_on_disconnect_witness : socketUser (on_close 2 lobbyState) !! 2 = None.
Proof.
  apply (proj1 (leave_on_disconnect 2 "u2" lobbyState
                  ltac:(vm_compute; reflexivity) ltac:(discriminate))).
Defined.

(** ** Locking and passing the host role *)

(** X5. [room:lock] in a room that exists: anybody but the host is refused
    and nothing changes; for the host the flag is set as asked and nothing
    else changes.  Once the host has locked the room, a [room:join] from a
    user who is not a member is refused with "Room is locked", while a
    member may still join again. *)
Theorem lock_is_for_the_host actorId p st room :
  rooms st !! toUpperCase (trim (p_roomId p)) = Some room →
  let key := toUpperCase (trim (p_roomId p)) in
  let result := room_lock actorId p st in
  (hostUserId room ≠ actorId → result = fail st "Only host can change lock")
  ∧ (hostUserId room = actorId →
     rooms (next result) = <[key := setLocked (p_locked p) room]> (rooms st)
     ∧ users (next result) = users st ∧ invites (next result) = invites st
     ∧ reply result
       = Some (Ok (PRoomState (roomStatePayload (setLocked (p_locked p) room))))
     ∧ ∀ joiner q, toUpperCase (trim (p_roomId q)) = key →
         (p_locked p = true → joiner ∉ members room →
          room_join joiner q (next result) = fail (next result) "Room is locked")
         ∧ (joiner ∈ members room → refusal (room_join joiner q (next result)) = None)).
Proof.
  intros Hroom key result. unfold result, room_lock. rewrite Hroom. split.
  - intros Hne. by rewrite bool_decide_eq_false_2.
  - intros Hhost. rewrite (bool_decide_eq_true_2 _ Hhost).
    cbn [negb outs next rooms users invites setRooms]. split_and!; try done.
    + apply reply_after_events, sendEventToRoom_events.
    + intros joiner q Hq.
      pose proof (room_join_cases joiner q
                    (setRooms (<[key := setLocked (p_locked p) room]> (rooms st)) st)
                    (setLocked (p_locked p) room)) as Hj.
      rewrite Hq in Hj. cbn [rooms setRooms] in Hj.
      specialize (Hj (lookup_insert_eq _ _ _)). cbv zeta in Hj.
      cbn [locked members setLocked] in Hj.
      change (isStreamMode (setLocked (p_locked p) room)) with (isStreamMode room) in Hj.
      split.
      * intros Hl Hnin. rewrite Hl in *.
        rewrite (proj2 (includes_false _ _) Hnin) in Hj. cbn [andb negb] in Hj. exact Hj.
      * intros Hin. rewrite (proj2 (includes_true _ _) Hin) in Hj.
        cbn [negb] in Hj. rewrite !andb_false_r in Hj. cbn [andb] in Hj. apply Hj.
Qed.

Lemma lock_is_for_the_host_witness :
  room_lock "u2" (locking "abcd1234" true) lobbyState
  = fail lobbyState "Only host can change lock".
Proof.
  apply (proj1 (lock_is_for_the_host "u2" (locking "abcd1234" true) lobbyState lobbyRoom
                  ltac:(vm_compute; reflexivity))).
  discriminate.
Defined.

(** X6. [room:transferHost] in a room that exists: only the host may ask,
    and the target must be a member.  Naming oneself succeeds and changes
    nothing.  Naming another member makes that member the host and changes
    nothing else; from then on the former host is refused by [room:lock]
    and the new host is not. *)
Theorem transfer_of_host actorId p st room :
  rooms st !! toUpperCase (trim (p_roomId p)) = Some room →
  let key := toUpperCase (trim (p_roomId p)) in
  let target := trim (p_targetUserId p) in
  let result := room_transferHost actorId p st in
  (hostUserId room ≠ actorId → result = fail st "Only host can transfer host")
  ∧ (hostUserId room = actorId → target = "" ∨ target ∉ members room →
     result = fail st "Target user is not in room")
  ∧ (hostUserId room = actorId → target ≠ "" → target ∈ members room →
     target = actorId →
     result = mkResult [Response (Ok (PRoomState (roomStatePayload room)))] st)
  ∧ (hostUserId room = actorId → target ≠ "" → target ∈ members room →
     target ≠ actorId →
     rooms (next result) = <[key := setHostUserId target room]> (rooms st)
     ∧ users (next result) = users st ∧ invites (next result) = invites st
     ∧ members (setHostUserId target room) = members room
     ∧ ∀ q, toUpperCase (trim (p_roomId q)) = key →
         room_lock actorId q (next result)
         = fail (next result) "Only host can change lock"
         ∧ refusal (room_lock target q (next result)) = None).
Proof.
  intros Hroom key target result. unfold result, room_transferHost. rewrite Hroom.
  fold target. split_and!.
  - intros Hne. by rewrite bool_decide_eq_false_2.
  - intros Hhost Hbad. rewrite (bool_decide_eq_true_2 _ Hhost). cbn [negb].
    destruct Hbad as [-> | Hnin]; [done |].
    rewrite (proj2 (includes_false _ _) Hnin). by rewrite orb_true_r.
  - intros Hhost Hne Hin ->. rewrite (bool_decide_eq_true_2 _ Hhost). cbn [negb].
    unfold falsy. rewrite (bool_decide_eq_false_2 _ Hne).
    rewrite (proj2 (includes_true _ _) Hin). cbn [negb orb].
    by rewrite bool_decide_eq_true_2.
  - intros Hhost Hne Hin Hother. rewrite (bool_decide_eq_true_2 _ Hhost). cbn [negb].
    unfold falsy. rewrite (bool_decide_eq_false_2 _ Hne).
    rewrite (proj2 (includes_true _ _) Hin). cbn [negb orb].
    rewrite (bool_decide_eq_false_2 _ Hother).
    cbn [outs next rooms users invites setRooms]. split_and!; try done.
    intros q Hq. unfold room_lock. rewrite Hq. cbn [rooms setRooms].
    rewrite lookup_insert_eq. cbn [hostUserId setHostUserId]. split.
    + by rewrite (bool_decide_eq_false_2 (target = actorId)).
    + rewrite (bool_decide_eq_true_2 (target = target)) by done. cbn [negb].
      unfold refusal. by rewrite reply_after_events by apply sendEventToRoom_events.
Qed.

Lemma transfer_of_host_witness :
  rooms (next (room_transferHost "u1" (targeting "abcd1234" "u2") lobbyState))
  = <["ABCD1234" := setHostUserId "u2" lobbyRoom]> (rooms lobbyState).
Proof.
  destruct (transfer_of_host "u1" (targeting "abcd1234" "u2") lobbyState lobbyRoom)
    as (_ & _ & _ & Hok).
  - vm_compute. reflexivity.
  - apply Hok.
    + reflexivity.
    + vm_compute. discriminate.
    + apply (bool_decide_unpack _). vm_compute. exact I.
    + vm_compute. discriminate.
Defined.

(** ** Creating and joining *)

Lemma without_idem x l : without x (without x l) = without x l.
Proof.
  apply without_absent. intros H. by apply elem_of_without in H as [? _].
Qed.

Lemma pushUnique_present x l : x ∈ l → pushUnique x l = l.
Proof. intros H. unfold pushUnique. by rewrite (proj2 (includes_true _ _) H). Qed.

Lemma pushUnique_idem x l : pushUnique x (pushUnique x l) = pushUnique x l.
Proof. apply pushUnique_present, elem_of_pushUnique. by left. Qed.

Lemma joinAs_idem actorId flag room :
  joinAs actorId flag (joinAs actorId flag room) = joinAs actorId flag room.
Proof.
  destruct room as [a b c m sp l r ch se]. unfold joinAs. destruct flag; simpl;
    unfold setSpectators, setMembers; simpl;
    by rewrite ?pushUnique_idem, ?without_idem.
Qed.

(** X7. [room:create]: an empty game id is refused.  Otherwise the room is
    stored under the first eight characters of the fresh id, in upper case,
    with the actor as host and only member, no spectator, nobody ready, not
    locked, an empty chat and no session; the other rooms are as before, and
    a [room:state] from the actor for that id answers with this room. *)
Theorem create_then_state env actorId p st :
  let key := toUpperCase (sliceTo 8 (uuid env)) in
  let room := mkRoom key actorId (trim (p_gameId p)) [actorId] [] false [] [] None in
  let result := room_create env actorId p st in
  (trim (p_gameId p) = "" → result = fail st "gameId is required")
  ∧ (trim (p_gameId p) ≠ "" →
     outs result = [Response (Ok (PRoomState (roomStatePayload room)))]
     ∧ rooms (next result) !! key = Some room
     ∧ (∀ k, k ≠ key → rooms (next result) !! k = rooms st !! k)
     ∧ users (next result) = users st ∧ invites (next result) = invites st
     ∧ ∀ q, toUpperCase (trim (p_roomId q)) = key →
         room_state actorId q (next result)
         = mkResult [Response (Ok (PRoomState (roomStatePayload room)))] (next result)).
Proof.
  intros key room result. unfold result, room_create, falsy. split.
  - intros Hg. by rewrite (bool_decide_eq_true_2 _ Hg).
  - intros Hg. rewrite (bool_decide_eq_false_2 _ Hg).
    cbn [outs next rooms users invites setRooms]. fold key. fold room.
    split_and!; try done.
    + apply lookup_insert_eq.
    + intros k Hk. by rewrite lookup_insert_ne.
    + intros q Hq. unfold room_state. rewrite Hq. cbn [rooms setRooms].
      rewrite lookup_insert_eq. unfold room at 1. cbn [members].
      assert (includes actorId [actorId] = true) as ->; [| done].
      apply includes_true, list_elem_of_here.
Qed.

Lemma create_then_state_witness :
  rooms (next (room_create env2 "u2" (onRoom "" false false "smb" "") lobbyState))
    !! "FFFF0000"
  = Some (mkRoom "FFFF0000" "u2" "smb" ["u2"] [] false [] [] None).
Proof.
  destruct (create_then_state env2 "u2" (onRoom "" false false "smb" "") lobbyState)
    as [_ Hok].
  destruct Hok as (_ & Hroom & _).
  - vm_compute. discriminate.
  - exact Hroom.
Defined.

(** What a [room:join] that is not refused returns. *)
Lemma room_join_let_in actorId p st room :
  rooms st !! toUpperCase (trim (p_roomId p)) = Some room →
  refusal (room_join actorId p st) = None →
  room_join actorId p st
  = mkResult (Response (Ok (PRoomState (roomStatePayload
                                          (joinAs actorId (p_spectator p) room))))
                :: emitRoomUpdate (joinAs actorId (p_spectator p) room)
                ++ sessionEvents actorId (joinAs actorId (p_spectator p) room))
             (setRooms (<[toUpperCase (trim (p_roomId p))
                          := joinAs actorId (p_spectator p) room]> (rooms st)) st).
Proof.
  intros Hroom Hok.
  pose proof (room_join_cases actorId p st room Hroom) as Hcases. cbv zeta in Hcases.
  destruct (locked room && negb (includes actorId (members room))) eqn:E1;
    [by rewrite Hcases in Hok |].
  destruct (isStreamMode room && negb (includes actorId (members room))
            && negb (p_spectator p)) eqn:E2; [by rewrite Hcases in Hok |].
  unfold room_join. by rewrite Hroom, E1, E2.
Qed.

(** X8. A [room:join] that is let in puts the actor in [members] (at the
    end when new, in place when there already), makes the actor a spectator
    exactly when the request asks for it, and leaves everybody else, the
    host, the lock, the ready list, the chat and the session as they were.
    Sent again it succeeds again and changes nothing. *)
Theorem join_sets_membership actorId p st room :
  rooms st !! toUpperCase (trim (p_roomId p)) = Some room →
  refusal (room_join actorId p st) = None →
  let key := toUpperCase (trim (p_roomId p)) in
  let result := room_join actorId p st in
  let room' := joinAs actorId (p_spectator p) room in
  rooms (next result) = <[key := room']> (rooms st)
  ∧ reply result = Some (Ok (PRoomState (roomStatePayload room')))
  ∧ members room' = pushUnique actorId (members room)
  ∧ actorId ∈ members room'
  ∧ (actorId ∈ spectators room' ↔ p_spectator p = true)
  ∧ (∀ x, x ≠ actorId →
          (x ∈ members room' ↔ x ∈ members room)
          ∧ (x ∈ spectators room' ↔ x ∈ spectators room))
  ∧ hostUserId room' = hostUserId room ∧ locked room' = locked room
  ∧ readyByUserId room' = readyByUserId room ∧ chat room' = chat room
  ∧ session room' = session room
  ∧ next (room_join actorId p (next result)) = next result
  ∧ refusal (room_join actorId p (next result)) = None.
Proof.
  intros Hroom Hok key result room'.
  pose proof (room_join_let_in actorId p st room Hroom Hok) as Hres.
  fold result key room' in Hres.
  assert (actorId ∈ members room') as Hin.
  { unfold room', joinAs. destruct (p_spectator p); simpl;
      apply elem_of_pushUnique; by left. }
  rewrite Hres. cbn [outs next rooms setRooms].
  split_and!; try done.
  - unfold room', joinAs. by destruct (p_spectator p).
  - unfold room', joinAs. destruct (p_spectator p); simpl.
    + split; [done | intros _]. apply elem_of_pushUnique. by left.
    + split; [| done]. intros H. by apply elem_of_without in H as [? _].
  - intros x Hx. unfold room', joinAs.
    destruct (p_spectator p); simpl; rewrite ?elem_of_pushUnique, ?elem_of_without; tauto.
  - unfold room', joinAs. by destruct (p_spectator p).
  - unfold room', joinAs. by destruct (p_spectator p).
  - unfold room', joinAs. by destruct (p_spectator p).
  - unfold room', joinAs. by destruct (p_spectator p).
  - unfold room', joinAs. by destruct (p_spectator p).
  - unfold room_join. fold key. cbn [rooms setRooms]. rewrite lookup_insert_eq.
    rewrite (proj2 (includes_true _ _) Hin). cbn [negb]. rewrite !andb_false_r.
    cbn [andb next]. unfold room'. rewrite joinAs_idem, insert_insert_eq.
    by destruct st.
  - pose proof (room_join_cases actorId p (setRooms (<[key := room']> (rooms st)) st) room')
      as H2. cbv zeta in H2. fold key in H2. cbn [rooms setRooms] in H2.
    specialize (H2 (lookup_insert_eq _ _ _)).
    rewrite (proj2 (includes_true _ _) Hin) in H2. cbn [negb] in H2.
    rewrite !andb_false_r in H2. cbn [andb] in H2. apply H2.
Qed.

Lemma join_sets_membership_witness :
  "u2" ∈ spectators (joinAs "u2" true lobbyRoom).
Proof.
  destruct (join_sets_membership "u2" (onRoom "abcd1234" true false "" "") lobbyState
              lobbyRoom) as (_ & _ & _ & _ & Hspec & _).
  - vm_compute. reflexivity.
  - vm_compute. reflexivity.
  - apply Hspec. reflexivity.
Defined.

(** ** Reporting ready *)

(** X9. [room:ready] in a room that exists: a user who is not a member, or
    who is a spectator, is refused and nothing changes.  For a member who
    plays, the ready list becomes the ready members of before, with the
    actor in it exactly when the request says ready; the rest of the room
    is as before. *)
Theorem ready_is_set_as_asked actorId p st room :
  rooms st !! toUpperCase (trim (p_roomId p)) = Some room →
  let key := toUpperCase (trim (p_roomId p)) in
  let result := room_ready actorId p st in
  let room' := toggleReady actorId (p_ready p) room in
  (actorId ∉ members room → result = fail st "Not a room member")
  ∧ (actorId ∈ members room → actorId ∈ spectators room →
     result = fail st "Spectator cannot toggle ready")
  ∧ (actorId ∈ members room → actorId ∉ spectators room →
     rooms (next result) = <[key := room']> (rooms st)
     ∧ reply result = Some (Ok (PRoomState (roomStatePayload room')))
     ∧ (actorId ∈ readyByUserId room' ↔ p_ready p = true)
     ∧ (∀ x, x ≠ actorId →
             (x ∈ readyByUserId room' ↔ x ∈ readyByUserId room ∧ x ∈ members room))
     ∧ members room' = members room ∧ spectators room' = spectators room
     ∧ hostUserId room' = hostUserId room ∧ locked room' = locked room
     ∧ session room' = session room ∧ chat room' = chat room).
Proof.
  intros Hroom key result room'. unfold result, room_ready. rewrite Hroom. split_and!.
  - intros Hnin. by rewrite (proj2 (includes_false _ _) Hnin).
  - intros Hin Hsp. rewrite (proj2 (includes_true _ _) Hin). cbn [negb].
    by rewrite (proj2 (includes_true _ _) Hsp).
  - intros Hin Hsp. rewrite (proj2 (includes_true _ _) Hin). cbn [negb].
    rewrite (proj2 (includes_false _ _) Hsp). cbn [outs next rooms setRooms].
    fold room'. split_and!; try done.
    + apply reply_after_events, sendEventToRoom_events.
    + unfold room', toggleReady. destruct (p_ready p); simpl.
      * split; [done | intros _]. apply elem_of_pushUnique. by left.
      * split; [| done]. intros H. by apply elem_of_without in H as [? _].
    + intros x Hx. unfold room', toggleReady. destruct (p_ready p); simpl;
        rewrite ?elem_of_pushUnique, ?elem_of_without, list_elem_of_filter; tauto.
Qed.

Lemma ready_is_set_as_asked_witness :
  room_ready "u3" (onRoom "abcd1234" false true "" "") lobbyState
  = fail lobbyState "Not a room member".
Proof.
  apply (proj1 (ready_is_set_as_asked "u3" (onRoom "abcd1234" false true "" "")
                  lobbyState lobbyRoom ltac:(vm_compute; reflexivity))).
  apply (bool_decide_unpack _). vm_compute. exact I.
Defined.

(** ** Starting lockstep play *)

Lemma sessionEvents_lockstep joiner room s rom :
  session room = Some s → mode s = lockstep → romBase64 s = Some rom → rom ≠ "" →
  sessionEvents joiner room
  = [EventTo joiner (NetplayStart (roomId room) s (hostUserId room))].
Proof.
  intros Hs Hm Hr Hne. unfold sessionEvents. rewrite Hs, Hm, Hr. unfold falsy.
  by rewrite (bool_decide_eq_false_2 _ Hne).
Qed.

Lemma roomId_joinAs a f room : roomId (joinAs a f room) = roomId room.
Proof. unfold joinAs. by destruct f. Qed.
Lemma hostUserId_joinAs a f room : hostUserId (joinAs a f room) = hostUserId room.
Proof. unfold joinAs. by destruct f. Qed.
Lemma session_joinAs a f room : session (joinAs a f room) = session room.
Proof. unfold joinAs. by destruct f. Qed.

(** X10. [netplay:start] from the host, a member, of a room that exists and
    lists each member once: with the game id, the rom, the emulator id or
    the rom hash empty it is refused.  Otherwise the room gets a session in
    lockstep mode that keeps the rom, with the emulator id and the hash in
    lower case and "Netplay", "NES", "1" and "unknown" for a name, a
    platform, a protocol version and a core version left empty; to every
    member, the host too, the room update and then the [netplay:start]
    event with that session are addressed, and no other of the events
    modelled; and a user let into the room afterwards is sent the same
    [netplay:start]. *)
Theorem netplay_start_reaches_everyone env actorId p st room :
  rooms st !! toUpperCase (trim (p_roomId p)) = Some room →
  hostUserId room = actorId →
  actorId ∈ members room →
  NoDup (members room) →
  let key := toUpperCase (trim (p_roomId p)) in
  let result := netplay_start env actorId p st in
  let s := mkSession lockstep (trim (p_gameId p))
             (orElse (trim (p_gameName p)) "Netplay")
             (orElse (trim (p_platform p)) "NES")
             (Some (toLowerCase (trim (p_emulatorId p))))
             (Some (toLowerCase (trim (p_romHash p))))
             (Some (orElse (trim (p_protocolVersion p)) "1"))
             (Some (orElse (trim (p_coreVersion p)) "unknown"))
             (Some (p_romBase64 p)) (now env) in
  (trim (p_gameId p) = "" ∨ p_romBase64 p = ""
   ∨ toLowerCase (trim (p_emulatorId p)) = ""
   ∨ toLowerCase (trim (p_romHash p)) = "" →
   result = fail st "gameId, romBase64, emulatorId and romHash are required")
  ∧ (trim (p_gameId p) ≠ "" → p_romBase64 p ≠ "" →
     toLowerCase (trim (p_emulatorId p)) ≠ "" →
     toLowerCase (trim (p_romHash p)) ≠ "" →
     rooms (next result) = <[key := setSession s room]> (rooms st)
     ∧ reply result = Some (Ok PStarted)
     ∧ (∀ m, m ∈ members room →
          eventsTo m (outs result)
          = [RoomUpdate (roomStatePayload room); NetplayStart (roomId room) s actorId])
     ∧ (∀ joiner q, toUpperCase (trim (p_roomId q)) = key →
          refusal (room_join joiner q (next result)) = None →
          EventTo joiner (NetplayStart (roomId room) s actorId)
          ∈ outs (room_join joiner q (next result)))).
Proof.
  intros Hroom Hhost Hin Hnd key result s. unfold result, netplay_start.
  rewrite Hroom, (bool_decide_eq_true_2 _ Hhost), (proj2 (includes_true _ _) Hin).
  cbn [negb]. unfold falsy. split.
  - intros Hbad.
    assert (bool_decide (trim (p_gameId p) = "") || bool_decide (p_romBase64 p = "")
            || bool_decide (toLowerCase (trim (p_emulatorId p)) = "")
            || bool_decide (toLowerCase (trim (p_romHash p)) = "") = true) as ->; [| done].
    destruct Hbad as [H | [H | [H | H]]]; rewrite (bool_decide_eq_true_2 _ H);
      by rewrite ?orb_true_r.
  - intros H1 H2 H3 H4. rewrite !bool_decide_eq_false_2 by done.
    cbn [orb outs next rooms setRooms]. fold s. split_and!.
    + done.
    + rewrite app_assoc. apply reply_after_events.
      apply Forall_app; split; apply sendEventToRoom_events.
    + intros m Hm. rewrite !eventsTo_app. unfold emitRoomUpdate.
      rewrite !eventsTo_room_once by done.
      cbn [roomId hostUserId setSession]. by rewrite Hhost.
    + intros joiner q Hq Hok. unfold key in *.
      assert (rooms (setRooms (<[toUpperCase (trim (p_roomId p))
                                 := setSession s room]> (rooms st)) st)
                !! toUpperCase (trim (p_roomId q)) = Some (setSession s room)) as Hlook.
      { rewrite Hq. cbn [rooms setRooms]. apply lookup_insert_eq. }
      rewrite (room_join_let_in joiner q _ _ Hlook Hok).
      cbn [outs]. apply elem_of_cons. right. apply elem_of_app. right.
      rewrite (sessionEvents_lockstep joiner _ s (p_romBase64 p));
        rewrite ?session_joinAs; try done.
      rewrite roomId_joinAs, hostUserId_joinAs. cbn [roomId hostUserId setSession].
      rewrite Hhost. apply list_elem_of_here.
Qed.

Lemma netplay_start_reaches_everyone_witness :
  reply (netplay_start env2 "u1"
           (startingNetplay "abcd1234" "smb" "Uk9N" "NES" "C0FFEE") lobbyState)
  = Some (Ok PStarted).
Proof.
  destruct (netplay_start_reaches_everyone env2 "u1"
              (startingNetplay "abcd1234" "smb" "Uk9N" "NES" "C0FFEE") lobbyState
              lobbyRoom) as [_ Hok].
  - vm_compute. reflexivity.
  - reflexivity.
  - simpl. apply list_elem_of_here.
  - apply (bool_decide_unpack _). vm_compute. exact I.
  - destruct Hok as (_ & Hreply & _).
    + vm_compute. discriminate.
    + vm_compute. discriminate.
    + vm_compute. discriminate.
    + vm_compute. discriminate.
    + exact Hreply.
Defined.

(** ** Authentication and the socket tables *)

Lemma isOnline_bound st id sockets ws :
  socketsByUserId st !! id = Some sockets → ws ∈ sockets → isOnline st id = true.
Proof.
  intros Hs Hin. unfold isOnline. rewrite Hs. apply bool_decide_eq_true_2.
  assert (size sockets ≠ 0) as Hne; [| lia].
  apply size_non_empty_iff. intros Hempty. by apply (proj1 (Hempty ws)) in Hin.
Qed.

(** X11. [auth]: refused when the user id, the display name or the friend
    code is empty after trimming.  Otherwise, for a friend code on which
    upper case is exact ([upperExact]), the socket is bound to the user, who
    is online; the directory holds the user with the trimmed name, the code
    in upper case and the avatar when it is an image data URL, with the
    friends the user had (none for a new user); the other users, the rooms
    and the invites are as before. *)
Theorem auth_registers_user ws p st :
  let id := trim (p_userId p) in
  let name := trim (p_displayName p) in
  let code := toUpperCase (trim (p_friendCode p)) in
  let result := on_auth ws p st in
  (id = "" ∨ name = "" ∨ code = "" → result = fail st "Invalid auth payload")
  ∧ (id ≠ "" → name ≠ "" → code ≠ "" →
     upperExact (trim (p_friendCode p)) = true →
     outs result = [Response (Ok (PUserId id))]
     ∧ socketUser (next result) !! ws = Some id
     ∧ isOnline (next result) id = true
     ∧ (∃ i u, getUserById (users (next result)) id = Some (i, u)
               ∧ userId u = id ∧ displayName u = name ∧ friendCode u = code
               ∧ avatarDataUrl u = avatarOf (trim (p_avatarDataUrl p))
               ∧ friends u = match getUserById (users st) id with
                             | Some (_, old) => friends old
                             | None => []
                             end)
     ∧ (∀ other, other ≠ id →
          snd <$> getUserById (users (next result)) other
          = snd <$> getUserById (users st) other)
     ∧ rooms (next result) = rooms st ∧ invites (next result) = invites st).
Proof.
  intros id name code result. unfold result, on_auth. fold id name code. unfold falsy.
  split.
  - intros Hbad.
    assert (bool_decide (id = "") || bool_decide (name = "") || bool_decide (code = "")
            = true) as ->; [| done].
    destruct Hbad as [H | [H | H]]; rewrite (bool_decide_eq_true_2 _ H);
      by rewrite ?orb_true_r.
  - intros H1 H2 H3 _. rewrite !bool_decide_eq_false_2 by done.
    cbn [orb outs next]. split; [done |].
    unfold setSocketUser. cbn [socketUser socketsByUserId users rooms invites setSockets setUsers].
    split; [apply lookup_insert_eq |]. split.
    { eapply (isOnline_bound _ id _ ws).
      - cbn [socketsByUserId setSockets]. apply lookup_insert_eq.
      - apply elem_of_union. left. by apply elem_of_singleton. }
    split; [| split; [| done]].
    + destruct (getUserById (users st) id) as [[i old] |] eqn:E.
      * exists i, (mkUser (userId old) name code (friends old)
                          (avatarOf (trim (p_avatarDataUrl p)))).
        unfold getUserById in *. rewrite list_find_alter by done. rewrite E. simpl.
        rewrite decide_True by done. apply list_find_Some in E as (_ & Hid & _).
        by rewrite Hid.
      * exists (length (users st)), (mkUser id name code [] (avatarOf (trim (p_avatarDataUrl p)))).
        unfold getUserById in *. rewrite list_find_app_r by done. simpl.
        rewrite decide_True by done. simpl. split_and!; try done.
    + intros other Hother. destruct (getUserById (users st) id) as [[i old] |] eqn:E.
      * unfold getUserById in *. rewrite list_find_alter by done.
        destruct (list_find (λ u, userId u = other) (users st)) as [[n x] |] eqn:F;
          [| done].
        simpl. f_equal. case_decide as Hn; [| done]. subst n.
        apply list_find_Some in E as (Hi & Hid & _).
        apply list_find_Some in F as (Hn & Hx & _). congruence.
      * unfold getUserById in *.
        destruct (list_find (λ u, userId u = other) (users st)) as [[n x] |] eqn:F.
        -- by rewrite (list_find_app_l _ _ _ _ _ F).
        -- rewrite list_find_app_r by done. simpl. by rewrite decide_False.
Qed.

Lemma auth_registers_user_witness :
  ∃ i u, getUserById
           (users (next (on_auth 9 (authenticating " u2 " "Bobby" "bbbb9999" "")
                                 lobbyState))) "u2" = Some (i, u)
         ∧ displayName u = "Bobby" ∧ friendCode u = "BBBB9999".
Proof.
  destruct (proj2 (auth_registers_user 9 (authenticating " u2 " "Bobby" "bbbb9999" "")
                     lobbyState))
    as (_ & _ & _ & (i & u & Hfound & _ & Hname & Hcode & _) & _).
  - vm_compute. discriminate.
  - vm_compute. discriminate.
  - vm_compute. discriminate.
  - vm_compute. reflexivity.
  - exists i, u. split; [exact Hfound |]. split; [exact Hname | exact Hcode].
Defined.

(** ** The directory and the sockets *)

(** X12. From a directory whose user ids are distinct, ids stay distinct
    and every socket stays bound to a user of the directory, whatever
    comes in. *)
Theorem directory_stays_in_order :
  (∀ loaded, NoDup (userId <$> loaded) → directoryOk (startServer loaded))
  ∧ (∀ i st, directoryOk st → directoryOk (step i st)).
Proof. split; [apply directoryOk_start | apply directoryOk_step]. Qed.

Lemma directory_stays_in_order_witness : directoryOk lobbyState.
Proof.
  apply directoryOk_run.
  apply (proj1 directory_stays_in_order). apply NoDup_nil_2.
Defined.

Lemma handle_keeps_sockets env ws msg st :
  msgType msg ≠ "auth" →
  socketUser (next (handle env ws msg st)) = socketUser st
  ∧ socketsByUserId (next (handle env ws msg st)) = socketsByUserId st.
Proof.
  intros Hne. unfold handle. rewrite decide_False by done.
  unfold friends_list, friends_add, room_create, room_join,
    room_state, room_chat_history, room_chat_send, room_ready, room_lock,
    room_kick, room_transferHost, netplay_start, stream_start, netplay_input,
    stream_signal, stream_input, room_pause, room_close, invite_send,
    invite_respond, fail.
  repeat case_match; done.
Qed.

Lemma setSocketUser_inOrder ws id st :
  socketsInOrder st → socketsInOrder (setSocketUser ws id st).
Proof.
  intros [Hbound Hfull]. unfold setSocketUser. split;
    cbn [socketUser socketsByUserId setSockets].
  - intros w u Hw. destruct (decide (ws = w)) as [<- | Hne].
    + rewrite lookup_insert_eq in Hw. injection Hw as <-.
      eexists. rewrite lookup_insert_eq. split; [done |].
      apply elem_of_union. left. by apply elem_of_singleton.
    + rewrite lookup_insert_ne in Hw by done.
      destruct (Hbound w u Hw) as (sockets & Hs & Hin).
      destruct (decide (id = u)) as [<- | Hu].
      * eexists. rewrite lookup_insert_eq. split; [done |]. rewrite Hs. simpl.
        apply elem_of_union. by right.
      * exists sockets. by rewrite lookup_insert_ne.
  - intros u sockets Hu. destruct (decide (id = u)) as [<- | Hne].
    + rewrite lookup_insert_eq in Hu. injection Hu as <-.
      intros Hempty. assert (ws ∈ ({[ws]} ∪ default ∅ (socketsByUserId st !! id) : gset nat))
        as Hin by (apply elem_of_union; left; by apply elem_of_singleton).
      rewrite Hempty in Hin. by apply not_elem_of_empty in Hin.
    + rewrite lookup_insert_ne in Hu by done. by eapply Hfull.
Qed.

Lemma dropSocketUser_inOrder ws st :
  socketsInOrder st → socketsInOrder (dropSocketUser ws st).
Proof.
  intros [Hbound Hfull]. unfold dropSocketUser.
  destruct (socketUser st !! ws) as [id |] eqn:Hws; [| done].
  destruct (falsy id); [done |].
  destruct (Hbound ws id Hws) as (sockets & Hs & Hin). rewrite Hs.
  case_bool_decide as Hsize; split; cbn [socketUser socketsByUserId setSockets].
  - intros w u Hw. apply lookup_delete_Some in Hw as [Hne Hw].
    destruct (Hbound w u Hw) as (sockets' & Hs' & Hin').
    exists sockets'. split; [| done]. rewrite lookup_delete_ne; [done |].
    intros <-. rewrite Hs in Hs'. injection Hs' as <-.
    apply size_empty_inv in Hsize.
    assert (w ∈ (∅ : gset nat)) as Hw' by (apply Hsize; set_solver).
    by apply not_elem_of_empty in Hw'.
  - intros u sockets' Hu. apply lookup_delete_Some in Hu as [_ Hu]. by eapply Hfull.
  - intros w u Hw. apply lookup_delete_Some in Hw as [Hne Hw].
    destruct (Hbound w u Hw) as (sockets' & Hs' & Hin').
    destruct (decide (id = u)) as [<- | Hu].
    + rewrite Hs in Hs'. injection Hs' as <-. eexists. rewrite lookup_insert_eq.
      split; [done |]. apply elem_of_difference. split; [done |].
      by intros ?%elem_of_singleton.
    + exists sockets'. by rewrite lookup_insert_ne.
  - intros u sockets' Hu. destruct (decide (id = u)) as [<- | Hne].
    + rewrite lookup_insert_eq in Hu. injection Hu as <-.
      intros Hempty. apply Hsize. rewrite Hempty. apply size_empty.
    + rewrite lookup_insert_ne in Hu by done. by eapply Hfull.
Qed.

Lemma socketsInOrder_step i st : socketsInOrder st → socketsInOrder (step i st).
Proof.
  intros Hok. destruct i as [env ws [msg |] | ws]; simpl; [| done |].
  - destruct (decide (msgType msg = "auth")) as [Hauth | Hne].
    + unfold handle. rewrite decide_True by done. unfold on_auth.
      case_match; [done |]. cbn [next].
      apply setSocketUser_inOrder. by destruct Hok.
    + destruct (handle_keeps_sockets env ws msg st Hne) as [H1 H2].
      destruct Hok as [Hb Hf]. split.
      * intros w u. rewrite H1, H2. apply Hb.
      * intros u s. rewrite H2. apply Hf.
  - unfold on_close, removeUserFromRooms.
    pose proof (dropSocketUser_inOrder ws st Hok) as Hd.
    repeat case_match; done.
Qed.

Lemma socketsInOrder_reachable st : reachable st → socketsInOrder st.
Proof.
  induction 1 as [loaded | i st _ IH]; [| by apply socketsInOrder_step].
  split; simpl; intros ? ? H; by rewrite lookup_empty in H.
Qed.

(** X13. In every state the server reaches, the user a socket is bound to
    is online, and a user is online exactly when the table of sockets has
    an entry for the user. *)
Theorem bound_user_is_online st :
  reachable st →
  (∀ ws id, socketUser st !! ws = Some id → isOnline st id = true)
  ∧ (∀ id, isOnline st id = true ↔ is_Some (socketsByUserId st !! id)).
Proof.
  intros Hreach. destruct (socketsInOrder_reachable st Hreach) as [Hb Hf]. split.
  - intros ws id Hws. destruct (Hb ws id Hws) as (sockets & Hs & Hin).
    by eapply isOnline_bound.
  - intros id. unfold isOnline. destruct (socketsByUserId st !! id) as [sockets |] eqn:E.
    + split; [by eauto | intros _]. apply bool_decide_eq_true_2.
      assert (size sockets ≠ 0) as Hne; [| lia].
      apply size_non_empty_iff. intros Hempty. apply (Hf id sockets E).
      by apply leibniz_equiv.
    + split; [done | by intros [? ?]].
Qed.

Lemma bound_user_is_online_witness : isOnline lobbyState "u2" = true.
Proof.
  apply (proj1 (bound_user_is_online lobbyState ltac:(apply reachable_run; constructor))
           2 "u2").
  vm_compute. reflexivity.
Defined.

(** ** Relays *)

Lemma eventsTo_room_excluded room e x :
  x ≠ "" → eventsTo x (sendEventToRoom room e (Some x)) = [].
Proof.
  intros Hx. unfold sendEventToRoom. apply eventsTo_absent.
  intros Hin. apply list_elem_of_filter in Hin as [Hskip _].
  unfold skipped, falsy in Hskip.
  rewrite bool_decide_eq_false_2 in Hskip by done.
  by rewrite bool_decide_eq_true_2 in Hskip.
Qed.

Lemma eventsTo_room_others user room e x :
  NoDup (members room) → user ∈ members room → user ≠ x →
  eventsTo user (sendEventToRoom room e (Some x)) = [e].
Proof.
  intros Hnd Hin Hne. unfold sendEventToRoom. apply eventsTo_once.
  - by apply NoDup_filter.
  - apply list_elem_of_filter. split; [| done]. unfold skipped.
    rewrite (bool_decide_eq_false_2 (user = x)) by done. apply andb_false_r.
Qed.

Lemma eventsTo_replyIfRequested user rid r : eventsTo user (replyIfRequested rid r) = [].
Proof. unfold replyIfRequested. by repeat case_match. Qed.

(** X14. The two relays of lockstep play, from a member of the room, the
    members being listed once each.  [netplay:input] with a frame and a
    state is refused when the room has no session or a streaming one, and
    [room:pause] with a flag when the room has no session; otherwise the
    event, carrying the sender's id, is addressed once to every other
    member and not to the sender.  Neither changes the server's state. *)
Theorem lockstep_relays rid actorId p st room :
  rooms st !! toUpperCase (trim (p_roomId p)) = Some room →
  actorId ∈ members room → actorId ≠ "" → NoDup (members room) →
  (∀ frame state, p_frame p = Some frame → p_state p = Some state →
     let result := netplay_input rid actorId p st in
     next result = st
     ∧ eventsTo actorId (outs result) = []
     ∧ match mode <$> session room with
       | None => result = fail st "Netplay not started"
       | Some stream => result = fail st "Room is in streaming mode"
       | Some lockstep =>
           ∀ user, user ∈ members room → user ≠ actorId →
             eventsTo user (outs result)
             = [NetplayInput (roomId room) actorId frame state]
       end)
  ∧ (∀ paused, p_paused p = Some paused →
     let result := room_pause rid actorId p st in
     next result = st
     ∧ eventsTo actorId (outs result) = []
     ∧ match session room with
       | None => result = fail st "Session is not active"
       | Some _ =>
           ∀ user, user ∈ members room → user ≠ actorId →
             eventsTo user (outs result) = [RoomPause (roomId room) actorId paused]
       end).
Proof.
  intros Hroom Hin Hne Hnd. split.
  - intros frame state Hf Hs result. unfold result, netplay_input.
    rewrite Hroom, (proj2 (includes_true _ _) Hin), Hf, Hs. cbn [negb].
    destruct (session room) as [s |]; [| done]. cbn [fmap option_fmap option_map].
    destruct (mode s); [| done]. cbn [next outs]. split_and!; [done | |].
    + by rewrite eventsTo_app, eventsTo_room_excluded, eventsTo_replyIfRequested.
    + intros user Hu Hua.
      by rewrite eventsTo_app, eventsTo_room_others, eventsTo_replyIfRequested.
  - intros paused Hp result. unfold result, room_pause.
    rewrite Hroom, (proj2 (includes_true _ _) Hin), Hp. cbn [negb].
    destruct (session room) as [s |]; [| done]. cbn [next outs]. split_and!; [done | |].
    + by rewrite eventsTo_app, eventsTo_room_excluded, eventsTo_replyIfRequested.
    + intros user Hu Hua.
      by rewrite eventsTo_app, eventsTo_room_others, eventsTo_replyIfRequested.
Qed.

Lemma lockstep_relays_witness :
  room_pause None "u2" (pausing "abcd1234" true) lobbyState
  = fail lobbyState "Session is not active".
Proof.
  destruct (lockstep_relays None "u2" (pausing "abcd1234" true) lobbyState lobbyRoom)
    as [_ H].
  - vm_compute. reflexivity.
  - vm_compute. apply list_elem_of_In. simpl. tauto.
  - discriminate.
  - vm_compute. repeat constructor; intros H; apply list_elem_of_In in H; simpl in H;
      intuition discriminate.
  - apply (H true). reflexivity.
Defined.

(** X15. The two streaming relays reach one user each and change nothing.
    [stream:input] is refused from the host and outside a streaming
    session, and otherwise goes to the host alone; [stream:signal] goes to
    the member named as target alone, whatever the session. *)
Theorem stream_relays rid actorId p st room :
  rooms st !! toUpperCase (trim (p_roomId p)) = Some room →
  actorId ∈ members room →
  let input := stream_input rid actorId p st in
  let signal := stream_signal rid actorId p st in
  next input = st ∧ next signal = st
  ∧ (∀ user, user ≠ hostUserId room → eventsTo user (outs input) = [])
  ∧ (∀ user, user ≠ trim (p_targetUserId p) → eventsTo user (outs signal) = [])
  ∧ (actorId = hostUserId room → input = fail st "Host should not send stream input")
  ∧ (∀ state, actorId ≠ hostUserId room → p_state p = Some state →
       if isStreamMode room
       then eventsTo (hostUserId room) (outs input)
            = [StreamInput (roomId room) actorId state]
       else input = fail st "Streaming mode is not active")
  ∧ (∀ data, trim (p_targetUserId p) ∈ members room → trim (p_targetUserId p) ≠ "" →
       p_signal p = Some data →
       eventsTo (trim (p_targetUserId p)) (outs signal)
       = [StreamSignal (roomId room) actorId data]).
Proof.
  intros Hroom Hin input signal. unfold input, signal, stream_input, stream_signal.
  rewrite Hroom, (proj2 (includes_true _ _) Hin). cbn [negb]. split_and!.
  - by repeat case_match.
  - by repeat case_match.
  - intros user Hu. repeat case_match; try done. cbn [outs].
    by rewrite eventsTo_event, decide_False, eventsTo_replyIfRequested.
  - intros user Hu. repeat case_match; try done. cbn [outs].
    by rewrite eventsTo_event, decide_False, eventsTo_replyIfRequested.
  - intros ->. by rewrite bool_decide_eq_true_2.
  - intros state Hne Hs. rewrite bool_decide_eq_false_2, Hs by done.
    destruct (isStreamMode room); [| done]. cbn [negb outs].
    by rewrite eventsTo_event, decide_True, eventsTo_replyIfRequested.
  - intros data Ht Hne Hs. rewrite (proj2 (includes_true _ _) Ht), Hs.
    unfold falsy. rewrite bool_decide_eq_false_2 by done. cbn [negb orb outs].
    by rewrite eventsTo_event, decide_True, eventsTo_replyIfRequested.
Qed.

Lemma stream_relays_witness :
  stream_input None "u2" (inputOf "abcd1234" 0 9) lobbyState
  = fail lobbyState "Streaming mode is not active".
Proof.
  destruct (stream_relays None "u2" (inputOf "abcd1234" 0 9) lobbyState lobbyRoom)
    as (_ & _ & _ & _ & _ & H & _).
  - vm_compute. reflexivity.
  - vm_compute. apply list_elem_of_In. simpl. tauto.
  - apply (H 9%Z); [discriminate | reflexivity].
Defined.

(** X16. The requests that only answer or relay (the friend list, the state
    and chat history of a room, and the four relays) leave every registry
    of the server as it was, whoever sends them and whatever they carry. *)
Theorem relays_change_nothing env ws msg st :
  msgType msg ∈ relayRequests → next (handle env ws msg st) = st.
Proof.
  intros Hin. unfold handle.
  assert (msgType msg ≠ "auth") as Hauth.
  { intros E. rewrite E in Hin. vm_compute in Hin.
    repeat (apply elem_of_cons in Hin as [Hin | Hin]; [discriminate |]).
    by apply elem_of_nil in Hin. }
  rewrite decide_False by done.
  destruct (socketUser st !! ws) as [actorId |]; [| done].
  destruct (falsy actorId); [done |].
  unfold relayRequests in Hin.
  repeat (apply elem_of_cons in Hin as [-> | Hin]);
    [.. | by apply elem_of_nil in Hin];
    repeat (rewrite decide_False by discriminate); rewrite decide_True by done;
    unfold friends_list, room_state, room_chat_history, netplay_input, stream_signal,
      stream_input, room_pause, fail; by repeat case_match.
Qed.

Lemma relays_change_nothing_witness :
  next (handle env1 2 (mkMessage "room:pause" None (pausing "abcd1234" true)) lobbyState)
  = lobbyState.
Proof.
  apply relays_change_nothing. cbn [msgType]. unfold relayRequests.
  apply list_elem_of_In. simpl. tauto.
Defined.

(** ** Refusals *)

Lemma reply_cons_event u e l st st' :
  reply (mkResult (EventTo u e :: l) st) = reply (mkResult l st').
Proof. done. Qed.

Ltac answered_ok H :=
  exfalso; unfold refusal in H;
  repeat first
    [ rewrite (reply_cons_event _ _ _ _ (startServer [])) in H
    | rewrite reply_skip_events in H by
        first [ apply sendEventToRoom_events
              | apply Forall_fmap, Forall_forall; by intros ] ];
  by cbn in H.

Ltac refused_same H :=
  repeat case_match; first [done | answered_ok H].

Lemma on_auth_refused ws p st e :
  refusal (on_auth ws p st) = Some e → next (on_auth ws p st) = st.
Proof. unfold on_auth. intros H. refused_same H. Qed.

Lemma friends_add_refused a p st e :
  refusal (friends_add a p st) = Some e → next (friends_add a p st) = st.
Proof. unfold friends_add. intros H. refused_same H. Qed.

Lemma room_create_refused env a p st e :
  refusal (room_create env a p st) = Some e → next (room_create env a p st) = st.
Proof. unfold room_create. intros H. refused_same H. Qed.

Lemma room_join_refused a p st e :
  refusal (room_join a p st) = Some e → next (room_join a p st) = st.
Proof. unfold room_join. intros H. refused_same H. Qed.

Lemma room_chat_send_refused env a p st e :
  refusal (room_chat_send env a p st) = Some e → next (room_chat_send env a p st) = st.
Proof. unfold room_chat_send. intros H. refused_same H. Qed.

Lemma room_ready_refused a p st e :
  refusal (room_ready a p st) = Some e → next (room_ready a p st) = st.
Proof. unfold room_ready. intros H. refused_same H. Qed.

Lemma room_lock_refused a p st e :
  refusal (room_lock a p st) = Some e → next (room_lock a p st) = st.
Proof. unfold room_lock. intros H. refused_same H. Qed.

Lemma room_kick_refused a p st e :
  refusal (room_kick a p st) = Some e → next (room_kick a p st) = st.
Proof. unfold room_kick. intros H. refused_same H. Qed.

Lemma room_transferHost_refused a p st e :
  refusal (room_transferHost a p st) = Some e → next (room_transferHost a p st) = st.
Proof. unfold room_transferHost. intros H. refused_same H. Qed.

Lemma netplay_start_refused env a p st e :
  refusal (netplay_start env a p st) = Some e → next (netplay_start env a p st) = st.
Proof. unfold netplay_start. intros H. refused_same H. Qed.

Lemma stream_start_refused env a p st e :
  refusal (stream_start env a p st) = Some e → next (stream_start env a p st) = st.
Proof. unfold stream_start. intros H. refused_same H. Qed.

Lemma room_close_refused a p st e :
  refusal (room_close a p st) = Some e → next (room_close a p st) = st.
Proof. unfold room_close. intros H. refused_same H. Qed.

Lemma invite_send_refused env a p st e :
  refusal (invite_send env a p st) = Some e → next (invite_send env a p st) = st.
Proof. unfold invite_send. intros H. refused_same H. Qed.

Lemma relay_same rid a p st :
  next (friends_list st) = st ∧ next (room_state a p st) = st
  ∧ next (room_chat_history a p st) = st ∧ next (netplay_input rid a p st) = st
  ∧ next (stream_signal rid a p st) = st ∧ next (stream_input rid a p st) = st
  ∧ next (room_pause rid a p st) = st.
Proof.
  unfold friends_list, room_state, room_chat_history, netplay_input, stream_signal,
    stream_input, room_pause. split_and!; by repeat case_match.
Qed.

Lemma invite_respond_refused a p st e :
  refusal (invite_respond a p st) = Some e →
  next (invite_respond a p st) = st
  ∨ next (invite_respond a p st)
    = setInvites (delete (trim (p_inviteId p)) (invites st)) st.
Proof.
  unfold invite_respond. intros H.
  repeat case_match; first [by left | by right | answered_ok H].
Qed.

(** X17. A request the server refuses leaves the users, the rooms and the
    socket tables as they were.  The invites stay too, with one exception:
    an [invite:respond] refused after the invite was found and matched to
    the actor has already deleted that invite. *)
Theorem refused_request_changes_nothing env ws msg st error :
  refusal (handle env ws msg st) = Some error →
  let st' := next (handle env ws msg st) in
  (msgType msg ≠ "invite:respond" → st' = st)
  ∧ (st' = st
     ∨ st' = setInvites (delete (trim (p_inviteId (payload msg))) (invites st)) st).
Proof.
  intros H st'.
  assert (st' = st ∨ msgType msg = "invite:respond"
                     ∧ st' = setInvites (delete (trim (p_inviteId (payload msg)))
                                                (invites st)) st) as Hcases.
  { unfold st' in *. clear st'. unfold handle in *. cbv zeta in *.
    destruct (decide (msgType msg = "auth")); [left; by eapply on_auth_refused |].
    destruct (socketUser st !! ws) as [actorId |] eqn:Hws; [| by left].
    destruct (falsy actorId); [by left |].
    destruct (relay_same (requestId msg) actorId (payload msg) st)
      as (? & ? & ? & ? & ? & ? & ?).
    repeat (destruct (decide (msgType msg = _));
            [ first [ by left
                    | left; by eauto using friends_add_refused, room_create_refused,
                        room_join_refused, room_chat_send_refused, room_ready_refused,
                        room_lock_refused, room_kick_refused, room_transferHost_refused,
                        netplay_start_refused, stream_start_refused, room_close_refused,
                        invite_send_refused
                    | destruct (invite_respond_refused _ _ _ _ H); [by left | by right] ]
            | ]).
    by left. }
  split.
  - intros Hne. by destruct Hcases as [? | [? ?]].
  - destruct Hcases as [? | [? ?]]; [by left | by right].
Qed.

Lemma refused_request_changes_nothing_witness :
  next (handle env1 2 (mkMessage "room:lock" (Some "r") (locking "abcd1234" true))
               lobbyState) = lobbyState.
Proof.
  refine (proj1 (refused_request_changes_nothing env1 2
                   (mkMessage "room:lock" (Some "r") (locking "abcd1234" true))
                   lobbyState "Only host can change lock" _) _).
  - vm_compute. reflexivity.
  - discriminate.
Defined.

(** ** Invites *)

(** X18. [invite:send] from an authenticated user, the directory being in
    order: it is never answered "Sender not found".  When it is accepted,
    the friend named is online and in the sender's friend list, the sender
    hosts the room named and is a member of it, the invite is stored under
    the fresh id with the trimmed fields, and one event carrying the
    sender's display name is addressed to the friend.  If the friend then
    declines, the sender is told, the invite is gone and the rooms are as
    they were. *)
Theorem invite_send_delivers env ws actorId p st :
  directoryOk st → socketUser st !! ws = Some actorId →
  let friend := trim (p_friendUserId p) in
  let key := toUpperCase (trim (p_roomId p)) in
  let game := trim (p_gameId p) in
  let sent := invite_send env actorId p st in
  refusal sent ≠ Some "Sender not found"
  ∧ (refusal sent = None →
     friend ≠ "" ∧ isOnline st friend = true
     ∧ areFriends (users st) actorId friend = true
     ∧ (∃ room, rooms st !! key = Some room ∧ hostUserId room = actorId
                ∧ actorId ∈ members room)
     ∧ next sent
       = setInvites (<[uuid env := mkInvite (uuid env) actorId friend key game (now env)]>
                       (invites st)) st
     ∧ (∃ i sender, getUserById (users st) actorId = Some (i, sender)
          ∧ outs sent = [EventTo friend (InviteReceived (uuid env) actorId
                                           (displayName sender) key game);
                         Response (Ok (PInviteId (uuid env)))])
     ∧ ∀ q, trim (p_inviteId q) = uuid env → p_accept q = false →
         let answered := invite_respond friend q (next sent) in
         outs answered = [EventTo actorId (InviteDeclined (uuid env) friend);
                          Response (Ok PDeclined)]
         ∧ rooms (next answered) = rooms st
         ∧ invites (next answered) = delete (uuid env) (invites st)).
Proof.
  intros Hok Hws friend key game sent.
  destruct (authenticated_actor_registered st ws actorId Hok Hws) as [_ [[i sender] Hsender]].
  unfold sent, invite_send. fold friend key game. rewrite Hsender.
  destruct (falsy friend) eqn:Hfriend; [done |].
  destruct (falsy key); [done |]. destruct (falsy game); [done |]. cbn [orb].
  destruct (isOnline st friend); [| done].
  destruct (areFriends (users st) actorId friend); [| done]. cbn [negb].
  destruct (rooms st !! key) as [room |] eqn:Hroom; [| done].
  case_bool_decide as Hhost; [| done]. cbn [negb].
  destruct (includes actorId (members room)) eqn:Hin; [| done]. cbn [negb].
  split; [done |]. intros _.
  split; [by apply bool_decide_eq_false in Hfriend |].
  split; [done |]. split; [done |].
  split; [exists room; split_and!; try done; by apply includes_true |].
  split; [done |]. split; [by exists i, sender |].
  intros q Hq Hno. unfold invite_respond. cbn [next invites setInvites].
  rewrite Hq, lookup_insert_eq. cbn [toUserId fromUserId].
  rewrite bool_decide_eq_true_2 by done. rewrite Hno. cbn [negb outs next].
  split_and!; [done | done |]. cbn [invites setInvites]. apply delete_insert_eq.
Qed.

Lemma invite_send_delivers_witness :
  refusal (invite_send env2 "u1" (inviteSend "u3" "abcd1234" "smb")
             (run (removelast inviteRun) (startServer [])))
  ≠ Some "Sender not found".
Proof.
  refine (proj1 (invite_send_delivers env2 1 "u1" (inviteSend "u3" "abcd1234" "smb")
                   (run (removelast inviteRun) (startServer [])) _ _)).
  - apply directoryOk_run, directoryOk_start, NoDup_nil_2.
  - vm_compute. reflexivity.
Defined.

(** ** The NES view: masks, keys and runs *)

Local Open Scope Z_scope.

Lemma land_bit m k :
  0 ≤ k → (Z.land m (Z.shiftl 1 k) =? 0) = negb (Z.testbit m k).
Proof.
  intros Hk. rewrite Z.shiftl_1_l.
  destruct (Z.testbit m k) eqn:Hbit; simpl.
  - apply Z.eqb_neq. intros H0.
    assert (Z.testbit (Z.land m (2 ^ k)) k = true) as Hone
      by (by rewrite Z.land_spec, Hbit, Z.pow2_bits_true).
    by rewrite H0, Z.bits_0 in Hone.
  - apply Z.eqb_eq. apply Z.bits_inj'. intros n Hn.
    rewrite Z.land_spec, Z.bits_0, Z.pow2_bits_eqb by done.
    destruct (Z.eqb_spec k n) as [-> | Hne]; [by rewrite Hbit | apply andb_false_r].
Qed.

(** The button of each bit, and that no button is listed twice. *)
Lemma bitToButton_bits bit button :
  (bit, button) ∈ NesLoop.bitToButton →
  ∃ k, 0 ≤ k < 8 ∧ bit = Z.shiftl 1 k.
Proof.
  intros Hin. unfold NesLoop.bitToButton in Hin.
  repeat (apply elem_of_cons in Hin as [Hin | Hin];
          [injection Hin as -> _; eexists; split; [| reflexivity]; lia |]).
  by apply elem_of_nil in Hin.
Qed.

Lemma bitToButton_NoDup : NoDup (NesLoop.bitToButton.*2).
Proof. apply NoDup_ListNoDup. vm_compute. repeat constructor; simpl; intuition discriminate. Qed.

Section Mask.
Variables player previous nextMask : Z.

Lemma change_down l button :
  NesLoop.ButtonDown player button ∈ flat_map (NesPad.change player previous nextMask) l
  ↔ ∃ bit, (bit, button) ∈ l
           ∧ (Z.land previous bit =? 0) = true ∧ (Z.land nextMask bit =? 0) = false.
Proof.
  rewrite list_elem_of_In, in_flat_map. split.
  - intros ([bit c] & Hin & Hx). apply list_elem_of_In in Hin, Hx. exists bit.
    unfold NesPad.change in Hx.
    destruct (Z.land previous bit =? 0), (Z.land nextMask bit =? 0); simpl in Hx;
      try (by apply elem_of_nil in Hx); apply list_elem_of_singleton in Hx;
      [by injection Hx as -> | discriminate].
  - intros (bit & Hin & Hp & Hn). exists (bit, button). split; [by apply list_elem_of_In |].
    unfold NesPad.change. rewrite Hp, Hn. simpl. by left.
Qed.

Lemma change_up l button :
  NesLoop.ButtonUp player button ∈ flat_map (NesPad.change player previous nextMask) l
  ↔ ∃ bit, (bit, button) ∈ l
           ∧ (Z.land previous bit =? 0) = false ∧ (Z.land nextMask bit =? 0) = true.
Proof.
  rewrite list_elem_of_In, in_flat_map. split.
  - intros ([bit c] & Hin & Hx). apply list_elem_of_In in Hin, Hx. exists bit.
    unfold NesPad.change in Hx.
    destruct (Z.land previous bit =? 0), (Z.land nextMask bit =? 0); simpl in Hx;
      try (by apply elem_of_nil in Hx); apply list_elem_of_singleton in Hx;
      [discriminate | by injection Hx as ->].
  - intros (bit & Hin & Hp & Hn). exists (bit, button). split; [by apply list_elem_of_In |].
    unfold NesPad.change. rewrite Hp, Hn. simpl. by left.
Qed.

Lemma change_buttons l x :
  x ∈ flat_map (NesPad.change player previous nextMask) l →
  ∃ button, x = NesLoop.ButtonDown player button ∨ x = NesLoop.ButtonUp player button.
Proof.
  rewrite list_elem_of_In, in_flat_map. intros ([bit c] & _ & Hx).
  apply list_elem_of_In in Hx. unfold NesPad.change in Hx. exists c.
  destruct (Z.land previous bit =? 0), (Z.land nextMask bit =? 0); simpl in Hx;
    try (by apply elem_of_nil in Hx); apply list_elem_of_singleton in Hx; auto.
Qed.

Lemma change_pad l pad :
  NoDup (l.*2) →
  let pad' := NesPad.performAll pad (flat_map (NesPad.change player previous nextMask) l) in
  (∀ q c, q ≠ player ∨ c ∉ l.*2 → pad' q c = pad q c)
  ∧ (∀ bit c, (bit, c) ∈ l →
       pad player c = negb (Z.land previous bit =? 0) →
       pad' player c = negb (Z.land nextMask bit =? 0)).
Proof.
  revert pad. induction l as [| [bit button] l IH]; intros pad Hnd; simpl.
  - split; [done |]. intros bit c Hin. by apply elem_of_nil in Hin.
  - apply NoDup_cons in Hnd as [Hfresh Hnd]. simpl in Hfresh.
    unfold NesPad.performAll. rewrite foldl_app. fold (NesPad.performAll pad (NesPad.change player previous nextMask (bit, button))).
    set (pad1 := NesPad.performAll pad (NesPad.change player previous nextMask (bit, button))).
    fold (NesPad.performAll pad1 (flat_map (NesPad.change player previous nextMask) l)).
    destruct (IH pad1 Hnd) as [Hother Hshown].
    assert (∀ q c, q ≠ player ∨ c ≠ button → pad1 q c = pad q c) as Hpad1.
    { intros q c Hqc. unfold pad1, NesPad.change.
      destruct (Z.land previous bit =? 0), (Z.land nextMask bit =? 0); simpl; try done;
        case_decide as Hd; try done; destruct Hd as [-> ->]; by destruct Hqc. }
    assert (pad player button = negb (Z.land previous bit =? 0) →
            pad1 player button = negb (Z.land nextMask bit =? 0)) as Hhere.
    { unfold pad1, NesPad.change.
      destruct (Z.land previous bit =? 0), (Z.land nextMask bit =? 0); simpl; try done;
        intros _; by rewrite decide_True. }
    split.
    + intros q c Hqc. rewrite Hother, Hpad1; [done | |].
      * destruct Hqc as [? | Hc]; [by left | right]. intros ->. apply Hc. by left.
      * destruct Hqc as [? | Hc]; [by left | right]. intros ?. apply Hc. by right.
    + intros bit' c Hin Hc. apply elem_of_cons in Hin as [Hin | Hin].
      * injection Hin as -> ->. rewrite Hother by (by right). by apply Hhere.
      * apply Hshown; [done |]. rewrite Hpad1; [done |]. right. intros ->.
        apply Hfresh. apply list_elem_of_fmap. by exists (bit', button).
Qed.

End Mask.

Lemma applyMaskToPlayer_change player previous nextMask :
  NesLoop.applyMaskToPlayer player previous nextMask
  = flat_map (NesPad.change player previous nextMask) NesLoop.bitToButton.
Proof. done. Qed.

(** X19. [applyMaskToPlayer] calls the emulator for the buttons whose bit
    differs between the two masks and for no other: [buttonDown] for a bit
    set only in the next mask, [buttonUp] for a bit set only in the previous
    one, always for the player given; masks that agree on their low eight
    bits cause no call. *)
Theorem mask_calls player previous nextMask :
  let effects := NesLoop.applyMaskToPlayer player previous nextMask in
  (∀ k button, NesLoop.bitToButton !! k = Some (Z.shiftl 1 (Z.of_nat k), button) →
     (NesLoop.ButtonDown player button ∈ effects
      ↔ Z.testbit previous (Z.of_nat k) = false ∧ Z.testbit nextMask (Z.of_nat k) = true)
     ∧ (NesLoop.ButtonUp player button ∈ effects
        ↔ Z.testbit previous (Z.of_nat k) = true
          ∧ Z.testbit nextMask (Z.of_nat k) = false))
  ∧ (∀ x, x ∈ effects →
       ∃ button, x = NesLoop.ButtonDown player button
                 ∨ x = NesLoop.ButtonUp player button)
  ∧ (Z.land previous 255 = Z.land nextMask 255 → effects = []).
Proof.
  intros effects. unfold effects. rewrite applyMaskToPlayer_change. split_and!.
  - intros k button Hk.
    assert ((Z.shiftl 1 (Z.of_nat k), button) ∈ NesLoop.bitToButton) as Hin
      by (by eapply list_elem_of_lookup_2).
    assert (∀ bit, (bit, button) ∈ NesLoop.bitToButton → bit = Z.shiftl 1 (Z.of_nat k))
      as Honly.
    { intros bit Hbit. apply list_elem_of_lookup in Hbit as [j Hj].
      assert (j = k) as ->; [| rewrite Hk in Hj; by injection Hj].
      apply (NoDup_lookup _ _ _ button bitToButton_NoDup);
        by rewrite list_lookup_fmap, ?Hj, ?Hk. }
    split.
    + rewrite change_down. split.
      * intros (bit & Hbit & Hp & Hn). rewrite (Honly bit Hbit) in Hp, Hn.
        rewrite land_bit in Hp, Hn by lia.
        by destruct (Z.testbit previous _), (Z.testbit nextMask _).
      * intros [Hp Hn]. exists (Z.shiftl 1 (Z.of_nat k)).
        by rewrite !land_bit, Hp, Hn by lia.
    + rewrite change_up. split.
      * intros (bit & Hbit & Hp & Hn). rewrite (Honly bit Hbit) in Hp, Hn.
        rewrite land_bit in Hp, Hn by lia.
        by destruct (Z.testbit previous _), (Z.testbit nextMask _).
      * intros [Hp Hn]. exists (Z.shiftl 1 (Z.of_nat k)).
        by rewrite !land_bit, Hp, Hn by lia.
  - apply change_buttons.
  - intros Hlow.
    assert (∀ k, 0 ≤ k < 8 → Z.testbit previous k = Z.testbit nextMask k) as Hbits.
    { intros k Hk.
      assert (Z.testbit (Z.land previous 255) k = Z.testbit (Z.land nextMask 255) k)
        as Heq by (by rewrite Hlow).
      rewrite !Z.land_spec in Heq. change 255 with (Z.ones 8) in Heq.
      by rewrite Z.ones_spec_low, !andb_true_r in Heq by lia. }
    unfold NesLoop.bitToButton, NesPad.change. cbn [flat_map].
    rewrite !land_bit by lia.
    rewrite !Hbits by lia. by rewrite !Bool.eqb_reflx.
Qed.

Lemma mask_calls_witness : NesLoop.applyMaskToPlayer 1 261 5 = [].
Proof.
  refine (proj2 (proj2 (mask_calls 1 261 5)) _). reflexivity.
Defined.

(** X20. If the pad of a player holds exactly the buttons of the previous
    mask, then after the calls of [applyMaskToPlayer] it holds exactly the
    buttons of the next mask, and the pad of every other player is as it
    was. *)
Theorem mask_reaches_pad player previous nextMask pad :
  NesPad.shows pad player previous →
  let pad' := NesPad.performAll pad (NesLoop.applyMaskToPlayer player previous nextMask) in
  NesPad.shows pad' player nextMask
  ∧ ∀ other button, other ≠ player → pad' other button = pad other button.
Proof.
  intros Hshows pad'.
  destruct (change_pad player previous nextMask NesLoop.bitToButton pad bitToButton_NoDup)
    as [Hother Hshown].
  split.
  - intros bit button Hin. apply Hshown; [done |]. by apply Hshows.
  - intros other button Hne. apply Hother. by left.
Qed.

Lemma mask_reaches_pad_witness :
  NesPad.shows (NesPad.performAll NesPad.released (NesLoop.applyMaskToPlayer 2 0 17)) 2 17.
Proof.
  refine (proj1 (mask_reaches_pad 2 0 17 NesPad.released _)).
  intros bit button Hin. apply bitToButton_bits in Hin as (k & Hk & ->).
  by rewrite Z.land_0_l.
Defined.

Lemma planLoop_full fuel e :
  (Z.to_nat (NesLoop.currentFrame e + 4 - NesLoop.plannedLocalFrame e) ≤ fuel)%nat →
  let n := Z.to_nat (NesLoop.currentFrame e + 4 - NesLoop.plannedLocalFrame e) in
  let r := NesLoop.planLoop fuel e in
  r.2 = (λ i, NesLoop.SendNetplayInput (NesLoop.plannedLocalFrame e + Z.of_nat i)
                                       (NesLoop.localInputState e)) <$> seq 0 n
  ∧ NesLoop.plannedLocalFrame r.1 = NesLoop.plannedLocalFrame e + Z.of_nat n
  ∧ (∀ f, NesLoop.localStateByFrame r.1 !! f
          = if decide (NesLoop.plannedLocalFrame e ≤ f
                       < NesLoop.plannedLocalFrame e + Z.of_nat n)
            then Some (NesLoop.localInputState e)
            else NesLoop.localStateByFrame e !! f)
  ∧ NesLoop.localPlayer r.1 = NesLoop.localPlayer e
  ∧ NesLoop.localInputState r.1 = NesLoop.localInputState e
  ∧ NesLoop.previousLocalAppliedState r.1 = NesLoop.previousLocalAppliedState e
  ∧ NesLoop.previousRemoteAppliedState r.1 = NesLoop.previousRemoteAppliedState e
  ∧ NesLoop.currentFrame r.1 = NesLoop.currentFrame e
  ∧ NesLoop.remoteStateByFrame r.1 = NesLoop.remoteStateByFrame e
  ∧ NesLoop.remoteStreamInputState r.1 = NesLoop.remoteStreamInputState e.
Proof.
  revert e. induction fuel as [| k IH]; intros e Hfuel; cbn zeta.
  - assert (Z.to_nat (NesLoop.currentFrame e + 4 - NesLoop.plannedLocalFrame e) = 0%nat)
      as -> by lia.
    simpl. split_and!; try done; [lia |]. intros f. case_decide; [lia | done].
  - simpl. unfold LOCKSTEP_INPUT_DELAY_FRAMES.
    destruct (_ <=? _) eqn:Hle.
    + apply Z.leb_le in Hle.
      match goal with |- context [NesLoop.planLoop k ?x] =>
        specialize (IH x); destruct (NesLoop.planLoop k x) as [e' effects] eqn:E end.
      cbn [NesLoop.currentFrame NesLoop.plannedLocalFrame NesLoop.localInputState
           NesLoop.localStateByFrame NesLoop.localPlayer NesLoop.previousLocalAppliedState
           NesLoop.previousRemoteAppliedState NesLoop.remoteStateByFrame
           NesLoop.remoteStreamInputState fst snd] in IH.
      destruct IH as (H1 & H2 & H3 & H4 & H5 & H6 & H7 & H8 & H9 & H10); [lia |].
      assert (Z.to_nat (NesLoop.currentFrame e + 4 - NesLoop.plannedLocalFrame e)
              = S (Z.to_nat (NesLoop.currentFrame e + 4 - (NesLoop.plannedLocalFrame e + 1))))
        as -> by lia.
      cbn [fst snd]. split_and!; try done.
      * rewrite H1. cbn [seq fmap list_fmap]. rewrite Z.add_0_r. f_equal.
        rewrite <- fmap_S_seq, <- list_fmap_compose. apply list_fmap_ext.
        intros i x _. simpl. f_equal. lia.
      * rewrite H2. lia.
      * intros f. rewrite H3.
        destruct (decide (f = NesLoop.plannedLocalFrame e)) as [-> | Hne].
        -- rewrite lookup_insert_eq. repeat case_decide; (done || lia).
        -- rewrite lookup_insert_ne by done. repeat case_decide; (done || lia).
    + apply Z.leb_gt in Hle.
      assert (Z.to_nat (NesLoop.currentFrame e + 4 - NesLoop.plannedLocalFrame e) = 0%nat)
        as -> by lia.
      simpl. split_and!; try done; [lia |]. intros f. case_decide; [lia | done].
Qed.

Lemma plan_full e :
  let n := Z.to_nat (NesLoop.currentFrame e + 4 - NesLoop.plannedLocalFrame e) in
  let r := NesLoop.plan e in
  r.2 = (λ i, NesLoop.SendNetplayInput (NesLoop.plannedLocalFrame e + Z.of_nat i)
                                       (NesLoop.localInputState e)) <$> seq 0 n
  ∧ NesLoop.plannedLocalFrame r.1 = NesLoop.plannedLocalFrame e + Z.of_nat n
  ∧ (∀ f, NesLoop.localStateByFrame r.1 !! f
          = if decide (NesLoop.plannedLocalFrame e ≤ f
                       < NesLoop.plannedLocalFrame e + Z.of_nat n)
            then Some (NesLoop.localInputState e)
            else NesLoop.localStateByFrame e !! f)
  ∧ NesLoop.localPlayer r.1 = NesLoop.localPlayer e
  ∧ NesLoop.localInputState r.1 = NesLoop.localInputState e
  ∧ NesLoop.previousLocalAppliedState r.1 = NesLoop.previousLocalAppliedState e
  ∧ NesLoop.previousRemoteAppliedState r.1 = NesLoop.previousRemoteAppliedState e
  ∧ NesLoop.currentFrame r.1 = NesLoop.currentFrame e
  ∧ NesLoop.remoteStateByFrame r.1 = NesLoop.remoteStateByFrame e
  ∧ NesLoop.remoteStreamInputState r.1 = NesLoop.remoteStreamInputState e.
Proof.
  apply planLoop_full. unfold LOCKSTEP_INPUT_DELAY_FRAMES. lia.
Qed.

(** X21. The planning loop of a tick sends the local mask once for each
    frame from the planned one to the third after the current one, in
    increasing order, stores it under each of these frames and under no
    other, and leaves the planned frame four ahead of the current one;
    when the planned frame is already further ahead it does nothing. *)
Theorem plan_sends_in_order e :
  let first := NesLoop.plannedLocalFrame e in
  let n := Z.to_nat (NesLoop.currentFrame e + 4 - first) in
  let e' := (NesLoop.plan e).1 in
  (NesLoop.plan e).2
  = (λ i, NesLoop.SendNetplayInput (first + Z.of_nat i) (NesLoop.localInputState e))
      <$> seq 0 n
  ∧ NesLoop.plannedLocalFrame e' = Z.max first (NesLoop.currentFrame e + 4)
  ∧ (∀ f, NesLoop.localStateByFrame e' !! f
          = if decide (first ≤ f ≤ NesLoop.currentFrame e + 3)
            then Some (NesLoop.localInputState e)
            else NesLoop.localStateByFrame e !! f)
  ∧ NesLoop.currentFrame e' = NesLoop.currentFrame e
  ∧ NesLoop.localInputState e' = NesLoop.localInputState e
  ∧ NesLoop.remoteStateByFrame e' = NesLoop.remoteStateByFrame e.
Proof.
  intros first n e'.
  destruct (plan_full e) as (H1 & H2 & H3 & H4 & H5 & H6 & H7 & H8 & H9 & H10).
  fold first n e' in H1, H2, H3, H4, H5, H6, H7, H8, H9, H10.
  split_and!; try done.
  - rewrite H2. unfold n. lia.
  - intros f. rewrite H3. unfold n. repeat case_decide; (done || lia).
Qed.

Lemma sentFrames_buttons l :
  (∀ x, x ∈ l → ∃ player button, x = NesLoop.ButtonDown player button
                                 ∨ x = NesLoop.ButtonUp player button) →
  NesRun.sentFrames l = [] ∧ NesRun.steppedFrames l = [].
Proof.
  induction l as [| x l IH]; intros Hall; [done |].
  destruct IH as [IH1 IH2]; [intros y Hy; apply Hall; by right |].
  destruct (Hall x) as (p & b & [-> | ->]); [by left | |]; by simpl.
Qed.

Lemma sentFrames_app l1 l2 :
  NesRun.sentFrames (l1 ++ l2) = NesRun.sentFrames l1 ++ NesRun.sentFrames l2.
Proof. apply omap_app. Qed.

Lemma steppedFrames_app l1 l2 :
  NesRun.steppedFrames (l1 ++ l2) = NesRun.steppedFrames l1 ++ NesRun.steppedFrames l2.
Proof. apply omap_app. Qed.

Lemma frames_of_frame f l :
  NesRun.sentFrames (NesLoop.Frame f :: l) = NesRun.sentFrames l
  ∧ NesRun.steppedFrames (NesLoop.Frame f :: l) = f :: NesRun.steppedFrames l.
Proof. done. Qed.

Lemma frames_of_mask player previous nextMask :
  NesRun.sentFrames (NesLoop.applyMaskToPlayer player previous nextMask) = []
  ∧ NesRun.steppedFrames (NesLoop.applyMaskToPlayer player previous nextMask) = [].
Proof.
  apply sentFrames_buttons. intros x Hx. rewrite applyMaskToPlayer_change in Hx.
  exists player. by eapply change_buttons.
Qed.

Lemma mask_shows player previous nextMask pad :
  NesPad.shows pad player previous →
  NesPad.shows (NesPad.performAll pad (NesLoop.applyMaskToPlayer player previous nextMask))
               player nextMask
  ∧ ∀ other button, other ≠ player →
      NesPad.performAll pad (NesLoop.applyMaskToPlayer player previous nextMask)
        other button = pad other button.
Proof.
  intros Hshows.
  destruct (change_pad player previous nextMask NesLoop.bitToButton pad bitToButton_NoDup)
    as [Hother Hshown].
  split.
  - intros bit button Hin. apply Hshown; [done |]. by apply Hshows.
  - intros other button Hne. apply Hother. by left.
Qed.

Lemma remotePlayer_other e : NesLoop.remotePlayer true e ≠ NesLoop.localPlayer e.
Proof. unfold NesLoop.remotePlayer. case_decide; lia. Qed.

Lemma shows_other pad pad' player mask :
  (∀ button, pad' player button = pad player button) →
  NesPad.shows pad player mask → NesPad.shows pad' player mask.
Proof. intros Heq Hs bit button Hin. rewrite Heq. by apply Hs. Qed.

Lemma advance_run fuel e pad :
  NesRun.padShows pad e →
  let r := NesLoop.advance true fuel e in
  NesLoop.plannedLocalFrame r.1 = NesLoop.plannedLocalFrame e
  ∧ NesLoop.localPlayer r.1 = NesLoop.localPlayer e
  ∧ NesLoop.localInputState r.1 = NesLoop.localInputState e
  ∧ NesLoop.currentFrame e ≤ NesLoop.currentFrame r.1
  ∧ NesRun.sentFrames r.2 = []
  ∧ NesRun.steppedFrames r.2
    = seqZ (NesLoop.currentFrame e) (NesLoop.currentFrame r.1 - NesLoop.currentFrame e)
  ∧ NesRun.padShows (NesPad.performAll pad r.2) r.1.
Proof.
  revert e pad. induction fuel as [| k IH]; intros e pad Hpad; cbn zeta.
  - simpl. split_and!; first [done | lia | by rewrite Z.sub_diag].
  - cbn [NesLoop.advance].
    destruct (NesLoop.localStateByFrame e !! NesLoop.currentFrame e) as [localMask |];
      [| simpl; split_and!; first [done | lia | by rewrite Z.sub_diag]].
    destruct (NesLoop.remoteStateByFrame e !! NesLoop.currentFrame e) as [remoteMask |];
      [| simpl; split_and!; first [done | lia | by rewrite Z.sub_diag]].
    set (pad1 := NesPad.performAll pad
                   (NesLoop.applyMaskToPlayer (NesLoop.localPlayer e)
                      (NesLoop.previousLocalAppliedState e) localMask)).
    set (pad2 := NesPad.performAll pad1
                   (NesLoop.applyMaskToPlayer (NesLoop.remotePlayer true e)
                      (NesLoop.previousRemoteAppliedState e) remoteMask)).
    destruct Hpad as [Hlocal Hremote].
    destruct (mask_shows (NesLoop.localPlayer e) (NesLoop.previousLocalAppliedState e)
                localMask pad Hlocal) as [Hl1 Ho1]. fold pad1 in Hl1, Ho1.
    assert (NesPad.shows pad1 (NesLoop.remotePlayer true e)
              (NesLoop.previousRemoteAppliedState e)) as Hr1.
    { eapply shows_other; [| exact Hremote]. intros button. apply Ho1.
      apply remotePlayer_other. }
    destruct (mask_shows (NesLoop.remotePlayer true e)
                (NesLoop.previousRemoteAppliedState e) remoteMask pad1 Hr1) as [Hr2 Ho2].
    fold pad2 in Hr2, Ho2.
    assert (NesPad.shows pad2 (NesLoop.localPlayer e) localMask) as Hl2.
    { eapply shows_other; [| exact Hl1]. intros button. apply Ho2.
      intros Heq. by apply (remotePlayer_other e). }
    match goal with |- context [NesLoop.advance true k ?x] =>
      specialize (IH x pad2); destruct (NesLoop.advance true k x) as [e' effects] eqn:E end.
    destruct IH as (H1 & H2 & H3 & H4 & H5 & H6 & H7); [by split |].
    cbn [NesLoop.currentFrame NesLoop.plannedLocalFrame NesLoop.localInputState
         NesLoop.localPlayer fst snd] in *.
    destruct (frames_of_mask (NesLoop.localPlayer e) (NesLoop.previousLocalAppliedState e)
                localMask) as [Hs1 Hf1].
    destruct (frames_of_mask (NesLoop.remotePlayer true e)
                (NesLoop.previousRemoteAppliedState e) remoteMask) as [Hs2 Hf2].
    split_and!; try done.
    + lia.
    + by rewrite !sentFrames_app, Hs1, Hs2, (proj1 (frames_of_frame _ _)), H5.
    + rewrite !steppedFrames_app, Hf1, Hf2, (proj2 (frames_of_frame _ _)), H6.
      rewrite (seqZ_cons (NesLoop.currentFrame e)) by lia.
      cbn [app]. f_equal. f_equal. lia.
    + unfold NesPad.performAll in *. rewrite !foldl_app. simpl. exact H7.
Qed.

Lemma prune_fields e :
  NesLoop.localPlayer (NesLoop.prune e) = NesLoop.localPlayer e
  ∧ NesLoop.localInputState (NesLoop.prune e) = NesLoop.localInputState e
  ∧ NesLoop.previousLocalAppliedState (NesLoop.prune e) = NesLoop.previousLocalAppliedState e
  ∧ NesLoop.previousRemoteAppliedState (NesLoop.prune e)
    = NesLoop.previousRemoteAppliedState e
  ∧ NesLoop.currentFrame (NesLoop.prune e) = NesLoop.currentFrame e
  ∧ NesLoop.plannedLocalFrame (NesLoop.prune e) = NesLoop.plannedLocalFrame e
  ∧ (∀ f, Z.max 0 (NesLoop.currentFrame e - 180) ≤ f →
       NesLoop.localStateByFrame (NesLoop.prune e) !! f = NesLoop.localStateByFrame e !! f
       ∧ NesLoop.remoteStateByFrame (NesLoop.prune e) !! f
         = NesLoop.remoteStateByFrame e !! f).
Proof.
  unfold NesLoop.prune. destruct (_ =? 0); [| done]. simpl. split_and!; try done.
  intros f Hf. split.
  - destruct (NesLoop.localStateByFrame e !! f) as [v |] eqn:E.
    + apply map_lookup_filter_Some. split; [done |]. simpl. lia.
    + apply map_lookup_filter_None. by left.
  - destruct (NesLoop.remoteStateByFrame e !! f) as [v |] eqn:E.
    + apply map_lookup_filter_Some. split; [done |]. simpl. lia.
    + apply map_lookup_filter_None. by left.
Qed.

Lemma remotePlayer_same e e' :
  NesLoop.localPlayer e' = NesLoop.localPlayer e →
  NesLoop.remotePlayer true e' = NesLoop.remotePlayer true e.
Proof. unfold NesLoop.remotePlayer. by intros ->. Qed.

Lemma padShows_same pad e e' :
  NesLoop.localPlayer e' = NesLoop.localPlayer e →
  NesLoop.previousLocalAppliedState e' = NesLoop.previousLocalAppliedState e →
  NesLoop.previousRemoteAppliedState e' = NesLoop.previousRemoteAppliedState e →
  NesRun.padShows pad e → NesRun.padShows pad e'.
Proof.
  intros H1 H2 H3. unfold NesRun.padShows.
  by rewrite (remotePlayer_same e e' H1), H1, H2, H3.
Qed.

(** One tick, not paused. *)
Lemma lockstepTick_run e pad :
  NesRun.inOrder e → NesRun.padShows pad e →
  let r := NesLoop.lockstepTick e in
  NesRun.inOrder r.1
  ∧ NesLoop.localPlayer r.1 = NesLoop.localPlayer e
  ∧ NesLoop.localInputState r.1 = NesLoop.localInputState e
  ∧ NesLoop.plannedLocalFrame e ≤ NesLoop.plannedLocalFrame r.1
  ∧ NesLoop.currentFrame e ≤ NesLoop.currentFrame r.1
  ∧ NesRun.sentFrames r.2
    = seqZ (NesLoop.plannedLocalFrame e)
           (NesLoop.plannedLocalFrame r.1 - NesLoop.plannedLocalFrame e)
  ∧ NesRun.steppedFrames r.2
    = seqZ (NesLoop.currentFrame e) (NesLoop.currentFrame r.1 - NesLoop.currentFrame e)
  ∧ NesRun.padShows (NesPad.performAll pad r.2) r.1.
Proof.
  intros (Hc & Hp & Hlocal) Hpad. cbn zeta. unfold NesLoop.lockstepTick.
  destruct (plan_full e) as (P1 & P2 & P3 & P4 & P5 & P6 & P7 & P8 & P9 & P10).
  destruct (NesLoop.plan e) as [e1 sent]. cbn [fst snd] in *.
  assert (NesRun.padShows pad e1) as Hpad1 by (by eapply padShows_same).
  destruct (advance_run 2 e1 pad Hpad1) as (A1 & A2 & A3 & A4 & A5 & A6 & A7).
  destruct (advance_spec true 2 e1) as (B1 & B2 & B3 & _).
  destruct (NesLoop.advance true 2 e1) as [e2 applied]. cbn [fst snd] in *.
  destruct (prune_fields e2) as (Q1 & Q2 & Q3 & Q4 & Q5 & Q6 & Q7).
  assert (NesRun.sentFrames sent
          = seqZ (NesLoop.plannedLocalFrame e)
                 (NesLoop.plannedLocalFrame e1 - NesLoop.plannedLocalFrame e)) as Hsent.
  { rewrite P1, P2. unfold NesRun.sentFrames, seqZ.
    replace (NesLoop.plannedLocalFrame e + _ - NesLoop.plannedLocalFrame e)
      with (Z.of_nat (Z.to_nat (NesLoop.currentFrame e + 4 - NesLoop.plannedLocalFrame e)))
      by lia.
    rewrite Nat2Z.id. generalize (Z.to_nat (NesLoop.currentFrame e + 4
                                              - NesLoop.plannedLocalFrame e)).
    intros n. generalize 0%nat. induction n as [| n IH]; intros m; [done |].
    simpl. f_equal; [lia | apply IH]. }
  assert (NesRun.steppedFrames sent = []) as Hnone.
  { rewrite P1. unfold NesRun.steppedFrames.
    generalize (Z.to_nat (NesLoop.currentFrame e + 4 - NesLoop.plannedLocalFrame e)).
    intros n. generalize 0%nat. induction n as [| n IH]; intros m; [done |].
    simpl. apply IH. }
  assert (NesPad.performAll pad sent = pad) as Hsame.
  { rewrite P1. unfold NesPad.performAll.
    generalize (Z.to_nat (NesLoop.currentFrame e + 4 - NesLoop.plannedLocalFrame e)).
    intros n. generalize 0%nat. induction n as [| n IH]; intros m; [done |].
    simpl. apply IH. }
  split_and!.
  - unfold NesRun.inOrder. rewrite Q5, Q6, A1, P2. split_and!; try lia.
    intros f Hf. rewrite (proj1 (Q7 f ltac:(lia))), B1, P3.
    case_decide; [done |]. apply Hlocal. lia.
  - by rewrite Q1, A2.
  - by rewrite Q2, A3.
  - rewrite Q6, A1, P2. lia.
  - rewrite Q5. lia.
  - by rewrite sentFrames_app, Hsent, A5, app_nil_r, Q6, A1.
  - by rewrite steppedFrames_app, Hnone, A6, Q5, P8.
  - unfold NesPad.performAll in *. rewrite foldl_app, Hsame.
    eapply padShows_same; [| | | exact A7]; done.
Qed.

Lemma toInt32_small z : - 2 ^ 31 ≤ z < 2 ^ 31 → toInt32 z = z.
Proof. intros Hz. unfold toInt32. rewrite Z.mod_small; lia. Qed.

Lemma byte_iff a : 0 ≤ a < 256 ↔ Z.land a 255 = a.
Proof.
  change 255 with (Z.ones 8). rewrite Z.land_ones by lia. split.
  - intros Ha. by apply Z.mod_small.
  - intros <-. apply Z.mod_pos_bound. lia.
Qed.

Lemma byte_bits a : (0 ≤ a < 256) ↔ (0 ≤ a ∧ ∀ j, 8 ≤ j → Z.testbit a j = false).
Proof.
  split.
  - intros Ha. split; [lia |]. intros j Hj. apply byte_iff in Ha. rewrite <- Ha.
    rewrite Z.land_spec. change 255 with (Z.ones 8).
    rewrite Z.ones_spec_high by lia. apply andb_false_r.
  - intros [H0 Hbits]. apply byte_iff. apply Z.bits_inj'. intros j Hj.
    rewrite Z.land_spec. change 255 with (Z.ones 8).
    destruct (decide (j < 8)).
    + rewrite Z.ones_spec_low by lia. apply andb_true_r.
    + rewrite Hbits by lia. done.
Qed.

Lemma keyToBit_bit c code bit :
  NesKeys.keyToBit c code = Some bit → ∃ k, 0 ≤ k < 8 ∧ bit = 2 ^ k.
Proof.
  unfold NesKeys.keyToBit. intros H.
  destruct (list_find _ _) as [[i [key v]] |] eqn:E; [| done].
  simpl in H. injection H as ->.
  apply list_find_Some in E as (Hi & _ & _).
  apply list_elem_of_lookup_2, elem_of_reverse in Hi. unfold NesKeys.keyToBitEntries in Hi.
  repeat (apply elem_of_cons in Hi as [Hi | Hi];
          [injection Hi as _ ->; rewrite Z.shiftl_1_l; eexists; split; [| reflexivity]; lia |]).
  by apply elem_of_nil in Hi.
Qed.

Lemma press_bit a k :
  0 ≤ a < 256 → 0 ≤ k < 8 →
  0 ≤ toInt32 (Z.lor a (2 ^ k)) < 256
  ∧ ∀ j, 0 ≤ j → Z.testbit (toInt32 (Z.lor a (2 ^ k))) j = Z.testbit a j || (j =? k).
Proof.
  intros Ha Hk.
  assert (∀ j, 0 ≤ j → Z.testbit (Z.lor a (2 ^ k)) j = Z.testbit a j || (j =? k)) as Hbits.
  { intros j Hj. rewrite Z.lor_spec, Z.pow2_bits_eqb by lia. by rewrite (Z.eqb_sym k j). }
  assert (0 ≤ Z.lor a (2 ^ k) < 256) as Hbyte.
  { apply byte_bits. split; [apply Z.lor_nonneg; lia |]. intros j Hj.
    rewrite Hbits by lia. rewrite (proj2 (proj1 (byte_bits a) Ha)) by lia.
    apply Z.eqb_neq. lia. }
  rewrite toInt32_small by lia. by split.
Qed.

Lemma release_bit a k :
  0 ≤ a < 256 → 0 ≤ k < 8 →
  0 ≤ toInt32 (Z.land a (toInt32 (Z.lnot (2 ^ k)))) < 256
  ∧ ∀ j, 0 ≤ j →
      Z.testbit (toInt32 (Z.land a (toInt32 (Z.lnot (2 ^ k))))) j
      = Z.testbit a j && negb (j =? k).
Proof.
  intros Ha Hk.
  assert (1 ≤ 2 ^ k ≤ 128) as Hpow.
  { split; [apply (Z.pow_le_mono_r 2 0 k); lia | apply (Z.pow_le_mono_r 2 k 7); lia]. }
  rewrite (toInt32_small (Z.lnot _)) by (unfold Z.lnot; lia).
  assert (∀ j, 0 ≤ j → Z.testbit (Z.land a (Z.lnot (2 ^ k))) j
                       = Z.testbit a j && negb (j =? k)) as Hbits.
  { intros j Hj. rewrite Z.land_spec, Z.lnot_spec, Z.pow2_bits_eqb by lia.
    by rewrite (Z.eqb_sym k j). }
  assert (0 ≤ Z.land a (Z.lnot (2 ^ k)) < 256) as Hbyte.
  { apply byte_bits. split; [apply Z.land_nonneg; lia |]. intros j Hj.
    rewrite Hbits by lia. by rewrite (proj2 (proj1 (byte_bits a) Ha)) by lia. }
  rewrite toInt32_small by lia. by split.
Qed.

Lemma keys_fields paused claimed menuOpen hotkey c code e :
  let d := NesKeys.down paused claimed menuOpen hotkey c code e in
  let u := NesKeys.up paused c code e in
  (0 ≤ NesLoop.localInputState e < 256 →
   0 ≤ NesLoop.localInputState d < 256 ∧ 0 ≤ NesLoop.localInputState u < 256)
  ∧ (∀ x, x = d ∨ x = u →
     NesLoop.localPlayer x = NesLoop.localPlayer e
     ∧ NesLoop.previousLocalAppliedState x = NesLoop.previousLocalAppliedState e
     ∧ NesLoop.previousRemoteAppliedState x = NesLoop.previousRemoteAppliedState e
     ∧ NesLoop.currentFrame x = NesLoop.currentFrame e
     ∧ NesLoop.plannedLocalFrame x = NesLoop.plannedLocalFrame e
     ∧ NesLoop.localStateByFrame x = NesLoop.localStateByFrame e
     ∧ NesLoop.remoteStateByFrame x = NesLoop.remoteStateByFrame e
     ∧ NesLoop.remoteStreamInputState x = NesLoop.remoteStreamInputState e).
Proof.
  cbn zeta. unfold NesKeys.down, NesKeys.up. split.
  - intros Ha. destruct (NesKeys.keyToBit c code) as [bit |] eqn:E;
      [| by repeat case_match].
    apply keyToBit_bit in E as (k & Hk & ->).
    destruct (press_bit _ k Ha Hk) as [? _], (release_bit _ k Ha Hk) as [? _].
    repeat case_match; by split.
  - intros x [-> | ->]; repeat case_match; done.
Qed.

(** X22. The key handlers of the NES view in netplay: for a mask of eight
    bits, a key bound to a button sets the button's bit on [keydown] and
    clears it on [keyup], touches no other bit and leaves a mask of eight
    bits; a key bound to nothing changes nothing, nor does any key while
    the game is paused, or a [keydown] that Escape, the save keys, the open
    menu or the replay hotkey take first. *)
Theorem keys_set_and_clear paused claimed menuOpen hotkey c code e :
  0 ≤ NesLoop.localInputState e < 256 →
  let d := NesKeys.down paused claimed menuOpen hotkey c code e in
  let u := NesKeys.up paused c code e in
  0 ≤ NesLoop.localInputState d < 256
  ∧ 0 ≤ NesLoop.localInputState u < 256
  ∧ (paused = true → d = e ∧ u = e)
  ∧ (claimed || menuOpen || hotkey = true → d = e)
  ∧ match NesKeys.keyToBit c code with
    | None => d = e ∧ u = e
    | Some bit =>
        ∃ k, 0 ≤ k < 8 ∧ bit = 2 ^ k
             ∧ (paused = false →
                ∀ j, 0 ≤ j → Z.testbit (NesLoop.localInputState u) j
                             = Z.testbit (NesLoop.localInputState e) j && negb (j =? k))
             ∧ (paused || claimed || menuOpen || hotkey = false →
                ∀ j, 0 ≤ j → Z.testbit (NesLoop.localInputState d) j
                             = Z.testbit (NesLoop.localInputState e) j || (j =? k))
    end.
Proof.
  intros Ha d u.
  assert (0 ≤ NesLoop.localInputState d < 256 ∧ 0 ≤ NesLoop.localInputState u < 256)
    as [Hd Hu] by (by apply (keys_fields paused claimed menuOpen hotkey c code e)).
  split_and!; try done; try lia.
  - intros ->. done.
  - unfold d, NesKeys.down. by destruct paused, claimed, menuOpen, hotkey.
  - unfold d, u, NesKeys.down, NesKeys.up.
    destruct (NesKeys.keyToBit c code) as [bit |] eqn:E; [| by repeat case_match].
    destruct (keyToBit_bit _ _ _ E) as (k & Hk & ->). exists k.
    split; [done |]. split; [done |]. split.
    + intros ->. by apply release_bit.
    + intros Hnone. destruct paused, claimed, menuOpen, hotkey; try done.
      by apply press_bit.
Qed.

Lemma keys_set_and_clear_witness :
  0 ≤ NesLoop.localInputState
        (NesKeys.down false false false false
           (NesKeys.mkControls "KeyW" "KeyS" "KeyA" "KeyD" "KeyK" "KeyJ" "Enter"
                               "ShiftRight")
           "KeyK" (NesLoop.start 1)) < 256.
Proof.
  refine (proj1 (keys_set_and_clear false false false false
       (NesKeys.mkControls "KeyW" "KeyS" "KeyA" "KeyD" "KeyK" "KeyJ" "Enter" "ShiftRight")
       "KeyK" (NesLoop.start 1) _)).
  simpl. lia.
Defined.

Lemma seqZ_app' m n1 n2 k :
  0 ≤ n1 → 0 ≤ n2 → k = m + n1 → seqZ m n1 ++ seqZ k n2 = seqZ m (n1 + n2).
Proof. intros H1 H2 ->. by rewrite seqZ_app. Qed.

Lemma inOrder_same e e' :
  NesLoop.currentFrame e' = NesLoop.currentFrame e →
  NesLoop.plannedLocalFrame e' = NesLoop.plannedLocalFrame e →
  NesLoop.localStateByFrame e' = NesLoop.localStateByFrame e →
  NesRun.inOrder e → NesRun.inOrder e'.
Proof. intros H1 H2 H3. unfold NesRun.inOrder. by rewrite H1, H2, H3. Qed.

Lemma quiet_step e e' pad :
  NesLoop.localPlayer e' = NesLoop.localPlayer e →
  NesLoop.previousLocalAppliedState e' = NesLoop.previousLocalAppliedState e →
  NesLoop.previousRemoteAppliedState e' = NesLoop.previousRemoteAppliedState e →
  NesLoop.currentFrame e' = NesLoop.currentFrame e →
  NesLoop.plannedLocalFrame e' = NesLoop.plannedLocalFrame e →
  NesLoop.localStateByFrame e' = NesLoop.localStateByFrame e →
  NesRun.inOrder e → NesRun.padShows pad e →
  NesRun.inOrder e'
  ∧ NesLoop.localPlayer e' = NesLoop.localPlayer e
  ∧ NesLoop.plannedLocalFrame e ≤ NesLoop.plannedLocalFrame e'
  ∧ NesLoop.currentFrame e ≤ NesLoop.currentFrame e'
  ∧ [] = seqZ (NesLoop.plannedLocalFrame e)
              (NesLoop.plannedLocalFrame e' - NesLoop.plannedLocalFrame e)
  ∧ [] = seqZ (NesLoop.currentFrame e) (NesLoop.currentFrame e' - NesLoop.currentFrame e)
  ∧ NesRun.padShows pad e'.
Proof.
  intros H1 H2 H3 H4 H5 H6 Hin Hpad. rewrite H4, H5, !Z.sub_diag.
  split_and!; try done; try lia; [by eapply inOrder_same | by eapply padShows_same].
Qed.

Lemma step_run controls room user ev e pad :
  NesRun.inOrder e → NesRun.padShows pad e → 0 ≤ NesLoop.localInputState e < 256 →
  let r := NesRun.step controls room user ev e in
  (NesRun.inOrder r.1
   ∧ NesLoop.localPlayer r.1 = NesLoop.localPlayer e
   ∧ NesLoop.plannedLocalFrame e ≤ NesLoop.plannedLocalFrame r.1
   ∧ NesLoop.currentFrame e ≤ NesLoop.currentFrame r.1
   ∧ NesRun.sentFrames r.2
     = seqZ (NesLoop.plannedLocalFrame e)
            (NesLoop.plannedLocalFrame r.1 - NesLoop.plannedLocalFrame e)
   ∧ NesRun.steppedFrames r.2
     = seqZ (NesLoop.currentFrame e) (NesLoop.currentFrame r.1 - NesLoop.currentFrame e)
   ∧ NesRun.padShows (NesPad.performAll pad r.2) r.1)
  ∧ 0 ≤ NesLoop.localInputState r.1 < 256.
Proof.
  intros Hin Hpad Hbyte. cbn zeta.
  destruct ev as [paused claimed menuOpen hotkey code | paused code | paused
                 | payloadRoom payloadFrom frame state]; cbn [NesRun.step fst snd].
  - destruct (keys_fields paused claimed menuOpen hotkey controls code e) as [Hb Hf].
    destruct (Hf _ (or_introl eq_refl)) as (F1 & F2 & F3 & F4 & F5 & F6 & F7 & F8).
    split; [by apply quiet_step | by apply Hb].
  - destruct (keys_fields paused false false false controls code e) as [Hb Hf].
    destruct (Hf _ (or_intror eq_refl)) as (F1 & F2 & F3 & F4 & F5 & F6 & F7 & F8).
    split; [by apply quiet_step | by apply Hb].
  - unfold NesLoop.loop. cbn [negb]. destruct paused; cbn [fst snd].
    + split; [by apply (quiet_step e e pad) | done].
    + destruct (lockstepTick_run e pad Hin Hpad) as (T1 & T2 & T3 & T4 & T5 & T6 & T7 & T8).
      destruct (NesLoop.lockstepTick e) as [e' effects]. cbn [fst snd] in *.
      split; [| by rewrite T3]. split_and!; try done.
      * by rewrite sentFrames_app, T6, app_nil_r.
      * by rewrite steppedFrames_app, T7, app_nil_r.
      * unfold NesPad.performAll in *. by rewrite foldl_app.
  - unfold NesLoop.onNetplayInput.
    destruct (negb _); [split; [by apply (quiet_step e e pad) | done] |].
    destruct (bool_decide _); [split; [by apply (quiet_step e e pad) | done] |].
    split; [by apply quiet_step | done].
Qed.

Lemma run_sound controls room user evs e pad :
  NesRun.inOrder e → NesRun.padShows pad e → 0 ≤ NesLoop.localInputState e < 256 →
  let r := NesRun.run controls room user evs e in
  NesRun.inOrder r.1
  ∧ 0 ≤ NesLoop.localInputState r.1 < 256
  ∧ NesLoop.localPlayer r.1 = NesLoop.localPlayer e
  ∧ NesLoop.plannedLocalFrame e ≤ NesLoop.plannedLocalFrame r.1
  ∧ NesLoop.currentFrame e ≤ NesLoop.currentFrame r.1
  ∧ NesRun.sentFrames r.2
    = seqZ (NesLoop.plannedLocalFrame e)
           (NesLoop.plannedLocalFrame r.1 - NesLoop.plannedLocalFrame e)
  ∧ NesRun.steppedFrames r.2
    = seqZ (NesLoop.currentFrame e) (NesLoop.currentFrame r.1 - NesLoop.currentFrame e)
  ∧ NesRun.padShows (NesPad.performAll pad r.2) r.1.
Proof.
  revert e pad. induction evs as [| ev evs IH]; intros e pad Hin Hpad Hbyte; cbn zeta.
  - simpl. rewrite !Z.sub_diag. split_and!; try done; lia.
  - cbn [NesRun.run].
    destruct (step_run controls room user ev e pad Hin Hpad Hbyte)
      as ((S1 & S2 & S3 & S4 & S5 & S6 & S7) & S8).
    destruct (NesRun.step controls room user ev e) as [e1 effects1]. cbn [fst snd] in *.
    destruct (IH e1 (NesPad.performAll pad effects1) S1 S7 S8)
      as (R1 & R2 & R3 & R4 & R5 & R6 & R7 & R8).
    destruct (NesRun.run controls room user evs e1) as [e2 effects2]. cbn [fst snd] in *.
    split_and!; try done; try lia;
      first [ by rewrite R3
            | rewrite sentFrames_app, S5, R6, (seqZ_app' _ _ _ _) by lia; f_equal; lia
            | rewrite steppedFrames_app, S6, R7, (seqZ_app' _ _ _ _) by lia; f_equal; lia
            | unfold NesPad.performAll in *; by rewrite foldl_app ].
Qed.

Lemma start_sound player :
  NesRun.inOrder (NesLoop.start player)
  ∧ NesRun.padShows NesPad.released (NesLoop.start player)
  ∧ 0 ≤ NesLoop.localInputState (NesLoop.start player) < 256.
Proof.
  split; [| split].
  - unfold NesRun.inOrder, NesLoop.start, LOCKSTEP_INPUT_DELAY_FRAMES.
    cbn [NesLoop.currentFrame NesLoop.plannedLocalFrame NesLoop.localStateByFrame].
    split; [lia |]. split; [lia |]. intros f Hf.
    assert (f = 0 ∨ f = 1 ∨ f = 2) as [-> | [-> | ->]] by lia; by eexists.
  - split; intros bit button _; by rewrite Z.land_0_l.
  - simpl. lia.
Qed.

Lemma tick_steps_iff e :
  NesRun.inOrder e →
  NesLoop.Frame (NesLoop.currentFrame e) ∈ (NesLoop.lockstepTick e).2
  ↔ is_Some (NesLoop.remoteStateByFrame e !! NesLoop.currentFrame e).
Proof.
  intros (Hc & Hp & Hlocal). unfold NesLoop.lockstepTick.
  destruct (plan_full e) as (P1 & P2 & P3 & P4 & P5 & P6 & P7 & P8 & P9 & P10).
  destruct (planLoop_spec
              (Z.to_nat (NesLoop.currentFrame e + LOCKSTEP_INPUT_DELAY_FRAMES + 1
                         - NesLoop.plannedLocalFrame e)) e) as (_ & _ & Hquiet).
  fold (NesLoop.plan e) in Hquiet.
  destruct (NesLoop.plan e) as [e1 sent]. cbn [fst snd] in *.
  destruct (advance_spec true 2 e1) as (B1 & B2 & B3 & B4 & B5 & B6).
  destruct (NesLoop.advance true 2 e1) as [e2 applied]. cbn [fst snd] in *.
  rewrite elem_of_app. split.
  - intros [Hin | Hin]; [by destruct (Hquiet _ Hin) |].
    apply B4 in Hin. rewrite <- P8, <- P9. apply B5. lia.
  - intros Hremote. right. apply B4. split; [lia |]. rewrite <- P8. apply B6; [done | |].
    + rewrite P3, P8. case_decide; [done |]. apply Hlocal. lia.
    + by rewrite P9, P8.
Qed.

(** X23. Lockstep play on the NES view, from its set-up through any key
    events, ticks (paused or not) and inputs from the network: the mask
    typed stays within eight bits, the planned frame stays two to four
    frames ahead of the current one, and every frame from the current one
    up to the planned one has its local mask.  So the next tick steps the
    current frame exactly when the remote mask for it has arrived. *)
Theorem lockstep_waits_for_remote_only controls room user evs player :
  let e := (NesRun.run controls room user evs (NesLoop.start player)).1 in
  0 ≤ NesLoop.localInputState e < 256
  ∧ NesLoop.currentFrame e + 2 ≤ NesLoop.plannedLocalFrame e ≤ NesLoop.currentFrame e + 4
  ∧ (∀ f, NesLoop.currentFrame e ≤ f < NesLoop.plannedLocalFrame e →
          is_Some (NesLoop.localStateByFrame e !! f))
  ∧ (NesLoop.Frame (NesLoop.currentFrame e) ∈ (NesLoop.lockstepTick e).2
     ↔ is_Some (NesLoop.remoteStateByFrame e !! NesLoop.currentFrame e)).
Proof.
  intros e. destruct (start_sound player) as (H1 & H2 & H3).
  destruct (run_sound controls room user evs (NesLoop.start player) NesPad.released
              H1 H2 H3) as (R1 & R2 & _).
  fold e in R1, R2. split; [done |]. split; [apply R1 |]. split; [apply R1 |].
  by apply tick_steps_iff.
Qed.

Lemma lockstep_waits_for_remote_only_witness :
  is_Some (NesLoop.localStateByFrame
             (NesRun.run (NesKeys.mkControls "KeyW" "KeyS" "KeyA" "KeyD" "KeyK" "KeyJ"
                                             "Enter" "ShiftRight")
                         "ABCD1234" "u1" [NesRun.Tick false] (NesLoop.start 1)).1
           !! 3).
Proof.
  refine (proj1 (proj2 (proj2 (lockstep_waits_for_remote_only
            (NesKeys.mkControls "KeyW" "KeyS" "KeyA" "KeyD" "KeyK" "KeyJ" "Enter"
                                "ShiftRight")
            "ABCD1234" "u1" [NesRun.Tick false] 1))) 3 _).
  vm_compute. split; [discriminate | reflexivity].
Defined.

(** X24. In such a run every frame's local mask is sent exactly once and in
    the order of the frames: the frames sent by the set-up and the ticks
    are 0, 1, 2, ... up to the planned frame, without gap or repeat; and
    the frames stepped are 0, 1, 2, ... up to the current frame. *)
Theorem frames_sent_once_in_order controls room user evs player :
  let r := NesRun.run controls room user evs (NesLoop.start player) in
  NesRun.sentFrames (NesRun.setup ++ r.2) = seqZ 0 (NesLoop.plannedLocalFrame r.1)
  ∧ NesRun.steppedFrames (NesRun.setup ++ r.2) = seqZ 0 (NesLoop.currentFrame r.1).
Proof.
  intros r. destruct (start_sound player) as (H1 & H2 & H3).
  destruct (run_sound controls room user evs (NesLoop.start player) NesPad.released
              H1 H2 H3) as (_ & _ & _ & R4 & R5 & R6 & R7 & _).
  fold r in R4, R5, R6, R7. cbn [NesLoop.start NesLoop.plannedLocalFrame
                                  NesLoop.currentFrame] in R4, R5, R6, R7.
  unfold LOCKSTEP_INPUT_DELAY_FRAMES in *. split.
  - rewrite sentFrames_app, R6.
    change (NesRun.sentFrames NesRun.setup) with (seqZ 0 3).
    rewrite (seqZ_app' _ _ _ _) by lia. f_equal. lia.
  - rewrite steppedFrames_app, R7. rewrite Z.sub_0_r. done.
Qed.

(** X25. In such a run, with all buttons released at the start, the
    emulator's pads hold after every event exactly the buttons of the masks
    the loop applied last: the local player's pad those of the last local
    mask applied, the other player's pad those of the last remote one. *)
Theorem pads_follow_applied_masks controls room user evs player :
  let r := NesRun.run controls room user evs (NesLoop.start player) in
  let pad := NesPad.performAll NesPad.released (NesRun.setup ++ r.2) in
  NesLoop.localPlayer r.1 = player
  ∧ NesPad.shows pad player (NesLoop.previousLocalAppliedState r.1)
  ∧ NesPad.shows pad (if decide (player = 1) then 2 else 1)
                 (NesLoop.previousRemoteAppliedState r.1).
Proof.
  intros r pad. destruct (start_sound player) as (H1 & H2 & H3).
  destruct (run_sound controls room user evs (NesLoop.start player) NesPad.released
              H1 H2 H3) as (_ & _ & R3 & _ & _ & _ & _ & [R8 R9]).
  fold r in R3, R8, R9. unfold NesLoop.remotePlayer in R9. rewrite R3 in R8, R9.
  by split_and!.
Qed.

(** ** The SNES view: keys and masks *)

Lemma snes_keyToBit_bit code bit :
  SnesKeys.keyToBit code = Some bit → ∃ k, 0 ≤ k < 12 ∧ bit = 2 ^ k.
Proof.
  unfold SnesKeys.keyToBit. intros H.
  destruct (list_find _ _) as [[i [key v]] |] eqn:E; [| done].
  simpl in H. injection H as ->.
  apply list_find_Some in E as (Hi & _ & _).
  apply list_elem_of_lookup_2 in Hi. unfold SnesKeys.keyToBitEntries in Hi.
  repeat (apply elem_of_cons in Hi as [Hi | Hi];
          [injection Hi as _ ->; rewrite Z.shiftl_1_l; eexists; split; [| reflexivity]; lia |]).
  by apply elem_of_nil in Hi.
Qed.

Lemma mask_bits n a :
  0 ≤ n → (0 ≤ a < 2 ^ n) ↔ (0 ≤ a ∧ ∀ j, n ≤ j → Z.testbit a j = false).
Proof.
  intros Hn. split.
  - intros Ha. split; [lia |]. intros j Hj.
    destruct (decide (a = 0)) as [-> | Hne]; [apply Z.bits_0 |].
    apply Z.bits_above_log2; [lia |].
    apply Z.log2_lt_pow2; [lia |]. apply (Z.lt_le_trans _ (2 ^ n)); [lia |].
    apply Z.pow_le_mono_r; lia.
  - intros [H0 Hbits]. split; [done |].
    destruct (decide (a = 0)) as [-> | Hne]; [apply Z.pow_pos_nonneg; lia |].
    apply Z.log2_lt_pow2; [lia |].
    destruct (decide (Z.log2 a < n)) as [? | Hge]; [done |].
    pose proof (Z.bit_log2 a ltac:(lia)) as Hone.
    rewrite Hbits in Hone by lia. done.
Qed.

Lemma snes_press a k :
  0 ≤ a < 4096 → 0 ≤ k < 12 →
  0 ≤ toInt32 (Z.lor a (2 ^ k)) < 4096
  ∧ ∀ j, 0 ≤ j → Z.testbit (toInt32 (Z.lor a (2 ^ k))) j = Z.testbit a j || (j =? k).
Proof.
  intros Ha Hk.
  assert (∀ j, 0 ≤ j → Z.testbit (Z.lor a (2 ^ k)) j = Z.testbit a j || (j =? k)) as Hbits.
  { intros j Hj. rewrite Z.lor_spec, Z.pow2_bits_eqb by lia. by rewrite (Z.eqb_sym k j). }
  assert (0 ≤ Z.lor a (2 ^ k) < 2 ^ 12) as Hbyte.
  { apply mask_bits; [lia |]. split; [apply Z.lor_nonneg; lia |]. intros j Hj.
    rewrite Hbits by lia. rewrite (proj2 (proj1 (mask_bits 12 a ltac:(lia)) Ha)) by lia.
    apply Z.eqb_neq. lia. }
  rewrite toInt32_small by lia. split; [lia | done].
Qed.

Lemma snes_release a k :
  0 ≤ a < 4096 → 0 ≤ k < 12 →
  0 ≤ toInt32 (Z.land a (toInt32 (Z.lnot (2 ^ k)))) < 4096
  ∧ ∀ j, 0 ≤ j →
      Z.testbit (toInt32 (Z.land a (toInt32 (Z.lnot (2 ^ k))))) j
      = Z.testbit a j && negb (j =? k).
Proof.
  intros Ha Hk.
  assert (1 ≤ 2 ^ k ≤ 2048) as Hpow.
  { split; [apply (Z.pow_le_mono_r 2 0 k); lia | apply (Z.pow_le_mono_r 2 k 11); lia]. }
  rewrite (toInt32_small (Z.lnot _)) by (unfold Z.lnot; lia).
  assert (∀ j, 0 ≤ j → Z.testbit (Z.land a (Z.lnot (2 ^ k))) j
                       = Z.testbit a j && negb (j =? k)) as Hbits.
  { intros j Hj. rewrite Z.land_spec, Z.lnot_spec, Z.pow2_bits_eqb by lia.
    by rewrite (Z.eqb_sym k j). }
  assert (0 ≤ Z.land a (Z.lnot (2 ^ k)) < 2 ^ 12) as Hbyte.
  { apply mask_bits; [lia |]. split; [apply Z.land_nonneg; lia |]. intros j Hj.
    rewrite Hbits by lia.
    by rewrite (proj2 (proj1 (mask_bits 12 a ltac:(lia)) Ha)) by lia. }
  rewrite toInt32_small by lia. split; [lia | done].
Qed.

Lemma land_pow2 a k : 0 ≤ k → (Z.land a (2 ^ k) =? 0) = negb (Z.testbit a k).
Proof. intros Hk. rewrite <- Z.shiftl_1_l. by apply land_bit. Qed.

(** X26. The key handlers of the SNES view, for a mask of twelve bits.  A
    [keydown] of a key whose button is already held and a [keyup] of one
    that is not change nothing and send nothing.  Otherwise the button's
    bit, and no other, is set or cleared and the mask stays within twelve
    bits; in lockstep play the new mask is stored under the frame that is
    the later of the planned frame and the third after the current one,
    that frame becomes the planned one, and the same frame and mask are
    sent; outside lockstep play nothing is stored or sent.  [blur] clears
    the mask without storing or sending anything. *)
Theorem snes_key_changes paused claimed menuOpen isLockstep code e :
  0 ≤ SnesView.localInputState e < 4096 →
  let d := SnesKeys.onKeyDown paused claimed menuOpen isLockstep code e in
  let u := SnesKeys.onKeyUp paused isLockstep code e in
  let frame := Z.max (SnesView.plannedLocalFrame e) (SnesView.currentFrame e + 3) in
  let stored (r : SnesView.Engine * option (Z * Z)) :=
    if isLockstep
    then r.2 = Some (frame, SnesView.localInputState r.1)
         ∧ SnesView.plannedLocalFrame r.1 = frame
         ∧ SnesView.localStateByFrame r.1
           = <[frame := SnesView.localInputState r.1]> (SnesView.localStateByFrame e)
    else r.2 = None
         ∧ SnesView.plannedLocalFrame r.1 = SnesView.plannedLocalFrame e
         ∧ SnesView.localStateByFrame r.1 = SnesView.localStateByFrame e in
  0 ≤ SnesView.localInputState d.1 < 4096
  ∧ 0 ≤ SnesView.localInputState u.1 < 4096
  ∧ SnesView.currentFrame d.1 = SnesView.currentFrame e
  ∧ SnesView.currentFrame u.1 = SnesView.currentFrame e
  ∧ (paused = true → d = (e, None) ∧ u = (e, None))
  ∧ match SnesKeys.keyToBit code with
    | None => d = (e, None) ∧ u = (e, None)
    | Some bit =>
        ∃ k, 0 ≤ k < 12 ∧ bit = 2 ^ k
          ∧ (Z.testbit (SnesView.localInputState e) k = true → d = (e, None))
          ∧ (Z.testbit (SnesView.localInputState e) k = false → u = (e, None))
          ∧ (paused || claimed || menuOpen = false →
             Z.testbit (SnesView.localInputState e) k = false →
             stored d
             ∧ ∀ j, 0 ≤ j → Z.testbit (SnesView.localInputState d.1) j
                            = Z.testbit (SnesView.localInputState e) j || (j =? k))
          ∧ (paused = false →
             Z.testbit (SnesView.localInputState e) k = true →
             stored u
             ∧ ∀ j, 0 ≤ j → Z.testbit (SnesView.localInputState u.1) j
                            = Z.testbit (SnesView.localInputState e) j && negb (j =? k))
    end
  ∧ SnesView.localInputState (SnesKeys.onBlur e) = 0
  ∧ SnesView.localStateByFrame (SnesKeys.onBlur e) = SnesView.localStateByFrame e
  ∧ SnesView.plannedLocalFrame (SnesKeys.onBlur e) = SnesView.plannedLocalFrame e.
Proof.
  intros Ha d u frame stored.
  unfold d, u, stored, frame, SnesKeys.onKeyDown, SnesKeys.onKeyUp, SnesKeys.record,
    LOCKSTEP_INPUT_DELAY_FRAMES.
  destruct (SnesKeys.keyToBit code) as [bit |] eqn:E.
  - destruct (snes_keyToBit_bit _ _ E) as (k & Hk & ->).
    rewrite land_pow2 by lia.
    destruct (snes_press _ k Ha Hk) as [Hp1 Hp2], (snes_release _ k Ha Hk) as [Hr1 Hr2].
    destruct (Z.testbit (SnesView.localInputState e) k) eqn:Hbit; cbn [negb];
      refine (conj _ (conj _ (conj _ (conj _ (conj _ (conj _ (conj _ (conj _ _))))))));
      try (destruct paused, claimed, menuOpen, isLockstep; cbn [fst snd]; done);
      exists k; (split; [done |]); (split; [done |]).
    + split; [by destruct paused, claimed, menuOpen |]. split; [congruence |].
      split; [congruence |]. intros -> _. destruct isLockstep; by cbn.
    + split; [congruence |]. split; [by destruct paused |].
      split; [| congruence]. intros Hnone _.
      destruct paused, claimed, menuOpen; try done. destruct isLockstep; by cbn.
  - refine (conj _ (conj _ (conj _ (conj _ (conj _ (conj _ (conj _ (conj _ _))))))));
      destruct paused, claimed, menuOpen; cbn [fst snd]; done.
Qed.

Lemma snes_key_changes_witness :
  0 ≤ SnesView.localInputState
        (SnesKeys.onKeyDown false false false true "KeyK" (SnesView.initial 1)).1 < 4096.
Proof.
  refine (proj1 (snes_key_changes false false false true "KeyK" (SnesView.initial 1) _)).
  simpl. lia.
Defined.

Lemma hasBit_testbit bits k : 0 ≤ k → SnesView.hasBit bits k = Z.testbit bits k.
Proof. intros Hk. unfold SnesView.hasBit. rewrite land_bit by done. apply negb_involutive. Qed.

(** X27. [bitsToInput] reads bit k of the mask into the k-th button, in the
    order up, down, left, right, a, b, start, select, x, y, l, r; so two
    masks give the same input exactly when they agree on their low twelve
    bits, and the empty mask gives [createDefaultInput]. *)
Theorem bitsToInput_low_bits a b :
  SnesView.bitsToInput a
  = SnesView.mkInput (Z.testbit a 0) (Z.testbit a 1) (Z.testbit a 2) (Z.testbit a 3)
      (Z.testbit a 4) (Z.testbit a 5) (Z.testbit a 6) (Z.testbit a 7)
      (Z.testbit a 8) (Z.testbit a 9) (Z.testbit a 10) (Z.testbit a 11)
  ∧ (SnesView.bitsToInput a = SnesView.bitsToInput b ↔ Z.land a 4095 = Z.land b 4095)
  ∧ SnesView.bitsToInput 0 = SnesView.createDefaultInput.
Proof.
  assert (∀ m, SnesView.bitsToInput m
               = SnesView.mkInput (Z.testbit m 0) (Z.testbit m 1) (Z.testbit m 2)
                   (Z.testbit m 3) (Z.testbit m 4) (Z.testbit m 5) (Z.testbit m 6)
                   (Z.testbit m 7) (Z.testbit m 8) (Z.testbit m 9) (Z.testbit m 10)
                   (Z.testbit m 11)) as Hread.
  { intros m. unfold SnesView.bitsToInput. by rewrite !hasBit_testbit by lia. }
  split; [apply Hread |]. split; [| done].
  rewrite !Hread. split.
  - intros Heq. injection Heq as H0 H1 H2 H3 H4 H5 H6 H7 H8 H9 H10 H11.
    apply Z.bits_inj'. intros j Hj. rewrite !Z.land_spec.
    change 4095 with (Z.ones 12).
    destruct (decide (j < 12)) as [Hlt | Hge].
    + rewrite Z.ones_spec_low, !andb_true_r by lia.
      assert (j = 0 ∨ j = 1 ∨ j = 2 ∨ j = 3 ∨ j = 4 ∨ j = 5 ∨ j = 6 ∨ j = 7 ∨ j = 8
              ∨ j = 9 ∨ j = 10 ∨ j = 11) as Hcases by lia.
      repeat (destruct Hcases as [-> | Hcases]; [done |]). by subst.
    + rewrite Z.ones_spec_high by lia. by rewrite !andb_false_r.
  - intros Heq.
    assert (∀ j, 0 ≤ j < 12 → Z.testbit a j = Z.testbit b j) as Hbits.
    { intros j Hj.
      assert (Z.testbit (Z.land a 4095) j = Z.testbit (Z.land b 4095) j) as H
        by (by rewrite Heq).
      rewrite !Z.land_spec in H. change 4095 with (Z.ones 12) in H.
      by rewrite Z.ones_spec_low, !andb_true_r in H by lia. }
    by rewrite !Hbits by lia.
Qed.

Lemma bitsToInput_low_bits_witness :
  SnesView.bitsToInput 4097 = SnesView.bitsToInput 1.
Proof.
  refine (proj2 (proj1 (proj2 (bitsToInput_low_bits 4097 1))) _). reflexivity.
Defined.

(** ** The NES session *)

Lemma get_set k k' v s :
  NesSession.get k' (NesSession.set k v s)
  = if decide (k' = k) then v else NesSession.get k' s.
Proof. by destruct k, k'. Qed.

Lemma keys_ext s s' : (∀ k, NesSession.get k s = NesSession.get k s') → s = s'.
Proof.
  intros H. destruct s, s'.
  pose proof (H NesSession.K_up). pose proof (H NesSession.K_down).
  pose proof (H NesSession.K_left). pose proof (H NesSession.K_right).
  pose proof (H NesSession.K_a). pose proof (H NesSession.K_b).
  pose proof (H NesSession.K_start). pose proof (H NesSession.K_select).
  simpl in *. by subst.
Qed.

Lemma buttonOrder_NoDup :
  NoDup (NesSession.buttonOrder.*1) ∧ NoDup (NesSession.buttonOrder.*2).
Proof.
  split; apply NoDup_ListNoDup; vm_compute; repeat constructor; simpl; intuition discriminate.
Qed.

Lemma buttonOrder_keys k : k ∈ NesSession.buttonOrder.*1.
Proof. apply list_elem_of_In. destruct k; simpl; tauto. Qed.

Lemma applyMapping_fold input l prev effects pad :
  NoDup (l.*1) → NoDup (l.*2) →
  let r := foldl (NesSession.applyMapping input) (prev, effects) l in
  (∀ k, NesSession.get k r.1
        = if decide (k ∈ l.*1) then NesSession.get k input else NesSession.get k prev)
  ∧ (∃ more, r.2 = effects ++ more
       ∧ (∀ x, x ∈ more → ∃ button, x = NesLoop.ButtonDown 1 button
                                    ∨ x = NesLoop.ButtonUp 1 button)
       ∧ ((∀ k, k ∈ l.*1 → NesSession.get k input = NesSession.get k prev) → more = [])
       ∧ (∀ key button, (key, button) ∈ l →
            pad 1%Z button = NesSession.get key prev →
            NesPad.performAll pad more 1%Z button = NesSession.get key input)
       ∧ (∀ q c, q ≠ 1%Z ∨ c ∉ l.*2 → NesPad.performAll pad more q c = pad q c)).
Proof.
  revert prev effects pad. induction l as [| [key button] l IH];
    intros prev effects pad Hk Hb; cbn zeta.
  - simpl. split; [done |]. exists []. rewrite app_nil_r. split_and!; try done.
    + intros x Hx. by apply elem_of_nil in Hx.
    + intros k b Hin. by apply elem_of_nil in Hin.
  - apply NoDup_cons in Hk as [Hkey Hk]. apply NoDup_cons in Hb as [Hbutton Hb].
    simpl in Hkey, Hbutton. cbn [foldl].
    set (acc := NesSession.applyMapping input (prev, effects) (key, button)).
    assert (∃ one, acc = (NesSession.set key (NesSession.get key input) prev, effects ++ one)
                   ∧ (∀ x, x ∈ one → ∃ button, x = NesLoop.ButtonDown 1 button
                                               ∨ x = NesLoop.ButtonUp 1 button)
                   ∧ (NesSession.get key input = NesSession.get key prev → one = [])
                   ∧ (pad 1%Z button = NesSession.get key prev →
                      NesPad.performAll pad one 1%Z button = NesSession.get key input)
                   ∧ (∀ q c, q ≠ 1%Z ∨ c ≠ button → NesPad.performAll pad one q c = pad q c))
      as (one & -> & Hone & Hquiet & Hshown & Hother).
    { unfold acc, NesSession.applyMapping. cbn [fst snd].
      destruct (Bool.eqb _ _) eqn:Heq.
      - apply Bool.eqb_prop in Heq. exists []. rewrite app_nil_r. split_and!; try done.
        + f_equal. apply keys_ext. intros k. rewrite get_set. case_decide; by subst.
        + intros x Hx. by apply elem_of_nil in Hx.
        + intros Hp. change (NesPad.performAll pad [] 1%Z button) with (pad 1%Z button).
          congruence.
      - apply Bool.eqb_false_iff in Heq. eexists. split; [reflexivity |]. split_and!.
        + intros x Hx. apply list_elem_of_singleton in Hx as ->. exists button.
          destruct (NesSession.get key input); auto.
        + intros Hsame. by destruct Heq.
        + intros _. destruct (NesSession.get key input); simpl; by rewrite decide_True.
        + intros q c Hqc. destruct (NesSession.get key input); simpl;
            case_decide as Hd; try done; destruct Hd as [-> ->]; by destruct Hqc. }
    destruct (IH (NesSession.set key (NesSession.get key input) prev) (effects ++ one)
                 (NesPad.performAll pad one) Hk Hb) as (Hget & more & Hmore & Hall & Hnone
                                                          & Hpad & Hrest).
    split.
    + intros k. rewrite Hget, get_set.
      destruct (decide (k = key)) as [Heq | Hne], (decide (k ∈ l.*1)) as [Hin | Hnin];
        case_decide as Hd; subst; try done; exfalso; rewrite fmap_cons in Hd;
        cbn [fst] in Hd; first [ apply Hd; by left | apply Hd; by right
                               | apply elem_of_cons in Hd as [? | ?]; done ].
    + exists (one ++ more). rewrite Hmore, app_assoc. split; [done |]. split_and!.
      * intros x [Hx | Hx]%elem_of_app; [by apply Hone | by apply Hall].
      * intros Hsame. rewrite Hquiet by (apply Hsame; by left). rewrite Hnone; [done |].
        intros k Hin. rewrite get_set. case_decide; [by subst |].
        apply Hsame. by right.
      * intros k c Hin Hc. unfold NesPad.performAll. rewrite foldl_app.
        fold (NesPad.performAll pad one).
        fold (NesPad.performAll (NesPad.performAll pad one) more).
        apply elem_of_cons in Hin as [Hin | Hin].
        -- injection Hin as -> ->. rewrite Hrest by (by right). by apply Hshown.
        -- assert (k ≠ key) as Hk'.
           { intros ->. apply Hkey. apply list_elem_of_fmap. by exists (key, c). }
           assert (c ≠ button) as Hc'.
           { intros ->. apply Hbutton. apply list_elem_of_fmap. by exists (k, button). }
           apply Hpad; [done |]. rewrite get_set, decide_False by done.
           rewrite Hother by (by right). done.
      * intros q c Hqc. unfold NesPad.performAll. rewrite foldl_app.
        fold (NesPad.performAll pad one).
        fold (NesPad.performAll (NesPad.performAll pad one) more).
        rewrite Hrest, Hother; [done | |].
        -- destruct Hqc as [? | Hc]; [by left | right]. intros ->. apply Hc. by left.
        -- destruct Hqc as [? | Hc]; [by left | right]. intros ?. apply Hc. by right.
Qed.

(** X28. The NES session applies its input by difference.  Unmounted,
    [applyInput] does nothing.  Mounted, it calls the emulator for player 1
    only; afterwards [previousApplied] equals [inputState], and a pad of
    player 1 that held the keys of [previousApplied] holds those of
    [inputState]; [applyInput] again, with the input unchanged, makes no
    call.  [setInput] takes the eight NES buttons of the input given and
    leaves [previousApplied]. *)
Theorem session_input_by_difference s pad p1 :
  let r := NesSession.applyInput s in
  (NesSession.mounted s = false → r = (s, []))
  ∧ (NesSession.mounted s = true →
     NesSession.previousApplied r.1 = NesSession.inputState s
     ∧ NesSession.inputState r.1 = NesSession.inputState s
     ∧ NesSession.mounted r.1 = true
     ∧ (∀ x, x ∈ r.2 → ∃ button, x = NesLoop.ButtonDown 1 button
                                 ∨ x = NesLoop.ButtonUp 1 button)
     ∧ (NesSession.shows pad (NesSession.previousApplied s) →
        NesSession.shows (NesPad.performAll pad r.2) (NesSession.inputState s))
     ∧ (NesSession.applyInput r.1).2 = [])
  ∧ NesSession.inputState (NesSession.setInput p1 s)
    = NesSession.mkKeys (SnesView.up p1) (SnesView.down p1) (SnesView.left p1)
        (SnesView.right p1) (SnesView.a p1) (SnesView.b p1) (SnesView.start p1)
        (SnesView.select p1)
  ∧ NesSession.previousApplied (NesSession.setInput p1 s) = NesSession.previousApplied s.
Proof.
  intros r. destruct buttonOrder_NoDup as [Hk Hb].
  split; [| split; [| done]].
  - intros Hm. unfold r, NesSession.applyInput. by rewrite Hm.
  - intros Hm.
    assert (∀ s', NesSession.mounted s' = true →
              let r' := NesSession.applyInput s' in
              NesSession.previousApplied r'.1 = NesSession.inputState s'
              ∧ NesSession.inputState r'.1 = NesSession.inputState s'
              ∧ NesSession.mounted r'.1 = true
              ∧ (∀ x, x ∈ r'.2 → ∃ button, x = NesLoop.ButtonDown 1 button
                                           ∨ x = NesLoop.ButtonUp 1 button)
              ∧ (NesSession.shows pad (NesSession.previousApplied s') →
                 NesSession.shows (NesPad.performAll pad r'.2) (NesSession.inputState s'))
              ∧ (NesSession.previousApplied s' = NesSession.inputState s' → r'.2 = []))
      as Hgen.
    { intros s' Hm'. cbn zeta. unfold NesSession.applyInput. rewrite Hm'. cbn [negb fst snd].
      destruct (applyMapping_fold (NesSession.inputState s') NesSession.buttonOrder
                  (NesSession.previousApplied s') [] pad Hk Hb)
        as (Hget & more & Hmore & Hall & Hnone & Hpad & _).
      rewrite app_nil_l in Hmore. rewrite Hmore. split_and!; try done.
      - apply keys_ext. intros k. rewrite Hget.
        by rewrite decide_True by apply buttonOrder_keys.
      - intros Hshows key button Hin. apply Hpad; [done |]. by apply Hshows.
      - intros Heq. apply Hnone. intros k _. by rewrite Heq. }
    destruct (Hgen s Hm) as (G1 & G2 & G3 & G4 & G5 & _). fold r in G1, G2, G3, G4, G5.
    split_and!; try done.
    destruct (Hgen r.1 G3) as (_ & _ & _ & _ & _ & G6). apply G6. by rewrite G1, G2.
Qed.

Lemma session_input_by_difference_witness :
  NesSession.applyInput NesSession.fresh = (NesSession.fresh, []).
Proof.
  refine (proj1 (session_input_by_difference NesSession.fresh NesPad.released
                   SnesView.createDefaultInput) _).
  reflexivity.
Defined.

Local Close Scope Z_scope.

(** ** ROM bytes and binary strings *)

Lemma string_of_list_byte_app l1 l2 :
  string_of_list_byte (l1 ++ l2) = string_of_list_byte l1 +:+ string_of_list_byte l2.
Proof.
  induction l1 as [| x l1 IH]; [done |]. rewrite <- app_comm_cons.
  change (String (ascii_of_byte x) (string_of_list_byte (l1 ++ l2))
          = String (ascii_of_byte x) (string_of_list_byte l1 +:+ string_of_list_byte l2)).
  by rewrite IH.
Qed.

Lemma append_empty_r (s : string) : s +:+ "" = s.
Proof.
  induction s as [| a s IH]; [done |].
  change (String a (s +:+ "") = String a s). by rewrite IH.
Qed.

Lemma append_assoc' (s1 s2 s3 : string) : (s1 +:+ s2) +:+ s3 = s1 +:+ (s2 +:+ s3).
Proof.
  induction s1 as [| a s1 IH]; [done |].
  change (String a ((s1 +:+ s2) +:+ s3) = String a (s1 +:+ (s2 +:+ s3))). by rewrite IH.
Qed.

Lemma CHUNK_positive : (0 < Buffer.CHUNK)%nat.
Proof. unfold Buffer.CHUNK. lia. Qed.

Lemma bytesLoop_all fuel i bytes out :
  (length bytes ≤ i + fuel)%nat →
  Buffer.bytesLoop fuel i bytes out = out +:+ string_of_list_byte (drop i bytes).
Proof.
  pose proof CHUNK_positive as Hc.
  revert i out. induction fuel as [| k IH]; intros i out Hlen; cbn [Buffer.bytesLoop].
  - rewrite drop_ge by lia. by rewrite append_empty_r.
  - destruct (Nat.ltb_spec i (length bytes)) as [Hlt | Hge].
    + rewrite IH by lia. rewrite append_assoc', <- string_of_list_byte_app.
      by rewrite <- drop_drop, take_drop.
    + rewrite drop_ge by lia. by rewrite append_empty_r.
Qed.

Lemma list_byte_of_string_lookup s i :
  list_byte_of_string s !! i = Buffer.charCodeAt s i.
Proof.
  unfold Buffer.charCodeAt. revert i. induction s as [| a s IH]; intros i; [by destruct i |].
  change (list_byte_of_string (String a s)) with (byte_of_ascii a :: list_byte_of_string s).
  destruct i as [| i]; [done |]. apply IH.
Qed.

Lemma length_list_byte_of_string s : length (list_byte_of_string s) = String.length s.
Proof.
  induction s as [| a s IH]; [done |].
  change (list_byte_of_string (String a s)) with (byte_of_ascii a :: list_byte_of_string s).
  simpl. by rewrite IH.
Qed.

Lemma fillLoop_all fuel i binary bytes :
  length bytes = String.length binary →
  (String.length binary ≤ i + fuel)%nat →
  (∀ j, (j < i)%nat → bytes !! j = list_byte_of_string binary !! j) →
  Buffer.fillLoop fuel i binary bytes = list_byte_of_string binary.
Proof.
  revert i bytes. induction fuel as [| k IH]; intros i bytes Hlen Hfuel Hdone;
    cbn [Buffer.fillLoop].
  - apply list_eq. intros j. destruct (decide (j < i)%nat); [by apply Hdone |].
    rewrite !lookup_ge_None_2; [done | rewrite length_list_byte_of_string | ]; lia.
  - destruct (Nat.ltb_spec i (String.length binary)) as [Hlt | Hge].
    + apply IH; [by rewrite length_insert | lia |].
      intros j Hj. destruct (decide (j = i)) as [-> | Hne].
      * rewrite list_lookup_insert_eq by lia. rewrite list_byte_of_string_lookup.
        destruct (Buffer.charCodeAt binary i) eqn:E; [done |].
        rewrite <- list_byte_of_string_lookup in E. apply lookup_ge_None in E.
        rewrite length_list_byte_of_string in E. lia.
      * rewrite list_lookup_insert_ne by done. apply Hdone. lia.
    + apply list_eq. intros j. destruct (decide (j < i)%nat); [by apply Hdone |].
      rewrite !lookup_ge_None_2; [done | rewrite length_list_byte_of_string | ]; lia.
Qed.

(** X29. The bytes of a ROM pass unchanged between byte arrays and binary
    strings: [bytesToBinaryString] gives one character per byte, in order,
    whatever the length (cutting the array into slices of 0x8000 bytes
    loses and repeats nothing), the loop of [b64ToBytes] gives one byte per
    character, and each undoes the other. *)
Theorem rom_bytes_round_trip bytes binary :
  Buffer.bytesToBinaryString bytes = string_of_list_byte bytes
  ∧ Buffer.binaryToBytes binary = list_byte_of_string binary
  ∧ Buffer.binaryToBytes (Buffer.bytesToBinaryString bytes) = bytes
  ∧ Buffer.bytesToBinaryString (Buffer.binaryToBytes binary) = binary
  ∧ String.length (Buffer.bytesToBinaryString bytes) = length bytes.
Proof.
  assert (∀ l, Buffer.bytesToBinaryString l = string_of_list_byte l) as H1.
  { intros l. unfold Buffer.bytesToBinaryString. by rewrite bytesLoop_all by lia. }
  assert (∀ s, Buffer.binaryToBytes s = list_byte_of_string s) as H2.
  { intros s. unfold Buffer.binaryToBytes. apply fillLoop_all.
    - apply length_replicate.
    - lia.
    - intros j Hj. lia. }
  split_and!; [done | done | | |].
  - by rewrite H2, H1, list_byte_of_string_of_list_byte.
  - by rewrite H1, H2, string_of_list_byte_of_string.
  - rewrite H1. rewrite <- length_list_byte_of_string.
    by rewrite list_byte_of_string_of_list_byte.
Qed.

(** ** The pending requests of the client *)

Lemma pending_step ev pending :
  NoDup pending →
  let r := SocialPending.step ev pending in
  NoDup r.1
  ∧ NoDup (r.2.*1)
  ∧ (∀ id, id ∈ r.2.*1 → id ∈ pending ∧ id ∉ r.1)
  ∧ (∀ id, id ∈ r.1 ↔ (id ∈ pending ∨ ev = SocialPending.Request id) ∧ id ∉ r.2.*1).
Proof.
  intros Hnd. cbn zeta.
  assert (∀ id outcome,
            let r := SocialPending.settle id outcome pending in
            NoDup r.1 ∧ NoDup (r.2.*1)
            ∧ (∀ x, x ∈ r.2.*1 → x ∈ pending ∧ x ∉ r.1)
            ∧ (∀ x, x ∈ r.1 ↔ x ∈ pending ∧ x ∉ r.2.*1)) as Hsettle.
  { intros id outcome. cbn zeta. unfold SocialPending.settle.
    destruct (includes id pending) eqn:E; cbn [fst snd fmap list_fmap].
    - apply includes_true in E. split_and!.
      + by apply NoDup_filter.
      + apply NoDup_singleton.
      + intros x ->%list_elem_of_singleton. split; [done |].
        intros Hx%elem_of_without. by destruct Hx.
      + intros x. rewrite elem_of_without, list_elem_of_singleton. tauto.
    - split_and!; [done | apply NoDup_nil_2 | |].
      + intros x Hx. by apply elem_of_nil in Hx.
      + intros x. split; [| tauto]. intros Hx. split; [done |].
        intros H. by apply elem_of_nil in H. }
  assert (∀ error,
            let r := SocialPending.rejectAllPending error pending in
            NoDup r.1 ∧ NoDup (r.2.*1)
            ∧ (∀ x, x ∈ r.2.*1 → x ∈ pending ∧ x ∉ r.1)
            ∧ (∀ x, x ∈ r.1 ↔ x ∈ pending ∧ x ∉ r.2.*1)) as Hall.
  { intros error. cbn zeta. unfold SocialPending.rejectAllPending. cbn [fst snd].
    rewrite <- list_fmap_compose.
    assert (fst ∘ (λ requestId, (requestId, SocialPending.Rejected error)) <$> pending
            = pending) as -> by (rewrite <- (list_fmap_id pending) at 2; done).
    split_and!; [apply NoDup_nil_2 | done | |].
    - intros x Hx. split; [done |]. intros H. by apply elem_of_nil in H.
    - intros x. split; [intros H; by apply elem_of_nil in H | tauto]. }
  destruct ev as [id | id ok error | id | |]; cbn [SocialPending.step].
  - cbn [fst snd fmap list_fmap]. split_and!.
    + by apply NoDup_pushUnique.
    + apply NoDup_nil_2.
    + intros x Hx. by apply elem_of_nil in Hx.
    + intros x. rewrite elem_of_pushUnique. split.
      * intros [-> | Hx]; (split; [auto | intros H; by apply elem_of_nil in H]).
      * intros [[Hx | Heq] _]; [by right | left; by injection Heq].
  - destruct (Hsettle id (if ok then SocialPending.Resolved
                          else SocialPending.Rejected (orElse error "Request failed")))
      as (H1 & H2 & H3 & H4).
    split_and!; try done. intros x. rewrite H4. split; [intros [? ?]; auto |].
    intros [[? | ?] ?]; done.
  - destruct (Hsettle id (SocialPending.Rejected "Signaling timeout")) as (H1 & H2 & H3 & H4).
    split_and!; try done. intros x. rewrite H4. split; [intros [? ?]; auto |].
    intros [[? | ?] ?]; done.
  - destruct (Hall "Signaling connection closed") as (H1 & H2 & H3 & H4).
    split_and!; try done. intros x. rewrite H4. split; [intros [? ?]; auto |].
    intros [[? | ?] ?]; done.
  - destruct (Hall "Connection closed") as (H1 & H2 & H3 & H4).
    split_and!; try done. intros x. rewrite H4. split; [intros [? ?]; auto |].
    intros [[? | ?] ?]; done.
Qed.

Lemma pending_run evs :
  NoDup (SocialPending.requested evs) →
  let r := SocialPending.run evs in
  NoDup r.1
  ∧ NoDup (r.2.*1)
  ∧ (∀ id, id ∈ r.1 ↔ id ∈ SocialPending.requested evs ∧ id ∉ r.2.*1)
  ∧ (∀ id, id ∈ r.2.*1 → id ∈ SocialPending.requested evs).
Proof.
  induction evs as [| ev evs IH] using rev_ind; intros Hfresh; cbn zeta.
  - cbn. split_and!; try apply NoDup_nil_2.
    + intros id. split; [intros H; by apply elem_of_nil in H | by intros [H _]].
    + intros id H. by apply elem_of_nil in H.
  - unfold SocialPending.requested in Hfresh. rewrite omap_app in Hfresh.
    fold (SocialPending.requested evs) in Hfresh.
    apply NoDup_app in Hfresh as (Hfresh & Hnew & _).
    destruct (IH Hfresh) as (I1 & I2 & I3 & I4).
    unfold SocialPending.run. rewrite foldl_app. fold (SocialPending.run evs).
    cbn [foldl fst snd].
    destruct (pending_step ev (SocialPending.run evs).1 I1) as (S1 & S2 & S3 & S4).
    set (r := SocialPending.step ev (SocialPending.run evs).1) in *.
    assert (∀ id, id ∈ SocialPending.requested (evs ++ [ev])
                  ↔ id ∈ SocialPending.requested evs ∨ ev = SocialPending.Request id)
      as Hreq.
    { intros id. unfold SocialPending.requested. rewrite omap_app, elem_of_app.
      fold (SocialPending.requested evs). destruct ev; simpl;
        rewrite ?list_elem_of_singleton, ?elem_of_nil;
        (split; (intros [? | H]; [by left | first [by destruct H | discriminate H
                                                   | right; congruence]])). }
    rewrite fmap_app. split_and!.
    + done.
    + apply NoDup_app. split_and!; [done | | done].
      intros id Hold Hnow. apply S3 in Hnow as [Hp _]. apply I3 in Hp as [_ Hp]. done.
    + intros id. rewrite S4, I3, Hreq, elem_of_app. split.
      * intros [[[Hr Hns] | ->] Hnow]; [tauto |]. split; [by right |].
        intros [Hold | ?]; [| done]. apply I4 in Hold. apply (Hnew id Hold).
        simpl. by left.
      * intros [[Hr | ->] Hns]; [tauto |]. split; [by right | tauto].
    + intros id [Hold | Hnow]%elem_of_app; apply Hreq; left.
      * by apply I4.
      * apply S3 in Hnow as [Hp _]. by apply I3 in Hp as [? _].
Qed.

(** X30. The client settles each request at most once.  When the request
    ids issued are distinct, then after any sequence of requests,
    responses, timeouts, socket closures and [close()] calls no request id
    has had a callback called twice, every callback called belongs to a
    request issued, and the map [pending] holds exactly the requests issued
    and not yet settled; a response or timeout for a request that is not
    pending calls nothing and changes nothing. *)
Theorem request_settled_once evs :
  NoDup (SocialPending.requested evs) →
  let r := SocialPending.run evs in
  NoDup (r.2.*1)
  ∧ (∀ id, id ∈ r.2.*1 → id ∈ SocialPending.requested evs)
  ∧ (∀ id, id ∈ r.1 ↔ id ∈ SocialPending.requested evs ∧ id ∉ r.2.*1)
  ∧ (∀ id ok error, id ∉ r.1 →
       SocialPending.step (SocialPending.Response id ok error) r.1 = (r.1, [])
       ∧ SocialPending.step (SocialPending.Timeout id) r.1 = (r.1, [])).
Proof.
  intros Hfresh r. destruct (pending_run evs Hfresh) as (H1 & H2 & H3 & H4).
  fold r in H1, H2, H3, H4. split_and!; try done.
  intros id ok error Hid. cbn [SocialPending.step]. unfold SocialPending.settle.
  by rewrite (proj2 (includes_false _ _) Hid).
Qed.

Lemma request_settled_once_witness :
  (SocialPending.run [SocialPending.Request "a"; SocialPending.Response "a" true "";
                      SocialPending.Timeout "a"; SocialPending.SocketClosed]).2.*1
  = ["a"]
  ∧ NoDup ((SocialPending.run
              [SocialPending.Request "a"; SocialPending.Response "a" true "";
               SocialPending.Timeout "a"; SocialPending.SocketClosed]).2.*1).
Proof.
  split; [vm_compute; reflexivity |].
  refine (proj1 (request_settled_once
                   [SocialPending.Request "a"; SocialPending.Response "a" true "";
                    SocialPending.Timeout "a"; SocialPending.SocketClosed] _)).
  vm_compute. apply NoDup_singleton.
Defined.
